(** * Order state and overlay synchronisation engine

    A shallow embedding of the order layer of the chart package
    ([orders/utils.ts], [orders/themes.ts], [orders/types.ts],
    [orders/persistence.ts], [orders/overlays/order-overlay.ts] and the
    [OrderManagerImpl] class), with the properties of its design document
    stated and settled against the code. *)

From Stdlib Require Import ZArith QArith Qabs Qfield Lqa String Ascii List Lia Permutation Sorted.
From stdpp Require Import base option gmap strings pretty.
Import ListNotations.

Set Warnings "-register-all".

Local Open Scope string_scope.
Local Open Scope list_scope.

(** ** JavaScript numbers

    A JavaScript [number] is a finite value, one of the two infinities, or
    [NaN].  Finite values are kept as exact rationals: rounding and the sign
    of zero are not modelled, everything that decides a branch of the code
    (the special values, comparison with [0], truthiness) is. *)

Module JsNum.

Local Open Scope Q_scope.

Inductive num : Type :=
| Fin (q : Q)
| PInf
| NInf
| NaN.

Definition zero : num := Fin 0.
Definition of_Z (z : Z) : num := Fin (inject_Z z).

(** Sign of a rational, read off its numerator. *)
Definition sgn (q : Q) : comparison := (Qnum q ?= 0)%Z.

Definition inf_of (c : comparison) : num :=
  match c with Gt => PInf | Lt => NInf | Eq => NaN end.

Definition sign_of (a : num) : option comparison :=
  match a with
  | Fin q => Some (sgn q)
  | PInf => Some Gt
  | NInf => Some Lt
  | NaN => None
  end.

Definition mul_sign (c d : comparison) : comparison :=
  match c, d with
  | Eq, _ | _, Eq => Eq
  | Gt, Gt | Lt, Lt => Gt
  | _, _ => Lt
  end.

Definition add (a b : num) : num :=
  match a, b with
  | NaN, _ | _, NaN => NaN
  | Fin x, Fin y => Fin (x + y)
  | PInf, NInf | NInf, PInf => NaN
  | PInf, _ | _, PInf => PInf
  | NInf, _ | _, NInf => NInf
  end.

Definition opp (a : num) : num :=
  match a with
  | Fin x => Fin (- x)
  | PInf => NInf
  | NInf => PInf
  | NaN => NaN
  end.

Definition sub (a b : num) : num := add a (opp b).

Definition mul (a b : num) : num :=
  match a, b with
  | NaN, _ | _, NaN => NaN
  | Fin x, Fin y => Fin (x * y)
  | _, _ =>
      match sign_of a, sign_of b with
      | Some c, Some d => inf_of (mul_sign c d)
      | _, _ => NaN
      end
  end.

(** Division: a finite value over zero is an infinity of the sign of the
    numerator (the zero divisor is taken as positive), [0 / 0] is [NaN]. *)
Definition div (a b : num) : num :=
  match a, b with
  | NaN, _ | _, NaN => NaN
  | Fin x, Fin y =>
      match sgn y with
      | Eq => inf_of (sgn x)
      | _ => Fin (x / y)
      end
  | Fin _, _ => Fin 0
  | _, Fin y =>
      match sign_of a, sgn y with
      | Some c, Eq => inf_of c
      | Some c, d => inf_of (mul_sign c d)
      | None, _ => NaN
      end
  | _, _ => NaN
  end.

(** [a < b], [a <= b], [a > b]: every comparison with [NaN] is false. *)
Definition ltb (a b : num) : bool :=
  match a, b with
  | NaN, _ | _, NaN => false
  | Fin x, Fin y => match Qcompare x y with Lt => true | _ => false end
  | NInf, NInf => false
  | NInf, _ => true
  | _, NInf => false
  | PInf, _ => false
  | _, PInf => true
  end.

Definition leb (a b : num) : bool :=
  match a, b with
  | NaN, _ | _, NaN => false
  | Fin x, Fin y => match Qcompare x y with Gt => false | _ => true end
  | NInf, _ => true
  | _, NInf => false
  | _, PInf => true
  | PInf, _ => false
  end.

Definition gtb (a b : num) : bool := ltb b a.

(** ToBoolean on a number: [0] and [NaN] are falsy. *)
Definition truthy (a : num) : bool :=
  match a with
  | Fin q => match sgn q with Eq => false | _ => true end
  | PInf | NInf => true
  | NaN => false
  end.

Definition is_nan (a : num) : bool :=
  match a with NaN => true | _ => false end.

(** Equality of numbers by value: rationals up to [Qeq]. *)
Definition num_eq (a b : num) : Prop :=
  match a, b with
  | Fin x, Fin y => x == y
  | PInf, PInf | NInf, NInf | NaN, NaN => True
  | _, _ => False
  end.

End JsNum.

Export JsNum.

Declare Scope num_scope.
Delimit Scope num_scope with num.
Bind Scope num_scope with num.
Infix "+" := JsNum.add : num_scope.
Infix "-" := JsNum.sub : num_scope.
Infix "*" := JsNum.mul : num_scope.
Infix "/" := JsNum.div : num_scope.
Notation "- x" := (JsNum.opp x) : num_scope.
Infix "≃" := JsNum.num_eq (at level 70, no associativity).

(** ** [orders/types.ts] *)

Inductive OrderType := market | limit | stop_loss | take_profit | entry.
Inductive OrderSide := buy | sell.
Inductive OrderStatus := pending | filled | cancelled | partially_filled.
Inductive OrderEvent := ev_created | ev_updated | ev_cancelled | ev_filled | ev_dragged.

#[global] Instance OrderType_eq_dec : EqDecision OrderType.
Proof. solve_decision. Defined.
#[global] Instance OrderSide_eq_dec : EqDecision OrderSide.
Proof. solve_decision. Defined.
#[global] Instance OrderStatus_eq_dec : EqDecision OrderStatus.
Proof. solve_decision. Defined.

(** The string behind each literal of the union types. *)
Definition type_name (t : OrderType) : string :=
  match t with
  | market => "market"
  | limit => "limit"
  | stop_loss => "stop_loss"
  | take_profit => "take_profit"
  | entry => "entry"
  end.

Definition side_name (s : OrderSide) : string :=
  match s with buy => "buy" | sell => "sell" end.

Definition status_name (s : OrderStatus) : string :=
  match s with
  | pending => "pending"
  | filled => "filled"
  | cancelled => "cancelled"
  | partially_filled => "partially_filled"
  end.

(** JSON-like values, for [customData: Record<string, any>] and for the
    persistence layer.  [JUndefined] is the value of a property that is
    declared and not set. *)
Inductive JsValue :=
| JUndefined
| JNull
| JBool (b : bool)
| JNumber (n : num)
| JString (s : string)
| JArray (items : list JsValue)
| JObject (props : list (string * JsValue)).

(** [TradingOrder] (with [BaseOrder]).  The fields that the class reads
    before validation, or that a caller written in JavaScript can leave
    out, are optional: [None] is [undefined]. *)
Module TradingOrder.
Record t := mk {
  id : string;
  type : option OrderType;
  side : option OrderSide;
  price : option num;
  quantity : option num;
  symbol : option string;
  status : OrderStatus;
  timestamp : Z;
  text : option string;
  customData : option JsValue;
  entryPrice : option num;
  stopLoss : option num;
  takeProfit : option num;
  pnl : option num;
  unrealizedPnl : option num;
  fees : option num;
  fillPrice : option num;
  fillQuantity : option num
}.
End TradingOrder.
Abbreviation TradingOrder := TradingOrder.t.

(** [CreateOrderOptions]. *)
Module CreateOrderOptions.
Record t := mk {
  id : option string;
  type : option OrderType;
  side : option OrderSide;
  price : option num;
  quantity : option num;
  symbol : option string;
  status : option OrderStatus;
  text : option string;
  entryPrice : option num;
  stopLoss : option num;
  takeProfit : option num;
  customData : option JsValue
}.
End CreateOrderOptions.
Abbreviation CreateOrderOptions := CreateOrderOptions.t.

(** [PnLResult]. *)
Module PnLResult.
Record t := mk {
  unrealizedPnl : num;
  realizedPnl : num;
  percentage : num;
  fees : num;
  netPnl : num
}.
End PnLResult.
Abbreviation PnLResult := PnLResult.t.

Inductive LineStyle := solid | dashed | dotted.

(** [OrderStyle]: two required colours, the rest optional. *)
Module OrderStyle.
Record t := mk {
  lineColor : string;
  textColor : string;
  backgroundColor : option string;
  lineWidth : option num;
  lineStyle : option LineStyle;
  fontSize : option num;
  showCancelButton : option bool;
  draggable : option bool
}.
End OrderStyle.
Abbreviation OrderStyle := OrderStyle.t.

(** One side of a theme is an object keyed by [entry], [limit],
    [stopLoss], [takeProfit] and [market]; an object built by a spread may
    hold fewer keys, so it is a finite map. *)
Abbreviation SideTheme := (gmap string OrderStyle).

Module OrderTheme.
Record t := mk { buy : SideTheme; sell : SideTheme }.
End OrderTheme.
Abbreviation OrderTheme := OrderTheme.t.

(** [Partial<OrderTheme>]: either side may be left out. *)
Module PartialTheme.
Record t := mk { buy : option SideTheme; sell : option SideTheme }.
End PartialTheme.
Abbreviation PartialTheme := PartialTheme.t.

(** [OrderCallback]: a subscriber implements any subset of the four
    handlers.  The handlers are foreign code: a subscriber is known by its
    identity [ref] and by which handlers it has, and calling a handler is
    recorded in the log of effects.  A handler is taken to return without
    throwing, without calling back into the manager and without changing
    the objects it is handed. *)
Module OrderCallback.
Record t := mk {
  ref : nat;
  onOrderEvent : bool;
  onPriceChange : bool;
  onCancel : bool;
  onOrderClick : bool
}.
End OrderCallback.
Abbreviation OrderCallback := OrderCallback.t.

(** [OrderOverlayData]: the order spread into the payload, with the
    reference price, the PnL and the resolved style. *)
Module OrderOverlayData.
Record t := mk {
  order : TradingOrder;
  currentPrice : option num;
  pnlResult : option PnLResult;
  theme : option OrderStyle
}.
End OrderOverlayData.
Abbreviation OrderOverlayData := OrderOverlayData.t.

(** ** Values that may be [undefined] *)

(** ToNumber: [undefined] becomes [NaN]. *)
Definition to_num (a : option num) : num :=
  match a with Some n => n | None => NaN end.

(** [a || b] on numbers that may be [undefined]. *)
Definition or_num (a b : option num) : option num :=
  match a with
  | Some n => if truthy n then Some n else b
  | None => b
  end.

(** [!s] on a string that may be [undefined]: the empty string is falsy. *)
Definition str_falsy (s : option string) : bool :=
  match s with
  | None => true
  | Some s => if decide (s = "") then true else false
  end.

(** Exceptions. *)
Inductive exn :=
| Error (message : string)
| TypeError.

(** ** [orders/utils.ts] *)

Definition is_open (s : OrderStatus) : bool :=
  match s with filled | partially_filled => true | _ => false end.

Definition calculatePnL (order : TradingOrder) (currentPrice : num) : PnLResult :=
  let entryPrice := to_num (or_num (TradingOrder.entryPrice order) (TradingOrder.price order)) in
  let quantity := to_num (or_num (TradingOrder.fillQuantity order) (TradingOrder.quantity order)) in
  let fees := to_num (or_num (TradingOrder.fees order) (Some zero)) in
  let unrealizedPnl :=
    if is_open (TradingOrder.status order) then
      match TradingOrder.side order with
      | Some buy => ((currentPrice - entryPrice) * quantity)%num
      | _ => ((entryPrice - currentPrice) * quantity)%num
      end
    else zero in
  let realizedPnl :=
    match TradingOrder.status order, TradingOrder.fillPrice order with
    | filled, Some fillPrice =>
        if truthy fillPrice then
          match TradingOrder.side order with
          | Some buy => ((fillPrice - entryPrice) * quantity)%num
          | _ => ((entryPrice - fillPrice) * quantity)%num
          end
        else zero
    | _, _ => zero
    end in
  let netPnl := (unrealizedPnl + realizedPnl - fees)%num in
  let percentage :=
    if gtb entryPrice zero
    then (netPnl / (entryPrice * quantity) * of_Z 100)%num
    else zero in
  PnLResult.mk unrealizedPnl realizedPnl percentage fees netPnl.

(** [generateOrderId]: the clock and the random suffix are inputs. *)
Definition generateOrderId (now : Z) (random : string) : string :=
  "order_" +:+ pretty now +:+ "_" +:+ random.

Definition validateOrder (order : TradingOrder) : list string :=
  (if TradingOrder.type order is None then ["Order type is required"] else []) ++
  (if TradingOrder.side order is None then ["Order side is required"] else []) ++
  (match TradingOrder.price order with
   | Some p => if leb p zero then ["Valid price is required"] else []
   | None => ["Valid price is required"]
   end) ++
  (match TradingOrder.quantity order with
   | Some q => if leb q zero then ["Valid quantity is required"] else []
   | None => ["Valid quantity is required"]
   end) ++
  (if str_falsy (TradingOrder.symbol order) then ["Symbol is required"] else []).

Definition getOrderPriority (order : TradingOrder) : Z :=
  match TradingOrder.type order with
  | Some entry => 1
  | Some market => 2
  | Some limit => 3
  | Some stop_loss => 4
  | Some take_profit => 5
  | None => 999
  end.

(** Modelled from the spec: [Array.prototype.sort] is the runtime's, not
    this package's; the design document takes the sort to be stable.  An
    element moves in front of another one exactly when the comparator,
    called on the two, answers a negative number, and [NaN] counts as [0].
    It is written as a stable insertion sort, which is what every stable
    sort computes when the comparator is consistent. *)
Module JsArray.
Section Sort.
Context {A : Type} (compareFn : A -> A -> num).

Definition before (x y : A) : bool := ltb (compareFn x y) zero.

Fixpoint insert (x : A) (l : list A) : list A :=
  match l with
  | [] => [x]
  | y :: l' => if before y x then y :: insert x l' else x :: y :: l'
  end.

Fixpoint sort (l : list A) : list A :=
  match l with
  | [] => []
  | x :: l' => insert x (sort l')
  end.
End Sort.

(** [Array.prototype.join]. *)
Fixpoint join (sep : string) (l : list string) : string :=
  match l with
  | [] => ""
  | [s] => s
  | s :: l' => s +:+ sep +:+ join sep l'
  end.
End JsArray.

Definition compareOrders (a b : TradingOrder) : num :=
  let priorityDiff := (getOrderPriority a - getOrderPriority b)%Z in
  if decide (priorityDiff = 0%Z)
  then (to_num (TradingOrder.price a) - to_num (TradingOrder.price b))%num
  else of_Z priorityDiff.

Definition sortOrders (orders : list TradingOrder) : list TradingOrder :=
  JsArray.sort compareOrders orders.

Definition shouldShowCancelButton (order : TradingOrder) : bool :=
  match TradingOrder.status order with
  | pending | partially_filled => true
  | _ => false
  end.

Definition isOrderDraggable (order : TradingOrder) : bool :=
  if decide (TradingOrder.status order = pending) then true else false.

(** ** [orders/themes.ts] *)

(** [{ ...defaultOrderStyle, lineColor, textColor, lineStyle }], with the
    background of [defaultOrderStyle] unless the literal gives its own. *)
Definition defaultBackground : string := "rgba(0, 0, 0, 0.8)".

Definition themed (color : string) (ls : LineStyle) (background : string) : OrderStyle :=
  OrderStyle.mk color color (Some background) (Some (of_Z 1)) (Some ls)
    (Some (of_Z 12)) (Some true) (Some true).

Definition sideTable (e l sl tp m : OrderStyle) : SideTheme :=
  {[ "entry" := e; "limit" := l; "stopLoss" := sl; "takeProfit" := tp; "market" := m ]}.

Definition lightTheme : OrderTheme :=
  OrderTheme.mk
    (sideTable (themed "#1976d2" solid defaultBackground)
               (themed "#ff9800" dashed defaultBackground)
               (themed "#f44336" solid defaultBackground)
               (themed "#4caf50" solid defaultBackground)
               (themed "#9c27b0" solid defaultBackground))
    (sideTable (themed "#d32f2f" solid defaultBackground)
               (themed "#f57c00" dashed defaultBackground)
               (themed "#f44336" solid defaultBackground)
               (themed "#4caf50" solid defaultBackground)
               (themed "#9c27b0" solid defaultBackground)).

Definition darkTheme : OrderTheme :=
  OrderTheme.mk
    (sideTable (themed "#42a5f5" solid "rgba(66, 165, 245, 0.1)")
               (themed "#ffb74d" dashed "rgba(255, 183, 77, 0.1)")
               (themed "#ef5350" solid "rgba(239, 83, 80, 0.1)")
               (themed "#66bb6a" solid "rgba(102, 187, 106, 0.1)")
               (themed "#ab47bc" solid "rgba(171, 71, 188, 0.1)"))
    (sideTable (themed "#ef5350" solid "rgba(239, 83, 80, 0.1)")
               (themed "#ff8a65" dashed "rgba(255, 138, 101, 0.1)")
               (themed "#ef5350" solid "rgba(239, 83, 80, 0.1)")
               (themed "#66bb6a" solid "rgba(102, 187, 106, 0.1)")
               (themed "#ab47bc" solid "rgba(171, 71, 188, 0.1)")).

Definition defaultTheme : OrderTheme := darkTheme.

(** The property name that [sideTheme[type]] reads. *)
Definition type_key (type : option OrderType) : string :=
  match type with Some t => type_name t | None => "undefined" end.

Definition side_of (theme : OrderTheme) (s : OrderSide) : SideTheme :=
  match s with buy => OrderTheme.buy theme | sell => OrderTheme.sell theme end.

(** [getOrderStyle]: reading a key of [theme[undefined]] throws. *)
Definition getOrderStyle (theme : OrderTheme) (side : option OrderSide)
    (type : option OrderType) : exn + option OrderStyle :=
  match side with
  | None => inl TypeError
  | Some s =>
      let sideTheme := side_of theme s in
      inr (match sideTheme !! type_key type with
           | Some style => Some style
           | None => sideTheme !! "entry"
           end)
  end.

(** [{ ...a, ...b }] on objects: the keys of [b] win. *)
Definition spread (a : SideTheme) (b : option SideTheme) : SideTheme :=
  match b with Some b => b ∪ a | None => a end.

Definition mergeThemes (baseTheme : OrderTheme) (customTheme : PartialTheme) : OrderTheme :=
  OrderTheme.mk
    (spread (OrderTheme.buy baseTheme) (PartialTheme.buy customTheme))
    (spread (OrderTheme.sell baseTheme) (PartialTheme.sell customTheme)).

(** The style fields of an entry, by name, each present or absent. *)
Inductive StyleField :=
| f_lineColor | f_textColor | f_backgroundColor | f_lineWidth
| f_lineStyle | f_fontSize | f_showCancelButton | f_draggable.

Definition field_value (f : StyleField) (st : OrderStyle) : option JsValue :=
  match f with
  | f_lineColor => Some (JString (OrderStyle.lineColor st))
  | f_textColor => Some (JString (OrderStyle.textColor st))
  | f_backgroundColor => JString <$> OrderStyle.backgroundColor st
  | f_lineWidth => JNumber <$> OrderStyle.lineWidth st
  | f_lineStyle =>
      (fun l => JString match l with solid => "solid" | dashed => "dashed" | dotted => "dotted" end)
        <$> OrderStyle.lineStyle st
  | f_fontSize => JNumber <$> OrderStyle.fontSize st
  | f_showCancelButton => JBool <$> OrderStyle.showCancelButton st
  | f_draggable => JBool <$> OrderStyle.draggable st
  end.

(** [theme[side][type][field]], [None] when the entry or the field is
    missing. *)
Definition style_field (theme : OrderTheme) (s : OrderSide) (key : string)
    (f : StyleField) : option JsValue :=
  side_of theme s !! key ≫= field_value f.

Definition partial_side (p : PartialTheme) (s : OrderSide) : option SideTheme :=
  match s with buy => PartialTheme.buy p | sell => PartialTheme.sell p end.

Definition partial_entry (p : PartialTheme) (s : OrderSide) (key : string) : option OrderStyle :=
  partial_side p s ≫= (.!! key).

Definition partial_field (p : PartialTheme) (s : OrderSide) (key : string)
    (f : StyleField) : option JsValue :=
  partial_entry p s key ≫= field_value f.

(** ** [Map<string, V>]

    A JavaScript [Map] keeps its entries in insertion order: [set] on a key
    that is present overwrites the value where it stands, [set] on a new key
    appends, and the iterators follow that order. *)
Module JsMap.
Section Map.
Context {V : Type}.

Definition t : Type := list (string * V).

Definition empty : t := [].

Fixpoint get (k : string) (m : t) : option V :=
  match m with
  | [] => None
  | (k', v) :: m' => if decide (k' = k) then Some v else get k m'
  end.

Fixpoint set (k : string) (v : V) (m : t) : t :=
  match m with
  | [] => [(k, v)]
  | (k', v') :: m' =>
      if decide (k' = k) then (k, v) :: m' else (k', v') :: set k v m'
  end.

Fixpoint delete (k : string) (m : t) : t :=
  match m with
  | [] => []
  | (k', v') :: m' =>
      if decide (k' = k) then m' else (k', v') :: delete k m'
  end.

Definition keys (m : t) : list string := map fst m.
Definition values (m : t) : list V := map snd m.
Definition size (m : t) : nat := length m.

(** What the constructor and the three operations maintain. *)
Definition wf (m : t) : Prop := NoDup (keys m).
End Map.
Arguments t : clear implicits.
End JsMap.

(** ** The host chart *)

(** Modelled from the spec: the chart is the host rendering surface, whose
    code is the charting library's and not this package's; the design
    document gives it three capabilities, create-visual-primitive (which
    answers a handle, or nothing when the host cannot create it),
    overwrite-visual-primitive and remove-visual-primitive.  A chart is
    known here by the answers it will give to its successive creation
    requests. *)
Module Chart.
Record t := mk {
  answer : nat -> option string;
  created : nat
}.

(** [chart.createOverlay(...)]: the answer of the host, and the chart
    after the request. *)
Definition createOverlay (c : t) : option string * t :=
  (answer c (created c), mk (answer c) (S (created c))).
End Chart.
Abbreviation Chart := Chart.t.

(** What the manager does to the outside: calls to the chart, calls to the
    handlers of the subscribers, lines on the console. *)
Inductive Effect :=
| chart_createOverlay (name : string) (value : option num) (timestamp : Z)
    (extendData : OrderOverlayData)
| chart_overrideOverlay (id : string) (value : option num) (timestamp : Z)
    (extendData : OrderOverlayData)
| chart_removeOverlay (id : string)
| call_onOrderEvent (subscriber : nat) (orderId : string) (event : OrderEvent)
    (data : TradingOrder)
| call_onPriceChange (subscriber : nat) (orderId : string) (newPrice : num)
    (oldPrice : option num)
| call_onCancel (subscriber : nat) (orderId : string)
| call_onOrderClick (subscriber : nat) (orderId : string)
| console_log_dragEnd (orderId : string) (finalPrice : option num).

(** An effect, with the two tables as they stand when it happens: this is
    what the callee can observe of the manager. *)
Record Observed := observed {
  seen_orders : JsMap.t TradingOrder;
  seen_overlayIds : JsMap.t string;
  effect : Effect
}.

(** [Partial<TradingOrder>], the argument of [updateOrder]: [None] is a key
    that is left out. *)
Module OrderUpdates.
Record t := mk {
  id : option string;
  type : option (option OrderType);
  side : option (option OrderSide);
  price : option (option num);
  quantity : option (option num);
  symbol : option (option string);
  status : option OrderStatus;
  timestamp : option Z;
  text : option (option string);
  customData : option (option JsValue);
  entryPrice : option (option num);
  stopLoss : option (option num);
  takeProfit : option (option num);
  pnl : option (option num);
  unrealizedPnl : option (option num);
  fees : option (option num);
  fillPrice : option (option num);
  fillQuantity : option (option num)
}.
Definition none : t :=
  mk None None None None None None None None None None None None None None
     None None None None.
End OrderUpdates.
Abbreviation OrderUpdates := OrderUpdates.t.

(** [{ ...order, ...updates }]. *)
Definition apply_updates (o : TradingOrder) (u : OrderUpdates) : TradingOrder :=
  TradingOrder.mk
    (default (TradingOrder.id o) (OrderUpdates.id u))
    (default (TradingOrder.type o) (OrderUpdates.type u))
    (default (TradingOrder.side o) (OrderUpdates.side u))
    (default (TradingOrder.price o) (OrderUpdates.price u))
    (default (TradingOrder.quantity o) (OrderUpdates.quantity u))
    (default (TradingOrder.symbol o) (OrderUpdates.symbol u))
    (default (TradingOrder.status o) (OrderUpdates.status u))
    (default (TradingOrder.timestamp o) (OrderUpdates.timestamp u))
    (default (TradingOrder.text o) (OrderUpdates.text u))
    (default (TradingOrder.customData o) (OrderUpdates.customData u))
    (default (TradingOrder.entryPrice o) (OrderUpdates.entryPrice u))
    (default (TradingOrder.stopLoss o) (OrderUpdates.stopLoss u))
    (default (TradingOrder.takeProfit o) (OrderUpdates.takeProfit u))
    (default (TradingOrder.pnl o) (OrderUpdates.pnl u))
    (default (TradingOrder.unrealizedPnl o) (OrderUpdates.unrealizedPnl u))
    (default (TradingOrder.fees o) (OrderUpdates.fees u))
    (default (TradingOrder.fillPrice o) (OrderUpdates.fillPrice u))
    (default (TradingOrder.fillQuantity o) (OrderUpdates.fillQuantity u)).

(** [order.price = newPrice]. *)
Definition with_price (o : TradingOrder) (p : option num) : TradingOrder :=
  apply_updates o
    (OrderUpdates.mk None None None (Some p) None None None None None None
       None None None None None None None None).

(** The clock and the random source, as [addOrder] reads them. *)
Module Env.
Record t := mk {
  idClock : Z;
  idRandom : string;
  clock : Z
}.
End Env.
Abbreviation Env := Env.t.

(** ** [OrderManagerImpl] *)

Module OrderManagerImpl.

Record t := mk {
  orders : JsMap.t TradingOrder;
  overlayIds : JsMap.t string;
  callbacks : list OrderCallback;
  theme : OrderTheme;
  chart : option Chart;
  currentPrice : num
}.

(** [new OrderManagerImpl(chart)]. *)
Definition new (chart : option Chart) : t :=
  mk JsMap.empty JsMap.empty [] defaultTheme chart zero.

(** A method runs on the manager and ends with a value or an exception,
    the manager as it has become, and the effects in the order they
    happened.  An exception does not undo what was done before it. *)
Definition M (A : Type) : Type := t -> (exn + A) * t * list Observed.

Definition ret {A} (a : A) : M A := fun this => (inr a, this, []).

Definition bind {A B} (m : M A) (f : A -> M B) : M B :=
  fun this =>
    match m this with
    | (inl e, this1, log1) => (inl e, this1, log1)
    | (inr a, this1, log1) =>
        let '(r, this2, log2) := f a this1 in (r, this2, log1 ++ log2)
    end.

Definition throw {A} (e : exn) : M A := fun this => (inl e, this, []).
Definition read : M t := fun this => (inr this, this, []).
Definition write (f : t -> t) : M unit := fun this => (inr tt, f this, []).
Definition emit (e : Effect) : M unit :=
  fun this => (inr tt, this, [observed (orders this) (overlayIds this) e]).
Definition lift {A} (r : exn + A) : M A :=
  match r with inl e => throw e | inr a => ret a end.

Notation "x <- m ;; k" := (bind m (fun x => k))
  (at level 100, m at next level, right associativity).
Notation "m ;;; k" := (bind m (fun _ => k))
  (at level 100, right associativity).

(** [list.forEach(f)]. *)
Fixpoint forEach {A} (l : list A) (f : A -> M unit) : M unit :=
  match l with
  | [] => ret tt
  | x :: l' => f x ;;; forEach l' f
  end.

Definition when (b : bool) (m : M unit) : M unit := if b then m else ret tt.

Definition set_orders (f : JsMap.t TradingOrder -> JsMap.t TradingOrder) (this : t) : t :=
  mk (f (orders this)) (overlayIds this) (callbacks this) (theme this) (chart this)
     (currentPrice this).
Definition set_overlayIds (f : JsMap.t string -> JsMap.t string) (this : t) : t :=
  mk (orders this) (f (overlayIds this)) (callbacks this) (theme this) (chart this)
     (currentPrice this).
Definition set_callbacks (f : list OrderCallback -> list OrderCallback) (this : t) : t :=
  mk (orders this) (overlayIds this) (f (callbacks this)) (theme this) (chart this)
     (currentPrice this).
Definition set_theme (th : OrderTheme) (this : t) : t :=
  mk (orders this) (overlayIds this) (callbacks this) th (chart this) (currentPrice this).
Definition set_chart (c : option Chart) (this : t) : t :=
  mk (orders this) (overlayIds this) (callbacks this) (theme this) c (currentPrice this).
Definition set_currentPrice (p : num) (this : t) : t :=
  mk (orders this) (overlayIds this) (callbacks this) (theme this) (chart this) p.

(** [notifyCallbacks]. *)
Definition notifyCallbacks (orderId : string) (event : OrderEvent) (order : TradingOrder)
    : M unit :=
  this <- read ;;
  forEach (callbacks this) (fun callback =>
    when (OrderCallback.onOrderEvent callback)
      (emit (call_onOrderEvent (OrderCallback.ref callback) orderId event order))).

(** The payload of an overlay: [{ ...order, currentPrice, pnlResult, theme }]. *)
Definition overlayData (this : t) (order : TradingOrder) (style : option OrderStyle)
    : OrderOverlayData :=
  OrderOverlayData.mk order (Some (currentPrice this))
    (Some (calculatePnL order (currentPrice this))) style.

(** [overlayId && typeof overlayId === 'string']. *)
Definition usable_id (overlayId : option string) : option string :=
  match overlayId with
  | Some s => if decide (s = "") then None else Some s
  | None => None
  end.

(** [createOrderOverlay]. *)
Definition createOrderOverlay (order : TradingOrder) : M unit :=
  this <- read ;;
  match chart this with
  | None => ret tt
  | Some c =>
      orderStyle <- lift (getOrderStyle (theme this) (TradingOrder.side order)
                            (TradingOrder.type order)) ;;
      emit (chart_createOverlay "trading_order" (TradingOrder.price order)
              (TradingOrder.timestamp order) (overlayData this order orderStyle)) ;;;
      let '(overlayId, c') := Chart.createOverlay c in
      write (set_chart (Some c')) ;;;
      match usable_id overlayId with
      | Some overlayId =>
          write (set_overlayIds (JsMap.set (TradingOrder.id order) overlayId))
      | None => ret tt
      end
  end.

(** [updateOrderOverlay]. *)
Definition updateOrderOverlay (order : TradingOrder) : M unit :=
  this <- read ;;
  match chart this with
  | None => ret tt
  | Some _ =>
      match usable_id (JsMap.get (TradingOrder.id order) (overlayIds this)) with
      | None => ret tt
      | Some overlayId =>
          orderStyle <- lift (getOrderStyle (theme this) (TradingOrder.side order)
                                (TradingOrder.type order)) ;;
          emit (chart_overrideOverlay overlayId (TradingOrder.price order)
                  (TradingOrder.timestamp order) (overlayData this order orderStyle))
      end
  end.

(** [refreshAllOrders]. *)
Definition refreshAllOrders : M unit :=
  this <- read ;;
  forEach (JsMap.values (orders this)) updateOrderOverlay.

Definition setChart (c : option Chart) : M unit := write (set_chart c).

Definition updateCurrentPrice (price : num) : M unit :=
  write (set_currentPrice price) ;;; refreshAllOrders.

(** [orderOptions.id || generateOrderId()]. *)
Definition chooseId (env : Env) (id : option string) : string :=
  if str_falsy id then generateOrderId (Env.idClock env) (Env.idRandom env)
  else default "" id.

(** The order that [addOrder] builds from its options. *)
Definition buildOrder (env : Env) (orderOptions : CreateOrderOptions) : TradingOrder :=
  TradingOrder.mk
    (chooseId env (CreateOrderOptions.id orderOptions))
    (CreateOrderOptions.type orderOptions)
    (CreateOrderOptions.side orderOptions)
    (CreateOrderOptions.price orderOptions)
    (CreateOrderOptions.quantity orderOptions)
    (CreateOrderOptions.symbol orderOptions)
    (default pending (CreateOrderOptions.status orderOptions))
    (Env.clock env)
    (CreateOrderOptions.text orderOptions)
    (CreateOrderOptions.customData orderOptions)
    (CreateOrderOptions.entryPrice orderOptions)
    (CreateOrderOptions.stopLoss orderOptions)
    (CreateOrderOptions.takeProfit orderOptions)
    None None None None None.

(** [addOrder]. *)
Definition addOrder (env : Env) (orderOptions : CreateOrderOptions) : M string :=
  let order := buildOrder env orderOptions in
  let orderId := TradingOrder.id order in
  let errors := validateOrder order in
  match errors with
  | _ :: _ => throw (Error ("Invalid order: " +:+ JsArray.join ", " errors))
  | [] =>
      write (set_orders (JsMap.set orderId order)) ;;;
      createOrderOverlay order ;;;
      notifyCallbacks orderId ev_created order ;;;
      ret orderId
  end.

(** [updateOrder]. *)
Definition updateOrder (orderId : string) (updates : OrderUpdates) : M unit :=
  this <- read ;;
  match JsMap.get orderId (orders this) with
  | None => throw (Error ("Order " +:+ orderId +:+ " not found"))
  | Some order =>
      let updatedOrder := apply_updates order updates in
      write (set_orders (JsMap.set orderId updatedOrder)) ;;;
      updateOrderOverlay updatedOrder ;;;
      notifyCallbacks orderId ev_updated updatedOrder
  end.

(** [removeOrder]. *)
Definition removeOrder (orderId : string) : M unit :=
  this <- read ;;
  match JsMap.get orderId (orders this) with
  | None => ret tt
  | Some order =>
      match usable_id (JsMap.get orderId (overlayIds this)), chart this with
      | Some overlayId, Some _ => emit (chart_removeOverlay overlayId)
      | _, _ => ret tt
      end ;;;
      write (set_orders (JsMap.delete orderId)) ;;;
      write (set_overlayIds (JsMap.delete orderId)) ;;;
      notifyCallbacks orderId ev_cancelled order
  end.

Definition getOrder (orderId : string) (this : t) : option TradingOrder :=
  JsMap.get orderId (orders this).

Definition getAllOrders (this : t) : list TradingOrder :=
  sortOrders (JsMap.values (orders this)).

(** [setTheme]: [this.theme = { ...this.theme, ...theme }]. *)
Definition setTheme (partial : PartialTheme) : M unit :=
  this <- read ;;
  write (set_theme
           (OrderTheme.mk
              (default (OrderTheme.buy (theme this)) (PartialTheme.buy partial))
              (default (OrderTheme.sell (theme this)) (PartialTheme.sell partial)))) ;;;
  refreshAllOrders.

Definition addCallback (callback : OrderCallback) : M unit :=
  write (set_callbacks (fun l => l ++ [callback])).

(** [indexOf] then [splice]: the first registration of that very object
    goes. *)
Fixpoint remove_first (r : nat) (l : list OrderCallback) : list OrderCallback :=
  match l with
  | [] => []
  | c :: l' => if decide (OrderCallback.ref c = r) then l' else c :: remove_first r l'
  end.

Definition removeCallback (callback : OrderCallback) : M unit :=
  write (set_callbacks (remove_first (OrderCallback.ref callback))).

(** [handleOrderCancel]. *)
Definition handleOrderCancel (orderId : string) : M unit :=
  this <- read ;;
  match JsMap.get orderId (orders this) with
  | None => ret tt
  | Some _ =>
      forEach (callbacks this) (fun callback =>
        when (OrderCallback.onCancel callback)
          (emit (call_onCancel (OrderCallback.ref callback) orderId))) ;;;
      updateOrder orderId
        (OrderUpdates.mk None None None None None None (Some cancelled) None None
           None None None None None None None None None)
  end.

(** [handlePriceChange]. *)
Definition handlePriceChange (orderId : string) (newPrice : num) (oldPrice : option num)
    : M unit :=
  this <- read ;;
  match JsMap.get orderId (orders this) with
  | None => ret tt
  | Some order =>
      let order := with_price order (Some newPrice) in
      write (set_orders (JsMap.set orderId order)) ;;;
      forEach (callbacks this) (fun callback =>
        when (OrderCallback.onPriceChange callback)
          (emit (call_onPriceChange (OrderCallback.ref callback) orderId newPrice oldPrice))) ;;;
      notifyCallbacks orderId ev_dragged order
  end.

(** [handleOrderDragEnd]: one line on the console. *)
Definition handleOrderDragEnd (orderId : string) (finalPrice : option num) : M unit :=
  emit (console_log_dragEnd orderId finalPrice).

(** [handleOrderClick]. *)
Definition handleOrderClick (orderId : string) : M unit :=
  this <- read ;;
  forEach (callbacks this) (fun callback =>
    when (OrderCallback.onOrderClick callback)
      (emit (call_onOrderClick (OrderCallback.ref callback) orderId))).

(** [clearAllOrders]. *)
Definition clearAllOrders : M unit :=
  this <- read ;;
  forEach (JsMap.keys (orders this)) removeOrder.

Definition getOrdersByType (type : OrderType) (this : t) : list TradingOrder :=
  filter (fun order => TradingOrder.type order = Some type) (getAllOrders this).

Definition getOrdersByStatus (status : OrderStatus) (this : t) : list TradingOrder :=
  filter (fun order => TradingOrder.status order = status) (getAllOrders this).

Definition getOrdersBySymbol (symbol : string) (this : t) : list TradingOrder :=
  filter (fun order => TradingOrder.symbol order = Some symbol) (getAllOrders this).

(** The method [calculatePnL(orderId, currentPrice)], over the function of
    the same name of [utils.ts]. *)
Definition calculatePnL (orderId : string) (currentPrice : num) (this : t) : num :=
  match JsMap.get orderId (orders this) with
  | None => zero
  | Some order => PnLResult.netPnl (calculatePnL order currentPrice)
  end.

End OrderManagerImpl.

(** ** [orders/overlays/order-overlay.ts]

    The template of the [trading_order] overlay.  The chart calls its
    handlers with the overlay that the pointer is on; the module keeps a
    reference to the order manager, [null] until [setOrderManager] is
    called. *)
Module OrderOverlay.

(** The overlay object of the chart, as far as the handlers read it:
    the payload and the values of its points. *)
Record Overlay := mkOverlay {
  extendData : option OrderOverlayData;
  points : list (option num)
}.

(** A handler answers the chart with a boolean, and leaves the overlay
    and the manager behind. *)
Record Handled := handled {
  answer : exn + bool;
  overlay_after : Overlay;
  manager_after : option OrderManagerImpl.t;
  effects : list Observed
}.

(** [if (orderManager && orderManager.method) orderManager.method(...)]. *)
Definition call (m : OrderManagerImpl.M unit) (orderManager : option OrderManagerImpl.t)
    : (exn + unit) * option OrderManagerImpl.t * list Observed :=
  match orderManager with
  | None => (inr tt, None, [])
  | Some this => let '(r, this', log) := m this in (r, Some this', log)
  end.

Definition onPressedMoveStart (overlay : Overlay) : bool :=
  match extendData overlay with
  | None => false
  | Some orderData =>
      if isOrderDraggable (OrderOverlayData.order orderData) then true else false
  end.

(** [orderData.price = newPrice] on the payload. *)
Definition payload_with_price (d : OrderOverlayData) (p : num) : OrderOverlayData :=
  OrderOverlayData.mk (with_price (OrderOverlayData.order d) (Some p))
    (OrderOverlayData.currentPrice d) (OrderOverlayData.pnlResult d)
    (OrderOverlayData.theme d).

Definition onPressedMoving (overlay : Overlay) (orderManager : option OrderManagerImpl.t)
    : Handled :=
  match extendData overlay with
  | None => handled (inr false) overlay orderManager []
  | Some orderData =>
      let order := OrderOverlayData.order orderData in
      if isOrderDraggable order then
        match points overlay with
        | Some newPrice :: _ =>
            let oldPrice := TradingOrder.price order in
            let overlay' :=
              mkOverlay (Some (payload_with_price orderData newPrice)) (points overlay) in
            let '(r, mgr, log) :=
              call (OrderManagerImpl.handlePriceChange (TradingOrder.id order) newPrice oldPrice)
                   orderManager in
            handled (match r with inl e => inl e | inr _ => inr true end) overlay' mgr log
        | _ => handled (inr true) overlay orderManager []
        end
      else handled (inr false) overlay orderManager []
  end.

Definition onPressedMoveEnd (overlay : Overlay) (orderManager : option OrderManagerImpl.t)
    : Handled :=
  match extendData overlay with
  | None => handled (inr false) overlay orderManager []
  | Some orderData =>
      let order := OrderOverlayData.order orderData in
      let '(r, mgr, log) :=
        call (OrderManagerImpl.handleOrderDragEnd (TradingOrder.id order)
                (TradingOrder.price order))
             orderManager in
      handled (match r with inl e => inl e | inr _ => inr true end) overlay mgr log
  end.

Definition onClick (overlay : Overlay) (orderManager : option OrderManagerImpl.t)
    : Handled :=
  match extendData overlay with
  | None => handled (inr false) overlay orderManager []
  | Some orderData =>
      let '(r, mgr, log) :=
        call (OrderManagerImpl.handleOrderClick
                (TradingOrder.id (OrderOverlayData.order orderData)))
             orderManager in
      handled (match r with inl e => inl e | inr _ => inr true end) overlay mgr log
  end.

Definition onRightClick (overlay : Overlay) : bool :=
  match extendData overlay with None => false | Some _ => true end.

End OrderOverlay.

(** ** [JSON] *)

(** Modelled from the spec: [JSON.stringify] and [JSON.parse] are the
    runtime's, not this package's; the design document asks of them a flat
    JSON-compatible text that an import reads back.  They are written out
    here after the language standard, on strings of bytes: the serializer
    with the gap of two spaces that [exportOrders] asks for, the parser by
    recursive descent, with the length of the text as fuel. *)
Module JSON.

Definition text : Type := list ascii.

Definition code (c : ascii) : N := N_of_ascii c.

Definition is_ws (c : ascii) : bool :=
  match code c with
  | 32 | 9 | 10 | 13 => true
  | _ => false
  end%N.

Fixpoint skip_ws (s : text) : text :=
  match s with
  | c :: r => if is_ws c then skip_ws r else s
  | [] => []
  end.

Definition is_digit (c : ascii) : bool := (48 <=? code c)%N && (code c <=? 57)%N.
Definition digit_of (c : ascii) : N := (code c - 48)%N.
Definition digit_char (n : N) : ascii := ascii_of_N (48 + n).

(** [w] decimal digits of [n], the most significant first. *)
Fixpoint fixed (w : nat) (n : N) : text :=
  match w with
  | O => []
  | S w' => fixed w' (n / 10) ++ [digit_char (n mod 10)]
  end.

(** The digits at the head of [s]: their value, their number, the rest. *)
Fixpoint digits (acc : N) (count : nat) (s : text) : N * nat * text :=
  match s with
  | c :: r =>
      if is_digit c then digits (10 * acc + digit_of c) (S count) r
      else (acc, count, s)
  | [] => (acc, count, [])
  end.

(** The number of decimal digits of [n], at least one. *)
Fixpoint width_from (fuel : nat) (w : nat) (n : N) : nat :=
  match fuel with
  | O => w
  | S fuel' => if (n <? 10 ^ N.of_nat w)%N then w else width_from fuel' (S w) n
  end.

Definition width (n : N) : nat := width_from (N.to_nat (N.size n)) 1 n.

(** The least [k] such that the denominator divides [10 ^ k], when there
    is one. *)
Fixpoint places_from (fuel : nat) (k : nat) (den : N) : option nat :=
  if ((10 ^ N.of_nat k) mod den =? 0)%N then Some k
  else match fuel with
       | O => None
       | S fuel' => places_from fuel' (S k) den
       end.

Definition places (q : Q) : option nat :=
  places_from (N.to_nat (N.size (Npos (Qden q)))) 0 (Npos (Qden q)).

(** A finite number in decimal notation. *)
Definition number (q : Q) : option text :=
  match places q with
  | None => None
  | Some k =>
      let scale := (10 ^ N.of_nat k)%N in
      let m := (Z.abs_N (Qnum q) * (scale / Npos (Qden q)))%N in
      Some ((if (Qnum q <? 0)%Z then ["-"%char] else []) ++
            fixed (width (m / scale)) (m / scale) ++
            match k with
            | O => []
            | S _ => "."%char :: fixed k (m mod scale)
            end)
  end.

Definition rational (negative : bool) (m : N) (scale : N) : Q :=
  Qred (Qmake (if negative then - Z.of_N m else Z.of_N m) (N.succ_pos (N.pred scale))).

(** The four parts of a number: sign, integer, fraction, exponent. *)
Definition parse_sign (s : text) : bool * text :=
  match s with
  | "-"%char :: r => (true, r)
  | _ => (false, s)
  end.

Definition parse_int (s : text) : option (N * text) :=
  let '(i, ni, r) := digits 0 0 s in
  let leading_zero :=
    match s with
    | "0"%char :: _ => negb (Nat.eqb ni 1)
    | _ => false
    end in
  if Nat.eqb ni 0 || leading_zero then None else Some (i, r).

Definition parse_frac (s : text) : option (N * nat * text) :=
  match s with
  | "."%char :: r =>
      let '(f, nf, r') := digits 0 0 r in
      if Nat.eqb nf 0 then None else Some (f, nf, r')
  | _ => Some (0%N, O, s)
  end.

Definition is_e (c : ascii) : bool :=
  bool_decide (c = "e"%char) || bool_decide (c = "E"%char).

Definition parse_exp (s : text) : option (N * N * text) :=
  match s with
  | c :: r =>
      if is_e c then
        let '(down, r1) :=
          match r with
          | "-"%char :: r' => (true, r')
          | "+"%char :: r' => (false, r')
          | _ => (false, r)
          end in
        let '(e, ne, r2) := digits 0 0 r1 in
        if Nat.eqb ne 0 then None
        else Some (if down then (1, 10 ^ e, r2) else (10 ^ e, 1, r2))%N
      else Some (1, 1, s)%N
  | [] => Some (1, 1, s)%N
  end.

Definition parse_number (s : text) : option (num * text) :=
  let '(negative, s1) := parse_sign s in
  '(i, s2) ← parse_int s1;
  '(f, nf, s3) ← parse_frac s2;
  '(up, down, rest) ← parse_exp s3;
  let scale := (10 ^ N.of_nat nf)%N in
  Some (Fin (rational negative ((i * scale + f) * up) (scale * down)), rest).

(** What may stand behind a number. *)
Definition ends_number (rest : text) : Prop :=
  match rest with
  | c :: _ => is_digit c = false /\ c <> "."%char /\ is_e c = false
  | [] => True
  end.


(** *** Strings *)

Definition hex_char (n : N) : ascii :=
  if (n <? 10)%N then ascii_of_N (48 + n) else ascii_of_N (87 + n).

Definition hex_of (c : ascii) : option N :=
  let n := code c in
  if (48 <=? n)%N && (n <=? 57)%N then Some (n - 48)%N
  else if (97 <=? n)%N && (n <=? 102)%N then Some (n - 87)%N
  else if (65 <=? n)%N && (n <=? 70)%N then Some (n - 55)%N
  else None.

(** QuoteJSONString, one character: the quote, the backslash and the
    control characters are escaped. *)
Definition dquote : ascii := ascii_of_N 34.
Definition backslash : ascii := ascii_of_N 92.

Definition escape_char (c : ascii) : text :=
  match code c with
  | 34 => [backslash; dquote]
  | 92 => [backslash; backslash]
  | 8 => [backslash; "b"]
  | 12 => [backslash; "f"]
  | 10 => [backslash; "n"]
  | 13 => [backslash; "r"]
  | 9 => [backslash; "t"]
  | n =>
      if (n <? 32)%N
      then [backslash; "u"; "0"; "0"; hex_char (n / 16); hex_char (n mod 16)]
      else [c]
  end%N%char.

Definition quote (s : string) : text :=
  dquote :: flat_map escape_char (list_ascii_of_string s) ++ [dquote].

Definition push {A} (c : A) (o : option (list A * text)) : option (list A * text) :=
  match o with
  | Some (cs, rest) => Some (c :: cs, rest)
  | None => None
  end.

(** The characters of a string literal, after its opening quote. *)
Fixpoint parse_string (s : text) : option (list ascii * text) :=
  match s with
  | [] => None
  | c :: r =>
      match code c with
      | 34 => Some ([], r)
      | 92 =>
          match r with
          | [] => None
          | e :: r' =>
              match code e with
              | 34 | 92 | 47 => push e (parse_string r')
              | 98 => push (ascii_of_N 8) (parse_string r')
              | 102 => push (ascii_of_N 12) (parse_string r')
              | 110 => push (ascii_of_N 10) (parse_string r')
              | 114 => push (ascii_of_N 13) (parse_string r')
              | 116 => push (ascii_of_N 9) (parse_string r')
              | 117 =>
                  match r' with
                  | h1 :: h2 :: h3 :: h4 :: r'' =>
                      match hex_of h1, hex_of h2, hex_of h3, hex_of h4 with
                      | Some a, Some b, Some c, Some d =>
                          if (a =? 0)%N && (b =? 0)%N
                          then push (ascii_of_N (16 * c + d)) (parse_string r'')
                          else None
                      | _, _, _, _ => None
                      end
                  | _ => None
                  end
              | _ => None
              end
          end
      | n => if (n <? 32)%N then None else push c (parse_string r)
      end
  end%N.

(** *** Values *)

Definition null_text : text := ["n"; "u"; "l"; "l"]%char.

(** A line break and the indentation of depth [ind], two spaces a level. *)
Definition nl (ind : nat) : text := "010"%char :: repeat " "%char (2 * ind).

Definition bracket (opening closing : ascii) (ind : nat) (members : list text) : text :=
  match members with
  | [] => [opening; closing]
  | m :: ms =>
      opening :: nl (S ind) ++ m ++
      flat_map (fun t => ","%char :: nl (S ind) ++ t) ms ++ nl ind ++ [closing]
  end.

Definition member (key : string) (t : text) : text :=
  quote key ++ [":"; " "]%char ++ t.

(** SerializeJSONProperty with a gap of two spaces: [None] is
    [undefined], which an object leaves out and an array writes as
    [null]; a number that is not finite is written as [null]. *)
Fixpoint serialize (ind : nat) (v : JsValue) : option text :=
  match v with
  | JUndefined => None
  | JNull => Some null_text
  | JBool true => Some ["t"; "r"; "u"; "e"]%char
  | JBool false => Some ["f"; "a"; "l"; "s"; "e"]%char
  | JNumber (Fin q) => Some (default null_text (number q))
  | JNumber _ => Some null_text
  | JString s => Some (quote s)
  | JArray items =>
      Some (bracket "[" "]" ind
              ((fix each (l : list JsValue) : list text :=
                  match l with
                  | [] => []
                  | x :: l' => default null_text (serialize (S ind) x) :: each l'
                  end) items))
  | JObject props =>
      Some (bracket "{" "}" ind
              ((fix each (l : list (string * JsValue)) : list text :=
                  match l with
                  | [] => []
                  | (k, x) :: l' =>
                      match serialize (S ind) x with
                      | Some t => member k t :: each l'
                      | None => each l'
                      end
                  end) props))
  end.

Definition expect (word : text) (v : JsValue) (s : text) : option (JsValue * text) :=
  if bool_decide (take (length word) s = word) then Some (v, drop (length word) s) else None.

(** An object from its members in the order of the text: a key that
    comes again overwrites. *)
Definition object_of (members : list (string * JsValue)) : JsValue :=
  JObject (fold_left (fun acc m => JsMap.set (fst m) (snd m) acc) members []).

Fixpoint parse_value (fuel : nat) (s : text) : option (JsValue * text) :=
  match fuel with
  | O => None
  | S fuel' =>
      match skip_ws s with
      | [] => None
      | c :: r =>
          match code c with
          | 110 => expect ["u"; "l"; "l"]%char JNull r
          | 116 => expect ["r"; "u"; "e"]%char (JBool true) r
          | 102 => expect ["a"; "l"; "s"; "e"]%char (JBool false) r
          | 34 =>
              '(cs, r') ← parse_string r;
              Some (JString (string_of_list_ascii cs), r')
          | 91 =>
              match skip_ws r with
              | c' :: r' =>
                  if (code c' =? 93)%N then Some (JArray [], r')
                  else '(items, r'') ← parse_elements fuel' r; Some (JArray items, r'')
              | [] => None
              end
          | 123 =>
              match skip_ws r with
              | c' :: r' =>
                  if (code c' =? 125)%N then Some (JObject [], r')
                  else '(members, r'') ← parse_members fuel' r; Some (object_of members, r'')
              | [] => None
              end
          | _ => '(n, r') ← parse_number (c :: r); Some (JNumber n, r')
          end
      end
  end%N
with parse_elements (fuel : nat) (s : text) : option (list JsValue * text) :=
  match fuel with
  | O => None
  | S fuel' =>
      '(v, r) ← parse_value fuel' s;
      match skip_ws r with
      | c :: r' =>
          match code c with
          | 44 => '(vs, r'') ← parse_elements fuel' r'; Some (v :: vs, r'')
          | 93 => Some ([v], r')
          | _ => None
          end
      | [] => None
      end
  end%N
with parse_members (fuel : nat) (s : text) : option (list (string * JsValue) * text) :=
  match fuel with
  | O => None
  | S fuel' =>
      match skip_ws s with
      | c :: r =>
          if (code c =? 34)%N then
            '(cs, r1) ← parse_string r;
            match skip_ws r1 with
            | c1 :: r2 =>
                if (code c1 =? 58)%N then
                  '(v, r3) ← parse_value fuel' r2;
                  match skip_ws r3 with
                  | c3 :: r4 =>
                      match code c3 with
                      | 44 =>
                          '(ms, r5) ← parse_members fuel' r4;
                          Some ((string_of_list_ascii cs, v) :: ms, r5)
                      | 125 => Some ([(string_of_list_ascii cs, v)], r4)
                      | _ => None
                      end
                  | [] => None
                  end
                else None
            | [] => None
            end
          else None
      | [] => None
      end
  end%N.

(** [JSON.stringify(value, null, 2)]: [None] is [undefined]. *)
Definition stringify (value : JsValue) : option string :=
  string_of_list_ascii <$> serialize 0 value.

(** [JSON.parse(text)]: [None] is a [SyntaxError]. *)
Definition parse (s : string) : option JsValue :=
  let t := list_ascii_of_string s in
  match parse_value (S (length t)) t with
  | Some (v, r) => match skip_ws r with [] => Some v | _ => None end
  | None => None
  end.


(** *** What a round trip keeps *)

(** The value that comes back from the text of [v]: properties that are
    [undefined] are gone, [undefined] in an array and numbers that are not
    finite have become [null], finite numbers are in lowest terms. *)
Fixpoint normalize (v : JsValue) : JsValue :=
  match v with
  | JNumber (Fin q) => JNumber (Fin (Qred q))
  | JNumber _ => JNull
  | JArray items =>
      JArray ((fix each (l : list JsValue) : list JsValue :=
                 match l with
                 | [] => []
                 | x :: l' =>
                     match x with
                     | JUndefined => JNull
                     | _ => normalize x
                     end :: each l'
                 end) items)
  | JObject props =>
      JObject ((fix each (l : list (string * JsValue)) : list (string * JsValue) :=
                  match l with
                  | [] => []
                  | (k, x) :: l' =>
                      match x with
                      | JUndefined => each l'
                      | _ => (k, normalize x) :: each l'
                      end
                  end) props)
  | _ => v
  end.

(** The values of the language: a finite number has a finite decimal
    expansion, an object holds each key once. *)
Fixpoint representable (v : JsValue) : Prop :=
  match v with
  | JNumber (Fin q) => is_Some (places q)
  | JArray items =>
      (fix each (l : list JsValue) : Prop :=
         match l with
         | [] => True
         | x :: l' => representable x /\ each l'
         end) items
  | JObject props =>
      NoDup (map fst props) /\
      (fix each (l : list (string * JsValue)) : Prop :=
         match l with
         | [] => True
         | (_, x) :: l' => representable x /\ each l'
         end) props
  | _ => True
  end.

(** The fuel that parsing a value takes. *)
Fixpoint weight (v : JsValue) : nat :=
  match v with
  | JArray items =>
      S ((fix each (l : list JsValue) : nat :=
            match l with
            | [] => O
            | x :: l' => S (weight x + each l')
            end) items)
  | JObject props =>
      S ((fix each (l : list (string * JsValue)) : nat :=
            match l with
            | [] => O
            | (_, x) :: l' => S (weight x + each l')
            end) props)
  | _ => 1
  end.

End JSON.

(** ** [JSON.stringify] without a gap *)

(** Modelled from the spec: [JSON.stringify(value)] is the runtime's.
    Without a gap, as [saveOrders] calls it, the language standard puts
    a comma between the members and a colon between a key and its value,
    and no white space; the leaves are written as with a gap. *)
Module JSONCompact.
Import JSON.

Definition enclose (opening closing : ascii) (members : list text) : text :=
  match members with
  | [] => [opening; closing]
  | m :: ms => opening :: m ++ flat_map (fun t => ","%char :: t) ms ++ [closing]
  end.

Definition member (key : string) (t : text) : text :=
  quote key ++ ":"%char :: t.

Fixpoint serialize (v : JsValue) : option text :=
  match v with
  | JUndefined => None
  | JNull => Some null_text
  | JBool true => Some ["t"; "r"; "u"; "e"]%char
  | JBool false => Some ["f"; "a"; "l"; "s"; "e"]%char
  | JNumber (Fin q) => Some (default null_text (number q))
  | JNumber _ => Some null_text
  | JString s => Some (quote s)
  | JArray items =>
      Some (enclose "[" "]"
              ((fix each (l : list JsValue) : list text :=
                  match l with
                  | [] => []
                  | x :: l' => default null_text (serialize x) :: each l'
                  end) items))
  | JObject props =>
      Some (enclose "{" "}"
              ((fix each (l : list (string * JsValue)) : list text :=
                  match l with
                  | [] => []
                  | (k, x) :: l' =>
                      match serialize x with
                      | Some t => member k t :: each l'
                      | None => each l'
                      end
                  end) props))
  end.

(** [JSON.stringify(value)]: [None] is [undefined]. *)
Definition stringify (value : JsValue) : option string :=
  string_of_list_ascii <$> serialize value.

End JSONCompact.

(** ** [localStorage] *)

(** What a [catch] can hold here, and what goes to the console. *)
Inductive Thrown :=
| QuotaExceededError
| SyntaxError.

Inductive Console :=
| warn (message : string) (error : Thrown).

(** Modelled from the spec: [localStorage] is the browser's.  After the
    Web Storage standard it is a list of pairs of strings in which a key
    stands once: [setItem] on a new key appends and on a known key
    replaces the value where it stands, [key(i)] is the key at index [i],
    [getItem] answers [null] for a key that is not there.  Of the methods
    only [setItem] throws, when the browser refuses the write; what it
    refuses, given what it holds, is a parameter of the store. *)
Module Storage.

Record t := mk {
  items : JsMap.t string;
  refuses : JsMap.t string -> string -> string -> bool
}.

(** [None] is [null]. *)
Definition getItem (key : string) (s : t) : option string :=
  JsMap.get key (items s).

Definition setItem (key value : string) (s : t) : Thrown + t :=
  if refuses s (items s) key value then inl QuotaExceededError
  else inr (mk (JsMap.set key value (items s)) (refuses s)).

Definition removeItem (key : string) (s : t) : t :=
  mk (JsMap.delete key (items s)) (refuses s).

Definition length (s : t) : nat := JsMap.size (items s).

Definition key (index : nat) (s : t) : option string :=
  JsMap.keys (items s) !! index.

End Storage.

(** ** [orders/persistence.ts] *)

(** A [TradingOrder] as the object that it is: a property whose field is
    not set holds [undefined]. *)
Definition property {A} (f : A -> JsValue) (field : option A) : JsValue :=
  match field with Some a => f a | None => JUndefined end.

Definition objectOf (o : TradingOrder) : JsValue :=
  JObject
    [("id", JString (TradingOrder.id o));
     ("type", property (fun t => JString (type_name t)) (TradingOrder.type o));
     ("side", property (fun s => JString (side_name s)) (TradingOrder.side o));
     ("price", property JNumber (TradingOrder.price o));
     ("quantity", property JNumber (TradingOrder.quantity o));
     ("symbol", property JString (TradingOrder.symbol o));
     ("status", JString (status_name (TradingOrder.status o)));
     ("timestamp", JNumber (of_Z (TradingOrder.timestamp o)));
     ("text", property JString (TradingOrder.text o));
     ("entryPrice", property JNumber (TradingOrder.entryPrice o));
     ("stopLoss", property JNumber (TradingOrder.stopLoss o));
     ("takeProfit", property JNumber (TradingOrder.takeProfit o));
     ("customData", property (fun d => d) (TradingOrder.customData o));
     ("pnl", property JNumber (TradingOrder.pnl o));
     ("unrealizedPnl", property JNumber (TradingOrder.unrealizedPnl o));
     ("fees", property JNumber (TradingOrder.fees o));
     ("fillPrice", property JNumber (TradingOrder.fillPrice o));
     ("fillQuantity", property JNumber (TradingOrder.fillQuantity o))].

(** Reading an object as a [TradingOrder], field by field. *)
Definition as_string (v : JsValue) : option string :=
  match v with JString s => Some s | _ => None end.

Definition as_number (v : JsValue) : option num :=
  match v with JNumber n => Some n | _ => None end.

Definition as_integer (v : JsValue) : option Z :=
  match v with
  | JNumber (Fin q) => if decide (Qden q = 1%positive) then Some (Qnum q) else None
  | _ => None
  end.

Definition as_type (v : JsValue) : option OrderType :=
  s ← as_string v;
  List.find (fun t => bool_decide (type_name t = s)) [market; limit; stop_loss; take_profit; entry].

Definition as_side (v : JsValue) : option OrderSide :=
  s ← as_string v;
  List.find (fun t => bool_decide (side_name t = s)) [buy; sell].

Definition as_status (v : JsValue) : option OrderStatus :=
  s ← as_string v;
  List.find (fun t => bool_decide (status_name t = s)) [pending; filled; cancelled; partially_filled].

(** A field that may be missing: no property, or [undefined]. *)
Definition optional {A} (read : JsValue -> option A) (p : option JsValue) : option (option A) :=
  match p with
  | None | Some JUndefined => Some None
  | Some v => Some <$> read v
  end.

Definition required {A} (read : JsValue -> option A) (p : option JsValue) : option A :=
  p ≫= read.

Definition orderOf (v : JsValue) : option TradingOrder :=
  match v with
  | JObject props =>
      let prop key := JsMap.get key props in
      id ← required as_string (prop "id");
      type ← optional as_type (prop "type");
      side ← optional as_side (prop "side");
      price ← optional as_number (prop "price");
      quantity ← optional as_number (prop "quantity");
      symbol ← optional as_string (prop "symbol");
      status ← required as_status (prop "status");
      timestamp ← required as_integer (prop "timestamp");
      text ← optional as_string (prop "text");
      customData ← optional Some (prop "customData");
      entryPrice ← optional as_number (prop "entryPrice");
      stopLoss ← optional as_number (prop "stopLoss");
      takeProfit ← optional as_number (prop "takeProfit");
      pnl ← optional as_number (prop "pnl");
      unrealizedPnl ← optional as_number (prop "unrealizedPnl");
      fees ← optional as_number (prop "fees");
      fillPrice ← optional as_number (prop "fillPrice");
      fillQuantity ← optional as_number (prop "fillQuantity");
      Some (TradingOrder.mk id type side price quantity symbol status timestamp text
              customData entryPrice stopLoss takeProfit pnl unrealizedPnl fees fillPrice
              fillQuantity)
  | _ => None
  end.

Module OrderPersistence.

(** [exportOrders]: [JSON.stringify(orders, null, 2)]. *)
Definition exportOrders (orders : list TradingOrder) : string :=
  default "undefined" (JSON.stringify (JArray (map objectOf orders))).

(** [importOrders]: the parsed array, [[]] for a text that does not parse
    or that is not an array (the error goes to the console). *)
Definition importOrders (jsonString : string) : list JsValue :=
  match JSON.parse jsonString with
  | Some (JArray orders) => orders
  | _ => []
  end.

Definition ORDERS_KEY : string := "klinecharts_pro_orders".
Definition THEME_KEY : string := "klinecharts_pro_order_theme".

(** The key of a symbol: [symbol ? `${ORDERS_KEY}_${symbol}` : ORDERS_KEY]. *)
Definition ordersKey (symbol : option string) : string :=
  match symbol with
  | Some name => if str_falsy symbol then ORDERS_KEY else ORDERS_KEY +:+ "_" +:+ name
  | None => ORDERS_KEY
  end.

(** [saveOrders]: the store afterwards and what went to the console. *)
Definition saveOrders (orders : list TradingOrder) (symbol : option string)
    (localStorage : Storage.t) : Storage.t * list Console :=
  let key := ordersKey symbol in
  let serializedOrders :=
    default "undefined" (JSONCompact.stringify (JArray (map objectOf orders))) in
  match Storage.setItem key serializedOrders localStorage with
  | inr localStorage' => (localStorage', [])
  | inl error => (localStorage, [warn "Failed to save orders to localStorage:" error])
  end.

(** [loadOrders]: whatever the text parses to, [[]] without a text, for
    the empty text and for a text that does not parse. *)
Definition loadOrders (symbol : option string) (localStorage : Storage.t)
    : JsValue * list Console :=
  let key := ordersKey symbol in
  match Storage.getItem key localStorage with
  | Some serializedOrders =>
      if str_falsy (Some serializedOrders) then (JArray [], [])
      else
        match JSON.parse serializedOrders with
        | Some orders => (orders, [])
        | None => (JArray [], [warn "Failed to load orders from localStorage:" SyntaxError])
        end
  | None => (JArray [], [])
  end.

(** [clearOrders] and [clearTheme]: [removeItem] does not throw. *)
Definition clearOrders (symbol : option string) (localStorage : Storage.t) : Storage.t :=
  Storage.removeItem (ordersKey symbol) localStorage.

Definition clearTheme (localStorage : Storage.t) : Storage.t :=
  Storage.removeItem THEME_KEY localStorage.

(** The loop of [getSavedOrderKeys], from index [i], with [steps] rounds to
    go. *)
Fixpoint savedKeysFrom (steps i : nat) (localStorage : Storage.t) (keys : list string)
    : list string :=
  match steps with
  | O => keys
  | S steps' =>
      let keys' :=
        match Storage.key i localStorage with
        | Some key =>
            if negb (str_falsy (Some key)) && String.prefix ORDERS_KEY key
            then keys ++ [key] else keys
        | None => keys
        end in
      savedKeysFrom steps' (S i) localStorage keys'
  end.

Definition getSavedOrderKeys (localStorage : Storage.t) : list string :=
  savedKeysFrom (Storage.length localStorage) 0 localStorage [].

End OrderPersistence.

(** The orders that JSON can carry: every number is finite with a finite
    decimal expansion (and kept in lowest terms, as the parser builds it),
    the caller's data is a JSON value. *)
Definition json_number (n : option num) : Prop :=
  match n with
  | Some (Fin q) => is_Some (JSON.places q) /\ Qred q = q
  | Some _ => False
  | None => True
  end.

Definition json_data (d : option JsValue) : Prop :=
  match d with
  | Some v => JSON.representable v /\ JSON.normalize v = v /\ v <> JUndefined
  | None => True
  end.

Definition json_representable (o : TradingOrder) : Prop :=
  json_number (TradingOrder.price o) /\
  json_number (TradingOrder.quantity o) /\
  json_number (TradingOrder.entryPrice o) /\
  json_number (TradingOrder.stopLoss o) /\
  json_number (TradingOrder.takeProfit o) /\
  json_number (TradingOrder.pnl o) /\
  json_number (TradingOrder.unrealizedPnl o) /\
  json_number (TradingOrder.fees o) /\
  json_number (TradingOrder.fillPrice o) /\
  json_number (TradingOrder.fillQuantity o) /\
  json_data (TradingOrder.customData o).

(** *** Parsing a text back *)

Module JsonFacts.
Import JSON.

(** A text that parses to [v] with fuel [w], whatever follows it. *)
Definition parses (t : text) (v : JsValue) (w : nat) : Prop :=
  forall fuel rest,
    (w <= fuel)%nat -> ends_number rest -> parse_value fuel (t ++ rest) = Some (v, rest).

(** The first character of the text of a value. *)
Definition starts (t : text) : Prop :=
  match t with
  | c :: _ => is_ws c = false /\ code c <> 93%N /\ code c <> 125%N
  | [] => False
  end.

(** The items of an array, the members of an object. *)
Definition item_text (ind : nat) (x : JsValue) : text :=
  default null_text (serialize (S ind) x).

Definition item_value (x : JsValue) : JsValue :=
  match x with JUndefined => JNull | _ => normalize x end.

Definition is_defined (m : string * JsValue) : bool :=
  match snd m with JUndefined => false | _ => true end.

Definition member_text (ind : nat) (m : string * JsValue) : text :=
  member (fst m) (item_text ind (snd m)).

Definition member_value (m : string * JsValue) : string * JsValue :=
  (fst m, item_value (snd m)).

(** What is left of a property after the round trip. *)
Definition kept (v : JsValue) : option JsValue :=
  match v with JUndefined => None | _ => Some (normalize v) end.

End JsonFacts.

(** ** Runs of calls *)

(** A caller that issues creation requests one after the other and goes on
    after a request that throws. *)
Fixpoint addOrders (requests : list (Env * CreateOrderOptions)) (this : OrderManagerImpl.t)
    : OrderManagerImpl.t :=
  match requests with
  | [] => this
  | (env, orderOptions) :: rest =>
      addOrders rest (snd (fst (OrderManagerImpl.addOrder env orderOptions this)))
  end.

(** The [onOrderEvent] calls of one notification round, as the subscribers
    see the manager [this]. *)
Definition notified (this : OrderManagerImpl.t) (orderId : string) (event : OrderEvent)
    (order : TradingOrder) : list Observed :=
  map (fun callback =>
         observed (OrderManagerImpl.orders this) (OrderManagerImpl.overlayIds this)
           (call_onOrderEvent (OrderCallback.ref callback) orderId event order))
      (List.filter OrderCallback.onOrderEvent (OrderManagerImpl.callbacks this)).

(** ** Sample data and the wording of the design document *)

(** An order with the required fields and nothing else, as [addOrder]
    builds it. *)
Definition plainOrder (id : string) (type : OrderType) (side : OrderSide)
    (price quantity : num) (status : OrderStatus) : TradingOrder :=
  TradingOrder.mk id (Some type) (Some side) (Some price) (Some quantity)
    (Some "BTCUSDT") status 0 None None None None None None None None None None.

(** [order.entryPrice = p]. *)
Definition with_entryPrice (o : TradingOrder) (p : option num) : TradingOrder :=
  apply_updates o
    (OrderUpdates.mk None None None None None None None None None None
       (Some p) None None None None None None None).

(** A subscriber with all four handlers, a chart that answers every
    creation request with a fresh handle, and a manager on that chart with
    the subscriber registered. *)
Definition listener : OrderCallback := OrderCallback.mk 1 true true true true.

Definition readyChart : Chart :=
  Chart.mk (fun n => Some ("overlay_" +:+ pretty n)) 0.

Definition watched (chart : option Chart) : OrderManagerImpl.t :=
  snd (fst (OrderManagerImpl.addCallback listener (OrderManagerImpl.new chart))).

Definition sampleEnv : Env := Env.mk 1700000000000 "k3x9q2m1z" 1700000000001.

(** A creation request with the required fields. *)
Definition request (id : string) (type : OrderType) (side : OrderSide)
    (price quantity : num) : CreateOrderOptions :=
  CreateOrderOptions.mk (Some id) (Some type) (Some side) (Some price) (Some quantity)
    (Some "BTCUSDT") None None None None None None.

(** The override of the package's guide: the entry style of the buy side
    with two colours and a line width, nothing else. *)
Definition greenEntry : PartialTheme :=
  PartialTheme.mk
    (Some {[ "entry" := OrderStyle.mk "#00ff88" "#00ff88" None (Some (of_Z 2)) None None
                          None None ]})
    None.


(** The priority table of the design document, the type that comes
    first at the head. *)
Definition priority_table : list OrderType :=
  [entry; market; limit; stop_loss; take_profit].

(** The place of a type in a table: the number of types in front of it. *)
Fixpoint place_in (table : list OrderType) (t : OrderType) : nat :=
  match table with
  | [] => O
  | t' :: rest => if decide (t' = t) then O else S (place_in rest t)
  end.

(** The place of an order is the place of its type; an order without a
    type stands behind the table. *)
Definition place (o : TradingOrder) : nat :=
  match TradingOrder.type o with
  | Some t => place_in priority_table t
  | None => length priority_table
  end.

(** The listing order of the design document: the place in the priority
    table first, the price within one place. *)
Definition listed_le (a b : TradingOrder) : Prop :=
  (place a < place b)%nat \/
  (place a = place b /\
   leb (to_num (TradingOrder.price a)) (to_num (TradingOrder.price b)) = true).

(** An order whose price is a number other than [NaN]. *)
Definition priced (o : TradingOrder) : Prop :=
  is_nan (to_num (TradingOrder.price o)) = false.

(** Two orders that the listing order does not tell apart. *)
Definition same_rank (a b : TradingOrder) : bool :=
  bool_decide (place a = place b) &&
  leb (to_num (TradingOrder.price a)) (to_num (TradingOrder.price b)) &&
  leb (to_num (TradingOrder.price b)) (to_num (TradingOrder.price a)).

(** Two orders with a fractional quantity, a label and caller data. *)
Definition savedOrders : list TradingOrder :=
  [plainOrder "a" entry buy (of_Z 45000) (Fin (1 # 10)) filled;
   TradingOrder.mk "b" (Some stop_loss) (Some sell) (Some (of_Z 43000)) (Some (Fin (1 # 10)))
     (Some "BTCUSDT") pending 1700000000000 (Some "SL")
     (Some (JObject [("tags", JArray [JString "swing"; JBool true; JNull])]))
     (Some (of_Z 45000)) None None None None (Some (Fin (5 # 4))) None None].

(** "[a] if present, else [b]", as the design document words the two
    defaults of the PnL computation: present means set, whatever the
    value. *)
Definition if_present (a b : option num) : option num :=
  match a with Some x => Some x | None => b end.

(** ** Callers of the manager *)

(** One call of a public method of the manager, or of one of the handlers
    that the overlay template reaches. *)
Inductive Method :=
| m_setChart (chart : option Chart)
| m_updateCurrentPrice (price : num)
| m_addOrder (env : Env) (orderOptions : CreateOrderOptions)
| m_updateOrder (orderId : string) (updates : OrderUpdates)
| m_removeOrder (orderId : string)
| m_setTheme (theme : PartialTheme)
| m_addCallback (callback : OrderCallback)
| m_removeCallback (callback : OrderCallback)
| m_handleOrderCancel (orderId : string)
| m_handlePriceChange (orderId : string) (newPrice : num) (oldPrice : option num)
| m_handleOrderDragEnd (orderId : string) (finalPrice : option num)
| m_handleOrderClick (orderId : string)
| m_clearAllOrders.

(** What a call leaves behind, whether it returned or threw: the manager
    and the effects. *)
Definition outcome {A} (r : (exn + A) * OrderManagerImpl.t * list Observed)
    : OrderManagerImpl.t * list Observed :=
  (snd (fst r), snd r).

Definition perform (c : Method) (this : OrderManagerImpl.t)
    : OrderManagerImpl.t * list Observed :=
  match c with
  | m_setChart chart => outcome (OrderManagerImpl.setChart chart this)
  | m_updateCurrentPrice price => outcome (OrderManagerImpl.updateCurrentPrice price this)
  | m_addOrder env orderOptions => outcome (OrderManagerImpl.addOrder env orderOptions this)
  | m_updateOrder orderId updates => outcome (OrderManagerImpl.updateOrder orderId updates this)
  | m_removeOrder orderId => outcome (OrderManagerImpl.removeOrder orderId this)
  | m_setTheme theme => outcome (OrderManagerImpl.setTheme theme this)
  | m_addCallback callback => outcome (OrderManagerImpl.addCallback callback this)
  | m_removeCallback callback => outcome (OrderManagerImpl.removeCallback callback this)
  | m_handleOrderCancel orderId => outcome (OrderManagerImpl.handleOrderCancel orderId this)
  | m_handlePriceChange orderId newPrice oldPrice =>
      outcome (OrderManagerImpl.handlePriceChange orderId newPrice oldPrice this)
  | m_handleOrderDragEnd orderId finalPrice =>
      outcome (OrderManagerImpl.handleOrderDragEnd orderId finalPrice this)
  | m_handleOrderClick orderId => outcome (OrderManagerImpl.handleOrderClick orderId this)
  | m_clearAllOrders => outcome (OrderManagerImpl.clearAllOrders this)
  end.

(** A caller that issues calls one after the other and goes on after a
    call that throws. *)
Fixpoint run (calls : list Method) (this : OrderManagerImpl.t) : OrderManagerImpl.t :=
  match calls with
  | [] => this
  | c :: rest => run rest (fst (perform c this))
  end.

(** The two tables agree: each holds a key once, every binding belongs to
    an order of the store, and no order is stored under the empty id. *)
Definition consistent (this : OrderManagerImpl.t) : Prop :=
  JsMap.wf (OrderManagerImpl.orders this) /\
  JsMap.wf (OrderManagerImpl.overlayIds this) /\
  (forall k, k ∈ JsMap.keys (OrderManagerImpl.overlayIds this) ->
             k ∈ JsMap.keys (OrderManagerImpl.orders this)) /\
  "" ∉ JsMap.keys (OrderManagerImpl.orders this).

(** The calls of one round on the subscribers that have the handler, as
    they see the manager [this]. *)
Definition called (this : OrderManagerImpl.t) (has : OrderCallback -> bool)
    (e : nat -> Effect) : list Observed :=
  map (fun callback =>
         observed (OrderManagerImpl.orders this) (OrderManagerImpl.overlayIds this)
           (e (OrderCallback.ref callback)))
      (List.filter has (OrderManagerImpl.callbacks this)).

(** The request that [updateOrderOverlay] sends to the chart for an order
    with a side: nothing without a chart or without a binding. *)
Definition refreshed (this : OrderManagerImpl.t) (order : TradingOrder) : list Observed :=
  match OrderManagerImpl.chart this,
        OrderManagerImpl.usable_id
          (JsMap.get (TradingOrder.id order) (OrderManagerImpl.overlayIds this)),
        getOrderStyle (OrderManagerImpl.theme this) (TradingOrder.side order)
          (TradingOrder.type order) with
  | Some _, Some overlayId, inr orderStyle =>
      [observed (OrderManagerImpl.orders this) (OrderManagerImpl.overlayIds this)
         (chart_overrideOverlay overlayId (TradingOrder.price order)
            (TradingOrder.timestamp order)
            (OrderManagerImpl.overlayData this order orderStyle))]
  | _, _, _ => []
  end.

(** [{ status: 'cancelled' }]. *)
Definition status_cancelled : OrderUpdates :=
  OrderUpdates.mk None None None None None None (Some cancelled) None None
    None None None None None None None None None.

(** What the outside sees of [clearAllOrders]: order by order, the
    removal of the bound overlay and the [cancelled] round. *)
Definition cleared (this : OrderManagerImpl.t) : list Effect :=
  flat_map
    (fun entry : string * TradingOrder =>
       match OrderManagerImpl.usable_id
               (JsMap.get (fst entry) (OrderManagerImpl.overlayIds this)),
             OrderManagerImpl.chart this with
       | Some overlayId, Some _ => [chart_removeOverlay overlayId]
       | _, _ => []
       end ++
       map (fun callback =>
              call_onOrderEvent (OrderCallback.ref callback) (fst entry) ev_cancelled
                (snd entry))
           (List.filter OrderCallback.onOrderEvent (OrderManagerImpl.callbacks this)))
    (OrderManagerImpl.orders this).

(** The effects that a call may have, by method: the requests to the
    chart, the handlers and the events that its code can reach. *)
Definition footprint (c : Method) (e : Effect) : bool :=
  match c, e with
  | (m_updateCurrentPrice _ | m_setTheme _), chart_overrideOverlay _ _ _ _ => true
  | m_addOrder _ _, chart_createOverlay _ _ _ _ => true
  | m_addOrder _ _, call_onOrderEvent _ _ ev_created _ => true
  | m_updateOrder orderId _, chart_overrideOverlay _ _ _ _ => true
  | m_updateOrder orderId _, call_onOrderEvent _ k ev_updated _ => bool_decide (k = orderId)
  | m_removeOrder orderId, chart_removeOverlay _ => true
  | m_removeOrder orderId, call_onOrderEvent _ k ev_cancelled _ => bool_decide (k = orderId)
  | m_clearAllOrders, chart_removeOverlay _ => true
  | m_clearAllOrders, call_onOrderEvent _ _ ev_cancelled _ => true
  | m_handleOrderCancel orderId, call_onCancel _ k => bool_decide (k = orderId)
  | m_handleOrderCancel orderId, chart_overrideOverlay _ _ _ _ => true
  | m_handleOrderCancel orderId, call_onOrderEvent _ k ev_updated _ => bool_decide (k = orderId)
  | m_handlePriceChange orderId _ _, call_onPriceChange _ k _ _ => bool_decide (k = orderId)
  | m_handlePriceChange orderId _ _, call_onOrderEvent _ k ev_dragged _ =>
      bool_decide (k = orderId)
  | m_handleOrderDragEnd orderId _, console_log_dragEnd k _ => bool_decide (k = orderId)
  | m_handleOrderClick orderId, call_onOrderClick _ k => bool_decide (k = orderId)
  | _, _ => false
  end.

(** The name of an effect, for reading a log. *)
Definition effect_name (e : Effect) : string :=
  match e with
  | chart_createOverlay _ _ _ _ => "createOverlay"
  | chart_overrideOverlay _ _ _ _ => "overrideOverlay"
  | chart_removeOverlay _ => "removeOverlay"
  | call_onOrderEvent _ _ ev_created _ => "created"
  | call_onOrderEvent _ _ ev_updated _ => "updated"
  | call_onOrderEvent _ _ ev_cancelled _ => "cancelled"
  | call_onOrderEvent _ _ ev_filled _ => "filled"
  | call_onOrderEvent _ _ ev_dragged _ => "dragged"
  | call_onPriceChange _ _ _ _ => "onPriceChange"
  | call_onCancel _ _ => "onCancel"
  | call_onOrderClick _ _ => "onOrderClick"
  | console_log_dragEnd _ _ => "console.log"
  end.

Definition names (log : list Observed) : list string :=
  map (fun o => effect_name (effect o)) log.

(** ** More of [orders/utils.ts] *)

(** [Math.abs]. *)
Definition Math_abs (a : num) : num :=
  match a with
  | Fin q => Fin (Qabs q)
  | PInf | NInf => PInf
  | NaN => NaN
  end.

(** [!x] on a number that may be [undefined]. *)
Definition num_falsy (a : option num) : bool :=
  match a with Some n => negb (truthy n) | None => true end.

Definition getLineStyle (order : TradingOrder) : LineStyle :=
  if decide (TradingOrder.status order = cancelled) then dotted
  else if decide (TradingOrder.type order = Some limit) then dashed
  else solid.

Definition calculateRiskAmount (order : TradingOrder) (entryPrice : option num) : num :=
  if negb (bool_decide (TradingOrder.type order = Some stop_loss)) || num_falsy entryPrice
  then zero
  else
    let priceDiff := Math_abs (to_num entryPrice - to_num (TradingOrder.price order)) in
    (priceDiff * to_num (TradingOrder.quantity order))%num.

Definition calculateProfitTarget (order : TradingOrder) (entryPrice : option num) : num :=
  if negb (bool_decide (TradingOrder.type order = Some take_profit)) || num_falsy entryPrice
  then zero
  else
    let priceDiff := Math_abs (to_num (TradingOrder.price order) - to_num entryPrice) in
    (priceDiff * to_num (TradingOrder.quantity order))%num.

Definition getPnLColor (pnl : num) : string :=
  if gtb pnl zero then "#4caf50"
  else if ltb pnl zero then "#f44336"
  else "#757575".

(** The key of [OrderTheme] that is named after a type. *)
Definition theme_key (type : OrderType) : string :=
  match type with
  | entry => "entry"
  | limit => "limit"
  | stop_loss => "stopLoss"
  | take_profit => "takeProfit"
  | market => "market"
  end.

(** A side of a theme as the interface [OrderTheme] declares it: the five
    keys and no other. *)
Definition declared (sideTheme : SideTheme) : Prop :=
  forall key, is_Some (sideTheme !! key) <->
              key ∈ ["entry"; "limit"; "stopLoss"; "takeProfit"; "market"].

(** [order.type = type]. *)
Definition with_type (o : TradingOrder) (type : OrderType) : TradingOrder :=
  apply_updates o
    (OrderUpdates.mk None (Some (Some type)) None None None None None None None None
       None None None None None None None None).

(** A whole theme as a partial one. *)
Definition total (theme : OrderTheme) : PartialTheme :=
  PartialTheme.mk (Some (OrderTheme.buy theme)) (Some (OrderTheme.sell theme)).

(** The faults that [validateOrder] can report, in the order in which it
    looks for them. *)
Definition faults : list string :=
  ["Order type is required"; "Order side is required"; "Valid price is required";
   "Valid quantity is required"; "Symbol is required"].

(** A creation request that sets nothing. *)
Definition emptyRequest : CreateOrderOptions :=
  CreateOrderOptions.mk None None None None None None None None None None None None.

(** ** [PersistentOrderManager] *)

Module PersistentOrderManager.

Record t := mk {
  symbol : string;
  autosave : bool
}.

(** The constructor: [autosave] is [true] when it is not given. *)
Definition new (symbol : string) (autosave : option bool) : t :=
  mk symbol (default true autosave).

Definition saveOrders (orders : list TradingOrder) (this : t) (localStorage : Storage.t)
    : Storage.t * list Console :=
  OrderPersistence.saveOrders orders (Some (symbol this)) localStorage.

Definition loadOrders (this : t) (localStorage : Storage.t) : JsValue * list Console :=
  OrderPersistence.loadOrders (Some (symbol this)) localStorage.

Definition autoSaveOrders (orders : list TradingOrder) (this : t) (localStorage : Storage.t)
    : Storage.t * list Console :=
  if autosave this then saveOrders orders this localStorage else (localStorage, []).

Definition clearOrders (this : t) (localStorage : Storage.t) : Storage.t :=
  OrderPersistence.clearOrders (Some (symbol this)) localStorage.

Definition setAutosave (enabled : bool) (this : t) : t :=
  mk (symbol this) enabled.

Definition isAutosaveEnabled (this : t) : bool := autosave this.

End PersistentOrderManager.

(** A browser that takes every write, with nothing stored, and one that
    refuses every write. *)
Definition emptyStorage : Storage.t := Storage.mk [] (fun _ _ _ => false).

Definition fullStorage (items : JsMap.t string) : Storage.t :=
  Storage.mk items (fun _ _ _ => true).

(** *** The text without a gap, item by item *)

Module CompactFacts.
Import JSON.

Definition item_text (x : JsValue) : text :=
  default null_text (JSONCompact.serialize x).

Definition member_text (m : string * JsValue) : text :=
  JSONCompact.member (fst m) (item_text (snd m)).

End CompactFacts.

(** * Properties *)

(** ** Numbers *)

Section NumFacts.
Local Open Scope Q_scope.

Lemma sgn_compare (q : Q) : sgn q = (q ?= 0).
Proof.
  unfold sgn, Qcompare. simpl. now rewrite Z.mul_1_r, Z.mul_0_l.
Qed.

Lemma sgn_proper (x y : Q) : x == y -> sgn x = sgn y.
Proof.
  intros H. rewrite !sgn_compare. now rewrite H.
Qed.

Lemma sgn_opp (x : Q) : sgn (- x) = CompOpp (sgn x).
Proof.
  unfold sgn. destruct x as [n d]. simpl. now destruct n.
Qed.

Lemma num_eq_refl (a : num) : a ≃ a.
Proof. destruct a; simpl; auto. reflexivity. Qed.

Lemma num_eq_sym (a b : num) : a ≃ b -> b ≃ a.
Proof. destruct a, b; simpl; auto. intros H. now symmetry. Qed.

Lemma num_eq_trans (a b c : num) : a ≃ b -> b ≃ c -> a ≃ c.
Proof.
  destruct a, b, c; simpl; auto; try contradiction.
  intros H1 H2. now rewrite H1.
Qed.

(** Swapping the operands of a difference negates the product. *)
Lemma mul_sub_swap (a b q : num) : ((a - b) * q)%num ≃ (- ((b - a) * q))%num.
Proof.
  assert (Hs : forall x y : Q, sgn (x + - y) = CompOpp (sgn (y + - x))).
  { intros x y. rewrite <- sgn_opp. apply sgn_proper. ring. }
  destruct a as [x| | |], b as [y| | |], q as [z| | |]; simpl; auto;
    try (rewrite (Hs x y)); try (destruct (sgn _)); simpl; auto.
  ring.
Qed.

Lemma zero_minus (f : num) : is_nan f = false -> (zero + zero - f)%num ≃ (- f)%num.
Proof.
  destruct f as [x| | |]; simpl; auto; try discriminate.
  intros _. ring.
Qed.
End NumFacts.

(** ** Maps *)

Section JsMapFacts.
Context {V : Type}.
Implicit Types (m : JsMap.t V) (k : string) (v : V).

Lemma get_None_keys k m : JsMap.get k m = None <-> k ∉ JsMap.keys m.
Proof.
  induction m as [| [k' v'] m IH]; simpl.
  - split; [intros _; apply not_elem_of_nil | reflexivity].
  - destruct (decide (k' = k)) as [-> | Hne].
    + split; [discriminate | intros H; exfalso; apply H; left].
    + rewrite IH, not_elem_of_cons. split; [intros H; split; congruence | tauto].
Qed.

Lemma get_set_eq k v m : JsMap.get k (JsMap.set k v m) = Some v.
Proof.
  induction m as [| [k' v'] m IH]; simpl.
  - now rewrite decide_True.
  - destruct (decide (k' = k)); simpl.
    + now rewrite decide_True.
    + now rewrite decide_False.
Qed.

Lemma get_set_ne k k' v m : k <> k' -> JsMap.get k' (JsMap.set k v m) = JsMap.get k' m.
Proof.
  intros Hne. induction m as [| [k0 v0] m IH]; simpl.
  - now rewrite decide_False.
  - destruct (decide (k0 = k)) as [-> | H0]; simpl.
    + now rewrite !decide_False.
    + destruct (decide (k0 = k')); [reflexivity | apply IH].
Qed.

(** [set] on a key that is present keeps the keys where they are; on a
    new key it appends. *)
Lemma keys_set k v m :
  JsMap.keys (JsMap.set k v m) =
  match JsMap.get k m with
  | Some _ => JsMap.keys m
  | None => JsMap.keys m ++ [k]
  end.
Proof.
  unfold JsMap.keys.
  induction m as [| [k' v'] m IH]; simpl; [reflexivity |].
  destruct (decide (k' = k)) as [-> | Hne]; simpl; [reflexivity |].
  rewrite IH. now destruct (JsMap.get k m).
Qed.

Lemma size_keys m : JsMap.size m = length (JsMap.keys m).
Proof. unfold JsMap.size, JsMap.keys. now rewrite length_map. Qed.

Lemma wf_empty : JsMap.wf (@JsMap.empty V).
Proof. apply NoDup_nil_2. Qed.

Lemma wf_set k v m : JsMap.wf m -> JsMap.wf (JsMap.set k v m).
Proof.
  unfold JsMap.wf. intros Hwf. rewrite keys_set.
  destruct (JsMap.get k m) eqn:Hget; [assumption |].
  apply NoDup_app. split; [assumption | split].
  - intros x Hx Hx'. apply list_elem_of_singleton in Hx' as ->.
    now apply get_None_keys in Hget.
  - apply NoDup_singleton.
Qed.

Lemma keys_delete_absent k m : JsMap.get k m = None -> JsMap.delete k m = m.
Proof.
  induction m as [| [k' v'] m IH]; simpl; [reflexivity |].
  destruct (decide (k' = k)); [discriminate |]. intros H. now rewrite IH.
Qed.

Lemma size_delete k v m :
  JsMap.get k m = Some v -> S (JsMap.size (JsMap.delete k m)) = JsMap.size m.
Proof.
  induction m as [| [k' v'] m IH]; simpl; [discriminate |].
  destruct (decide (k' = k)); [reflexivity |].
  intros H. unfold JsMap.size in *. simpl. now rewrite IH.
Qed.

Lemma keys_delete_subset k k' m : k' ∈ JsMap.keys (JsMap.delete k m) -> k' ∈ JsMap.keys m.
Proof.
  induction m as [| [k0 v0] m IH]; simpl; [easy |].
  destruct (decide (k0 = k)); simpl.
  - apply list_elem_of_further.
  - rewrite !elem_of_cons. intros [-> | H]; [now left | right; now apply IH].
Qed.

Lemma wf_delete k m : JsMap.wf m -> JsMap.wf (JsMap.delete k m).
Proof.
  unfold JsMap.wf. induction m as [| [k' v'] m IH]; simpl; [easy |].
  rewrite NoDup_cons. intros [Hk Hm].
  destruct (decide (k' = k)); simpl; [assumption |].
  apply NoDup_cons. split; [| now apply IH].
  intros H. apply Hk. eapply keys_delete_subset, H.
Qed.

Lemma get_delete_eq k m : JsMap.wf m -> JsMap.get k (JsMap.delete k m) = None.
Proof.
  unfold JsMap.wf. induction m as [| [k' v'] m IH]; simpl; [reflexivity |].
  rewrite NoDup_cons. intros [Hk Hm].
  destruct (decide (k' = k)) as [-> | Hne]; simpl.
  - now apply get_None_keys.
  - rewrite decide_False by assumption. now apply IH.
Qed.

Lemma get_delete_ne k k' m : k <> k' -> JsMap.get k' (JsMap.delete k m) = JsMap.get k' m.
Proof.
  intros Hne. induction m as [| [k0 v0] m IH]; simpl; [reflexivity |].
  destruct (decide (k0 = k)) as [-> | H0]; simpl.
  - now rewrite decide_False.
  - destruct (decide (k0 = k')); [reflexivity | apply IH].
Qed.
End JsMapFacts.

(** ** The order manager *)

Section ManagerFacts.
Import OrderManagerImpl.

Lemma forEach_emit {A} (p : A -> bool) (g : A -> Effect) (l : list A) (this : t) :
  forEach l (fun x => when (p x) (emit (g x))) this =
  (inr tt, this,
   map (fun x => observed (orders this) (overlayIds this) (g x)) (List.filter p l)).
Proof.
  induction l as [| x l IH]; [reflexivity |].
  set (f := fun x => when (p x) (emit (g x))) in *.
  change (forEach (x :: l) f this) with (bind (f x) (fun _ => forEach l f) this).
  assert (Hfx : f x this =
                (inr tt, this,
                 if p x then [observed (orders this) (overlayIds this) (g x)] else [])).
  { subst f. cbv beta. destruct (p x); reflexivity. }
  unfold bind. rewrite Hfx, IH. cbn [List.filter]. destruct (p x); reflexivity.
Qed.

Lemma notifyCallbacks_run orderId event order this :
  notifyCallbacks orderId event order this = (inr tt, this, notified this orderId event order).
Proof.
  unfold notifyCallbacks, bind, read.
  rewrite (forEach_emit OrderCallback.onOrderEvent
             (fun callback => call_onOrderEvent (OrderCallback.ref callback) orderId event order)).
  reflexivity.
Qed.

(** What validation lets through. *)
Lemma validateOrder_nil order :
  validateOrder order = [] <->
  is_Some (TradingOrder.type order) /\
  is_Some (TradingOrder.side order) /\
  (exists p, TradingOrder.price order = Some p /\ leb p zero = false) /\
  (exists q, TradingOrder.quantity order = Some q /\ leb q zero = false) /\
  str_falsy (TradingOrder.symbol order) = false.
Proof.
  unfold validateOrder.
  destruct (TradingOrder.type order), (TradingOrder.side order),
    (TradingOrder.price order) as [p|], (TradingOrder.quantity order) as [q|],
    (str_falsy (TradingOrder.symbol order));
    try destruct (leb p zero) eqn:Hp; try destruct (leb q zero) eqn:Hq; cbn;
    split; try discriminate;
    try (intros (H1 & H2 & (p' & Hp' & Hp'') & (q' & Hq' & Hq'') & H5);
         try (destruct H1 as [? H1]); try (destruct H2 as [? H2]); congruence).
  intros _. repeat split; eauto.
Qed.

(** [p <= 0] is false for the positive numbers, and for [NaN]. *)
Lemma leb_zero_false p : leb p zero = false <-> gtb p zero = true \/ p = NaN.
Proof.
  destruct p as [x| | |]; unfold gtb, ltb, leb, zero.
  - rewrite <- (Qcompare_antisym x 0). destruct (x ?= 0)%Q; cbn;
      split; try discriminate; auto; intros [H | H]; congruence.
  - split; auto.
  - split; [discriminate | intros [H | H]; congruence].
  - split; auto.
Qed.

Lemma addOrder_invalid env orderOptions this :
  validateOrder (buildOrder env orderOptions) <> [] ->
  addOrder env orderOptions this =
  (inl (Error ("Invalid order: " +:+
               JsArray.join ", " (validateOrder (buildOrder env orderOptions)))),
   this, []).
Proof.
  intros H. unfold addOrder. destruct (validateOrder _); [congruence | reflexivity].
Qed.

(** The style that [getOrderStyle] resolves on a side. *)
Lemma createOrderOverlay_run order this s :
  TradingOrder.side order = Some s ->
  createOrderOverlay order this =
  match chart this with
  | None => (inr tt, this, [])
  | Some c =>
      let this1 := set_chart (Some (snd (Chart.createOverlay c))) this in
      (inr tt,
       match usable_id (fst (Chart.createOverlay c)) with
       | Some overlayId => set_overlayIds (JsMap.set (TradingOrder.id order) overlayId) this1
       | None => this1
       end,
       [observed (orders this) (overlayIds this)
          (chart_createOverlay "trading_order" (TradingOrder.price order)
             (TradingOrder.timestamp order)
             (overlayData this order
                (match side_of (theme this) s !! type_key (TradingOrder.type order) with
                 | Some style => Some style
                 | None => side_of (theme this) s !! "entry"
                 end)))])
  end.
Proof.
  intros Hside. unfold createOrderOverlay, bind, read.
  destruct (chart this) as [c|] eqn:Hc; [| reflexivity].
  unfold getOrderStyle. rewrite Hside. cbn.
  destruct (usable_id (Chart.answer c (Chart.created c))); reflexivity.
Qed.

(** The overlay step of [addOrder] touches neither the orders nor the
    subscribers. *)
Lemma createOrderOverlay_frame order this s :
  TradingOrder.side order = Some s ->
  exists this' log,
    createOrderOverlay order this = (inr tt, this', log) /\
    orders this' = orders this /\
    callbacks this' = callbacks this /\
    JsMap.get (TradingOrder.id order) (overlayIds this') =
    match chart this with
    | Some c =>
        match usable_id (Chart.answer c (Chart.created c)) with
        | Some overlayId => Some overlayId
        | None => JsMap.get (TradingOrder.id order) (overlayIds this)
        end
    | None => JsMap.get (TradingOrder.id order) (overlayIds this)
    end.
Proof.
  intros Hside. rewrite (createOrderOverlay_run _ _ _ Hside).
  destruct (chart this) as [c|]; [| now eexists _, _].
  cbn. destruct (usable_id _) as [h|]; eexists _, _; repeat split; cbn.
  apply get_set_eq.
Qed.

Lemma addOrder_valid env orderOptions this :
  validateOrder (buildOrder env orderOptions) = [] ->
  let order := buildOrder env orderOptions in
  exists this' log,
    addOrder env orderOptions this = (inr (TradingOrder.id order), this', log) /\
    orders this' = JsMap.set (TradingOrder.id order) order (orders this) /\
    callbacks this' = callbacks this /\
    JsMap.get (TradingOrder.id order) (overlayIds this') =
    match chart this with
    | Some c =>
        match usable_id (Chart.answer c (Chart.created c)) with
        | Some overlayId => Some overlayId
        | None => JsMap.get (TradingOrder.id order) (overlayIds this)
        end
    | None => JsMap.get (TradingOrder.id order) (overlayIds this)
    end /\
    exists shown,
      log = shown ++ notified this' (TradingOrder.id order) ev_created order /\
      Forall (fun o => exists n v ts d, effect o = chart_createOverlay n v ts d) shown.
Proof.
  intros Hvalid order. subst order. set (order := buildOrder env orderOptions) in *.
  pose proof (proj1 (validateOrder_nil order) Hvalid) as (_ & [s Hside] & _).
  unfold addOrder. fold order. rewrite Hvalid.
  unfold bind at 1. unfold write at 1.
  set (this1 := set_orders (JsMap.set (TradingOrder.id order) order) this).
  unfold bind at 1.
  rewrite (createOrderOverlay_run order this1 s Hside).
  destruct (chart this1) as [c|] eqn:Hc.
  - cbn zeta. unfold bind at 1. rewrite notifyCallbacks_run. cbn.
    unfold this1 in Hc. cbn in Hc. rewrite Hc.
    eexists _, _. split; [reflexivity |].
    destruct (usable_id (Chart.answer c (Chart.created c))) as [h|] eqn:Hh;
      cbn; (split; [reflexivity |]); (split; [reflexivity |]); split;
      try (apply get_set_eq); try reflexivity.
    + eexists [_]. split; [rewrite app_nil_r; reflexivity |].
      constructor; [| constructor]. cbn. eauto.
    + eexists [_]. split; [rewrite app_nil_r; reflexivity |].
      constructor; [| constructor]. cbn. eauto.
  - unfold bind at 1. rewrite notifyCallbacks_run. cbn.
    unfold this1 in Hc. cbn in Hc. rewrite Hc.
    eexists _, _. split; [reflexivity |]. cbn. repeat split.
    exists []. split; [rewrite app_nil_r; reflexivity | constructor].
Qed.
End ManagerFacts.

(** ** The PnL calculator *)

Section PnL.
Import TradingOrder.

(** C2, as the code has it.  For every order and reference price the
    unrealized PnL is [0] unless the status is [filled] or
    [partially_filled]; then it is (reference - entry) x quantity on the
    buy side and the negation of that otherwise.  The entry price is
    [order.entryPrice] when that is set and truthy (neither [0] nor
    [NaN]) and [order.price] if not, the quantity is [order.fillQuantity]
    when set and truthy and [order.quantity] if not.  A filled buy at 100
    for 1 unit is worth 10 at 110, the same sell -10. *)
Theorem calculatePnL_unrealized :
  (forall (order : TradingOrder) (referencePrice : num),
      let entry := to_num (or_num (entryPrice order) (price order)) in
      let effectiveQuantity := to_num (or_num (fillQuantity order) (quantity order)) in
      PnLResult.unrealizedPnl (calculatePnL order referencePrice) ≃
      match status order with
      | filled | partially_filled =>
          match side order with
          | Some buy => ((referencePrice - entry) * effectiveQuantity)%num
          | _ => (- ((referencePrice - entry) * effectiveQuantity))%num
          end
      | _ => zero
      end) /\
  PnLResult.unrealizedPnl
    (calculatePnL (with_entryPrice (plainOrder "a" entry buy (of_Z 100) (of_Z 1) filled)
                     (Some (of_Z 100))) (of_Z 110)) = of_Z 10 /\
  PnLResult.unrealizedPnl
    (calculatePnL (with_entryPrice (plainOrder "a" entry sell (of_Z 100) (of_Z 1) filled)
                     (Some (of_Z 100))) (of_Z 110)) = of_Z (-10).
Proof.
  split; [| split; reflexivity].
  intros order referencePrice. cbn zeta. unfold calculatePnL. cbn [PnLResult.unrealizedPnl].
  destruct (status order); cbn [is_open]; try apply num_eq_refl;
    destruct (side order) as [[|]|]; try apply num_eq_refl; apply mul_sub_swap.
Qed.

(** C2 as it is worded fails: with an entry price that is set to [0] the
    code falls back on [order.price].  A filled buy order at price 100
    with [entryPrice: 0], one unit, reference price 110: the code
    answers 10, (110 - 0) x 1 is 110. *)
Lemma calculatePnL_entryPrice_zero :
  let order := with_entryPrice (plainOrder "a" entry buy (of_Z 100) (of_Z 1) filled)
                 (Some zero) in
  let entry := to_num (if_present (entryPrice order) (price order)) in
  let effectiveQuantity := to_num (if_present (fillQuantity order) (quantity order)) in
  PnLResult.unrealizedPnl (calculatePnL order (of_Z 110)) = of_Z 10 /\
  ((of_Z 110 - entry) * effectiveQuantity)%num = of_Z 110 /\
  ~ PnLResult.unrealizedPnl (calculatePnL order (of_Z 110)) ≃
    ((of_Z 110 - entry) * effectiveQuantity)%num.
Proof.
  cbn zeta. split; [reflexivity | split; [reflexivity |]].
  vm_compute. discriminate.
Qed.

(** C3, as the code has it.  For every order without entry price and
    every reference price, whatever the status: the order is valued as
    if its entry price were its own price.  When the status is neither
    [filled] nor [partially_filled], whatever the side, the price and
    the reference price: the unrealized and the realized PnL are [0] and
    the net PnL is the negated fees. *)
Theorem calculatePnL_no_entryPrice (order : TradingOrder) (referencePrice : num) :
  entryPrice order = None ->
  let r := calculatePnL order referencePrice in
  r = calculatePnL (with_entryPrice order (price order)) referencePrice /\
  (status order <> filled -> status order <> partially_filled ->
   PnLResult.unrealizedPnl r = zero /\
   PnLResult.realizedPnl r = zero /\
   PnLResult.netPnl r ≃ (- PnLResult.fees r)%num).
Proof.
  intros Hentry. cbn zeta. split.
  { unfold calculatePnL, with_entryPrice, apply_updates. cbn. rewrite Hentry. cbn.
    destruct (price order) as [p|]; cbn; [destruct (truthy p) |]; reflexivity. }
  intros Hf Hp.
  assert (Hst : status order = pending \/ status order = cancelled)
    by (destruct (status order); auto; congruence).
  unfold calculatePnL.
  cbn [PnLResult.unrealizedPnl PnLResult.realizedPnl PnLResult.netPnl PnLResult.fees].
  assert (Hopen : is_open (status order) = false) by (destruct Hst as [-> | ->]; reflexivity).
  rewrite Hopen.
  assert (Hreal : match status order, fillPrice order with
                  | filled, Some fp =>
                      if truthy fp then
                        match side order with
                        | Some buy =>
                            ((fp - to_num (or_num (entryPrice order) (price order)))
                             * to_num (or_num (fillQuantity order) (quantity order)))%num
                        | _ =>
                            ((to_num (or_num (entryPrice order) (price order)) - fp)
                             * to_num (or_num (fillQuantity order) (quantity order)))%num
                        end
                      else zero
                  | _, _ => zero
                  end = zero).
  { destruct Hst as [-> | ->]; reflexivity. }
  rewrite Hreal. split; [reflexivity | split; [reflexivity |]].
  apply zero_minus.
  destruct (fees order) as [[x| | |]|]; simpl; try reflexivity.
  destruct (sgn x); reflexivity.
Qed.

Lemma calculatePnL_no_entryPrice_witness :
  let order := plainOrder "a" limit sell (of_Z 44000) (of_Z 2) pending in
  let filledOrder := plainOrder "b" entry buy (of_Z 45000) (of_Z 2) filled in
  let r := calculatePnL order (of_Z 46000) in
  calculatePnL filledOrder (of_Z 46000) =
  calculatePnL (with_entryPrice filledOrder (price filledOrder)) (of_Z 46000) /\
  PnLResult.unrealizedPnl r = zero /\
  PnLResult.realizedPnl r = zero /\
  PnLResult.netPnl r ≃ (- PnLResult.fees r)%num.
Proof.
  cbn zeta. split.
  - exact (proj1 (calculatePnL_no_entryPrice
                    (plainOrder "b" entry buy (of_Z 45000) (of_Z 2) filled) (of_Z 46000)
                    eq_refl)).
  - apply (calculatePnL_no_entryPrice
             (plainOrder "a" limit sell (of_Z 44000) (of_Z 2) pending) (of_Z 46000) eq_refl);
      discriminate.
Defined.

(** C3 as it is worded fails for a filled order: without entry price the
    code takes [order.price] for it.  A filled buy entry at 45000 for 2
    units, no entry price, reference price 46000: the unrealized PnL is
    2000 and the net PnL is 2000, not [0] and [-fees = 0]. *)
Lemma calculatePnL_no_entryPrice_filled :
  let order := plainOrder "a" entry buy (of_Z 45000) (of_Z 2) filled in
  let r := calculatePnL order (of_Z 46000) in
  entryPrice order = None /\
  PnLResult.unrealizedPnl r = of_Z 2000 /\
  PnLResult.netPnl r = of_Z 2000 /\
  PnLResult.fees r = zero /\
  ~ PnLResult.unrealizedPnl r ≃ zero /\
  ~ PnLResult.netPnl r ≃ (- PnLResult.fees r)%num.
Proof.
  cbn zeta. repeat split; try reflexivity; vm_compute; discriminate.
Qed.
End PnL.

(** ** The drag protocol *)

Section Drag.
Import OrderOverlay.

(** C5.  The pressed-move-start handler answers [true] exactly when the
    status of the order in the overlay's payload is [pending]; for a
    filled, a cancelled or a partially filled order it answers [false].
    The payload that the manager hands to the chart carries the status
    of the order it was made for. *)
Theorem onPressedMoveStart_iff_pending :
  (forall (orderData : OrderOverlayData) (pts : list (option num)),
      onPressedMoveStart (mkOverlay (Some orderData) pts) = true <->
      TradingOrder.status (OrderOverlayData.order orderData) = pending) /\
  (forall (orderData : OrderOverlayData) (pts : list (option num)),
      onPressedMoveStart (mkOverlay (Some orderData) pts) =
      match TradingOrder.status (OrderOverlayData.order orderData) with
      | pending => true
      | filled | cancelled | partially_filled => false
      end) /\
  (forall (this : OrderManagerImpl.t) (order : TradingOrder) (style : option OrderStyle),
      TradingOrder.status (OrderOverlayData.order (OrderManagerImpl.overlayData this order style))
      = TradingOrder.status order).
Proof.
  split; [| split].
  - intros orderData pts. unfold onPressedMoveStart, isOrderDraggable. cbn.
    destruct (decide _) as [H | H]; split; intros; congruence.
  - intros orderData pts. unfold onPressedMoveStart, isOrderDraggable. cbn.
    destruct (TradingOrder.status _); reflexivity.
  - reflexivity.
Qed.
End Drag.

(** ** Creation, removal and identity of orders *)

Section Store.
Import OrderManagerImpl.

(** C1, at the input where the code departs from it.  A request whose
    price is [NaN] passes validation; on a manager with a chart and a
    subscriber the order is stored under its id, bound to an overlay,
    and announced with a [created] event. *)
Theorem addOrder_accepts_NaN_price :
  let orderOptions := request "nan-1" limit buy NaN (of_Z 1) in
  let order := buildOrder sampleEnv orderOptions in
  let run := addOrder sampleEnv orderOptions (watched (Some readyChart)) in
  gtb NaN zero = false /\
  validateOrder order = [] /\
  fst (fst run) = inr "nan-1" /\
  JsMap.get "nan-1" (orders (snd (fst run))) = Some order /\
  TradingOrder.price order = Some NaN /\
  JsMap.get "nan-1" (overlayIds (snd (fst run))) = Some "overlay_0" /\
  List.last (map effect (snd run)) (console_log_dragEnd "" None) =
  call_onOrderEvent 1 "nan-1" ev_created order.
Proof.
  cbn zeta. repeat split; vm_compute; reflexivity.
Qed.

Lemma removeOrder_run orderId this :
  removeOrder orderId this =
  match JsMap.get orderId (orders this) with
  | None => (inr tt, this, [])
  | Some order =>
      let this' :=
        set_overlayIds (JsMap.delete orderId) (set_orders (JsMap.delete orderId) this) in
      (inr tt, this',
       match usable_id (JsMap.get orderId (overlayIds this)), chart this with
       | Some overlayId, Some _ =>
           [observed (orders this) (overlayIds this) (chart_removeOverlay overlayId)]
       | _, _ => []
       end ++ notified this' orderId ev_cancelled order)
  end.
Proof.
  unfold removeOrder, bind at 1, read.
  destruct (JsMap.get orderId (orders this)) as [order|]; [| reflexivity].
  cbn zeta.
  destruct (usable_id (JsMap.get orderId (overlayIds this))) as [h|], (chart this) as [c|];
    unfold bind, emit, ret, write; rewrite notifyCallbacks_run; reflexivity.
Qed.

(** C8, as the code has it.  On an id that is not in the store
    [removeOrder] returns without an exception, leaves the manager as it
    is and does nothing to the outside.  On an id that is in the store
    it first has the chart remove the overlay, with both tables still
    holding the id, when the id is bound and a chart is attached, and
    asks nothing of the chart when it is not; then it deletes the record
    and the binding, so that the store has one order less; then it calls
    the subscribers with [cancelled] and the order as it was stored, and
    they see the tables without the id. *)
Theorem removeOrder_spec (orderId : string) (this : t) :
  JsMap.wf (orders this) ->
  JsMap.wf (overlayIds this) ->
  match JsMap.get orderId (orders this) with
  | None => removeOrder orderId this = (inr tt, this, [])
  | Some order =>
      let this' :=
        set_overlayIds (JsMap.delete orderId) (set_orders (JsMap.delete orderId) this) in
      removeOrder orderId this =
      (inr tt, this',
       match usable_id (JsMap.get orderId (overlayIds this)), chart this with
       | Some overlayId, Some _ =>
           [observed (orders this) (overlayIds this) (chart_removeOverlay overlayId)]
       | _, _ => []
       end ++
       map (fun callback =>
              observed (JsMap.delete orderId (orders this))
                (JsMap.delete orderId (overlayIds this))
                (call_onOrderEvent (OrderCallback.ref callback) orderId ev_cancelled order))
           (List.filter OrderCallback.onOrderEvent (callbacks this))) /\
      S (JsMap.size (orders this')) = JsMap.size (orders this) /\
      JsMap.get orderId (orders this') = None /\
      JsMap.get orderId (overlayIds this') = None /\
      (forall other, other <> orderId ->
         JsMap.get other (orders this') = JsMap.get other (orders this) /\
         JsMap.get other (overlayIds this') = JsMap.get other (overlayIds this))
  end.
Proof.
  intros Hwf Hwf'. rewrite removeOrder_run.
  destruct (JsMap.get orderId (orders this)) as [order|] eqn:Hget; [| reflexivity].
  cbn zeta. split; [reflexivity |]. cbn. repeat split.
  - eapply size_delete, Hget.
  - now apply get_delete_eq.
  - now apply get_delete_eq.
  - apply get_delete_ne. congruence.
  - apply get_delete_ne. congruence.
Qed.

Lemma removeOrder_spec_witness :
  let this := addOrders [(sampleEnv, request "a" limit buy (of_Z 44000) (of_Z 1));
                         (sampleEnv, request "b" entry buy (of_Z 45000) (of_Z 1))]
                (watched (Some readyChart)) in
  JsMap.keys (orders this) = ["a"; "b"] /\
  JsMap.keys (orders (snd (fst (removeOrder "a" this)))) = ["b"] /\
  map effect (snd (removeOrder "a" this)) =
    [chart_removeOverlay "overlay_0";
     call_onOrderEvent 1 "a" ev_cancelled
       (buildOrder sampleEnv (request "a" limit buy (of_Z 44000) (of_Z 1)))] /\
  removeOrder "zz" this = (inr tt, this, []).
Proof.
  cbn zeta.
  set (this := addOrders _ _).
  assert (Hwf : JsMap.wf (orders this)) by (apply (bool_decide_unpack _); vm_compute; reflexivity).
  assert (Hwf' : JsMap.wf (overlayIds this))
    by (apply (bool_decide_unpack _); vm_compute; reflexivity).
  pose proof (removeOrder_spec "a" this Hwf Hwf') as Ha.
  pose proof (removeOrder_spec "zz" this Hwf Hwf') as Hz.
  change (JsMap.get "zz" (orders this)) with (@None TradingOrder) in Hz.
  change (JsMap.get "a" (orders this)) with
    (Some (buildOrder sampleEnv (request "a" limit buy (of_Z 44000) (of_Z 1)))) in Ha.
  destruct Ha as [Ha _]. rewrite Ha.
  split; [reflexivity | split; [reflexivity | split; [reflexivity | exact Hz]]].
Defined.

(** C8 as it is worded fails when the chart has been detached.  The
    order [a] is bound to the overlay [overlay_0]; the chart is taken
    away with [setChart(null)]; [removeOrder] then deletes the record and
    the binding and sends [cancelled], but nobody is asked to remove the
    overlay. *)
Lemma removeOrder_detached :
  let first := request "a" limit buy (of_Z 44000) (of_Z 1) in
  let bound := addOrders [(sampleEnv, first)] (watched (Some readyChart)) in
  let this := snd (fst (setChart None bound)) in
  let run := removeOrder "a" this in
  JsMap.get "a" (orders this) = Some (buildOrder sampleEnv first) /\
  JsMap.get "a" (overlayIds this) = Some "overlay_0" /\
  fst (fst run) = inr tt /\
  map effect (snd run) = [call_onOrderEvent 1 "a" ev_cancelled (buildOrder sampleEnv first)] /\
  ~ In (chart_removeOverlay "overlay_0") (map effect (snd run)) /\
  JsMap.get "a" (overlayIds (snd (fst run))) = None.
Proof.
  cbn zeta. repeat split; try (vm_compute; reflexivity).
  intros [H | []]. discriminate.
Qed.

Lemma addOrder_orders env orderOptions this :
  orders (snd (fst (addOrder env orderOptions this))) =
  match validateOrder (buildOrder env orderOptions) with
  | [] => JsMap.set (TradingOrder.id (buildOrder env orderOptions))
            (buildOrder env orderOptions) (orders this)
  | _ :: _ => orders this
  end.
Proof.
  destruct (validateOrder (buildOrder env orderOptions)) as [| e errors] eqn:Hv.
  - destruct (addOrder_valid env orderOptions this Hv) as (this' & log & -> & Ho & _).
    exact Ho.
  - rewrite addOrder_invalid by (rewrite Hv; discriminate). reflexivity.
Qed.

Lemma addOrders_app requests requests' this :
  addOrders (requests ++ requests') this = addOrders requests' (addOrders requests this).
Proof.
  revert this. induction requests as [| [env o] requests IH]; intros this; [reflexivity |].
  cbn. apply IH.
Qed.

Lemma addOrders_wf requests this :
  JsMap.wf (orders this) -> JsMap.wf (orders (addOrders requests this)).
Proof.
  revert this. induction requests as [| [env o] requests IH]; intros this Hwf; [exact Hwf |].
  cbn. apply IH. rewrite addOrder_orders.
  destruct (validateOrder _); [now apply wf_set | exact Hwf].
Qed.

Lemma addOrders_get_other requests this k :
  Forall (fun r => validateOrder (buildOrder (fst r) (snd r)) = [] ->
                   TradingOrder.id (buildOrder (fst r) (snd r)) <> k) requests ->
  JsMap.get k (orders (addOrders requests this)) = JsMap.get k (orders this).
Proof.
  revert this. induction requests as [| [env o] requests IH]; intros this Hall; [reflexivity |].
  apply Forall_cons in Hall as [Hr Hall]. cbn [addOrders fst snd] in *.
  rewrite IH by assumption. rewrite addOrder_orders.
  destruct (validateOrder _) eqn:Hv; [| reflexivity].
  apply get_set_ne. apply Hr. reflexivity.
Qed.

(** C10, as the code has it.  A request that passes validation and names
    an id which is already in the store does not throw and adds no entry:
    the keys of the store stay as they are, the order under that id is the
    new one, the other orders are untouched, and the id is bound to the
    handle that the chart answers for the new overlay; when there is no
    chart, or no handle comes back, the binding stays as it is.  So a
    store that holds one order per id does so after any run of [addOrder]
    calls, in particular a run that starts from the constructor; and the
    order under an id is the one of the last valid request that named
    it. *)
Theorem addOrder_existing_id :
  (forall env orderOptions this old,
      let order := buildOrder env orderOptions in
      validateOrder order = [] ->
      JsMap.get (TradingOrder.id order) (orders this) = Some old ->
      exists this' log,
        addOrder env orderOptions this = (inr (TradingOrder.id order), this', log) /\
        JsMap.keys (orders this') = JsMap.keys (orders this) /\
        JsMap.size (orders this') = JsMap.size (orders this) /\
        JsMap.get (TradingOrder.id order) (orders this') = Some order /\
        (forall other, other <> TradingOrder.id order ->
           JsMap.get other (orders this') = JsMap.get other (orders this)) /\
        JsMap.get (TradingOrder.id order) (overlayIds this') =
        match chart this with
        | Some c =>
            match usable_id (fst (Chart.createOverlay c)) with
            | Some overlayId => Some overlayId
            | None => JsMap.get (TradingOrder.id order) (overlayIds this)
            end
        | None => JsMap.get (TradingOrder.id order) (overlayIds this)
        end) /\
  (forall requests this,
      JsMap.wf (orders this) -> JsMap.wf (orders (addOrders requests this))) /\
  (forall requests chart, NoDup (JsMap.keys (orders (addOrders requests (new chart))))) /\
  (forall before env orderOptions after this,
      let order := buildOrder env orderOptions in
      validateOrder order = [] ->
      Forall (fun r => validateOrder (buildOrder (fst r) (snd r)) = [] ->
                       TradingOrder.id (buildOrder (fst r) (snd r)) <> TradingOrder.id order)
             after ->
      JsMap.get (TradingOrder.id order)
        (orders (addOrders (before ++ (env, orderOptions) :: after) this)) = Some order).
Proof.
  split; [| split; [| split]].
  - intros env orderOptions this old order Hvalid Hold.
    destruct (addOrder_valid env orderOptions this Hvalid) as (this' & log & Hrun & Ho & _ & Hb & _).
    fold order in Hrun, Ho, Hb.
    exists this', log. split; [exact Hrun |]. rewrite Ho.
    assert (Hkeys : JsMap.keys (JsMap.set (TradingOrder.id order) order (orders this)) =
                    JsMap.keys (orders this)) by (rewrite keys_set, Hold; reflexivity).
    split; [exact Hkeys |]. split; [now rewrite !size_keys, Hkeys |].
    split; [apply get_set_eq |]. split; [| exact Hb].
    intros other Hne. apply get_set_ne. congruence.
  - intros requests this. apply addOrders_wf.
  - intros requests chart. apply addOrders_wf, wf_empty.
  - intros before env orderOptions after this order Hvalid Hafter.
    rewrite addOrders_app. cbn [addOrders].
    rewrite addOrders_get_other by exact Hafter.
    rewrite addOrder_orders. fold order. rewrite Hvalid. apply get_set_eq.
Qed.

Lemma addOrder_existing_id_witness :
  let first := request "a" limit buy (of_Z 44000) (of_Z 1) in
  let second := request "a" stop_loss sell (of_Z 43000) (of_Z 2) in
  let this := addOrders [(sampleEnv, first)] (watched (Some readyChart)) in
  exists this' log,
    addOrder sampleEnv second this = (inr "a", this', log) /\
    JsMap.keys (orders this') = ["a"] /\
    JsMap.get "a" (orders this') = Some (buildOrder sampleEnv second) /\
    JsMap.get "a" (overlayIds this') = Some "overlay_1".
Proof.
  cbn zeta.
  destruct (proj1 addOrder_existing_id sampleEnv
              (request "a" stop_loss sell (of_Z 43000) (of_Z 2))
              (addOrders [(sampleEnv, request "a" limit buy (of_Z 44000) (of_Z 1))]
                 (watched (Some readyChart)))
              (buildOrder sampleEnv (request "a" limit buy (of_Z 44000) (of_Z 1)))
              eq_refl eq_refl)
    as (this' & log & Hrun & Hkeys & _ & Hget & _ & Hbind).
  exists this', log. split; [exact Hrun |]. split; [exact Hkeys |].
  split; [exact Hget | exact Hbind].
Defined.

(** C10 as it is worded fails on the binding when the chart has been
    detached.  An order is created under the id [a] and bound to the
    overlay [overlay_0]; the chart is taken away with [setChart(null)]; a
    second request under the same id replaces the order, but no overlay is
    created for it and the id stays bound to [overlay_0]. *)
Lemma addOrder_existing_id_detached :
  let first := request "a" limit buy (of_Z 44000) (of_Z 1) in
  let second := request "a" stop_loss sell (of_Z 43000) (of_Z 2) in
  let bound := addOrders [(sampleEnv, first)] (watched (Some readyChart)) in
  let this := snd (fst (setChart None bound)) in
  let run := addOrder sampleEnv second this in
  JsMap.get "a" (overlayIds this) = Some "overlay_0" /\
  fst (fst run) = inr "a" /\
  JsMap.get "a" (orders (snd (fst run))) = Some (buildOrder sampleEnv second) /\
  map effect (snd run) = [call_onOrderEvent 1 "a" ev_created (buildOrder sampleEnv second)] /\
  JsMap.get "a" (overlayIds (snd (fst run))) = Some "overlay_0".
Proof. cbn zeta. repeat split; vm_compute; reflexivity. Qed.
End Store.

(** ** The end of a drag *)

Section DragEnd.
Import OrderManagerImpl OrderOverlay.


End DragEnd.

(** ** Themes *)

Section Themes.
Lemma spread_lookup (a : SideTheme) (b : option SideTheme) (key : string) :
  spread a b !! key =
  match b ≫= (.!! key) with
  | Some style => Some style
  | None => a !! key
  end.
Proof.
  destruct b as [b|]; cbn; [| reflexivity].
  rewrite lookup_union. destruct (b !! key), (a !! key); reflexivity.
Qed.

Lemma mergeThemes_side base partial s :
  side_of (mergeThemes base partial) s = spread (side_of base s) (partial_side partial s).
Proof. destruct s; reflexivity. Qed.

(** C7, as the code has it.  Merging a partial theme into a base theme
    replaces whole entries: an entry (side, type) that the partial
    lists is the partial's entry, with the fields of that entry and no
    others, and an entry that the partial does not list keeps every
    field of the base theme. *)
Theorem mergeThemes_entries :
  forall (base : OrderTheme) (partial : PartialTheme) (s : OrderSide) (key : string)
         (f : StyleField),
    style_field (mergeThemes base partial) s key f =
    match partial_entry partial s key with
    | Some style => field_value f style
    | None => style_field base s key f
    end.
Proof.
  intros base partial s key f. unfold style_field, partial_entry.
  rewrite mergeThemes_side, spread_lookup.
  destruct (partial_side partial s ≫= (.!! key)); reflexivity.
Qed.

(** C7 as it is worded fails on a field that the partial leaves out of
    an entry it lists.  The override of the guide, merged into the dark
    theme: the partial has no background for the entry style of the buy
    side, the dark theme has one, the merged theme has none.  Through
    [setTheme] the same override also drops the limit style of the buy
    side, an entry that it does not list. *)
Lemma mergeThemes_drops_fields :
  partial_field greenEntry buy "entry" f_backgroundColor = None /\
  style_field darkTheme buy "entry" f_backgroundColor =
    Some (JString "rgba(66, 165, 245, 0.1)") /\
  style_field (mergeThemes darkTheme greenEntry) buy "entry" f_backgroundColor = None /\
  partial_entry greenEntry buy "limit" = None /\
  style_field darkTheme buy "limit" f_lineColor = Some (JString "#ffb74d") /\
  style_field
    (OrderManagerImpl.theme
       (snd (fst (OrderManagerImpl.setTheme greenEntry (OrderManagerImpl.new None)))))
    buy "limit" f_lineColor = None.
Proof. repeat split; vm_compute; reflexivity. Qed.
End Themes.

(** ** The listing order *)

Section Sorting.
Import TradingOrder.

Lemma Qcompare_sub (x y : Q) : (x + - y ?= 0)%Q = (x ?= y)%Q.
Proof.
  destruct (Qcompare_spec x y) as [H | H | H].
  - apply (proj1 (Qeq_alt _ _)). lra.
  - apply (proj1 (Qlt_alt _ _)). lra.
  - apply (proj1 (Qgt_alt _ _)). lra.
Qed.

(** On numbers other than [NaN], [a - b < 0] is [a < b]. *)
Lemma ltb_sub (a b : num) :
  is_nan a = false -> is_nan b = false -> ltb (a - b)%num zero = ltb a b.
Proof.
  destruct a as [x| | |], b as [y| | |]; cbn; try discriminate; try reflexivity.
  intros _ _. now rewrite Qcompare_sub.
Qed.

Lemma ltb_of_Z (d : Z) : ltb (of_Z d) zero = bool_decide (d < 0)%Z.
Proof.
  unfold ltb, of_Z, zero, Qcompare. cbn. rewrite Z.mul_1_r, Z.mul_0_l.
  destruct (Z.compare_spec d 0); case_bool_decide; try reflexivity; lia.
Qed.

Lemma leb_ltb_total (a b : num) :
  is_nan a = false -> is_nan b = false -> ltb a b = false -> leb b a = true.
Proof.
  destruct a as [x| | |], b as [y| | |]; cbn; try discriminate; try reflexivity.
  intros _ _. rewrite <- (Qcompare_antisym x y). now destruct (x ?= y)%Q.
Qed.

Lemma ltb_leb (a b : num) : ltb a b = true -> leb a b = true.
Proof.
  destruct a as [x| | |], b as [y| | |]; cbn; try discriminate; try reflexivity.
  now destruct (x ?= y)%Q.
Qed.

Lemma ltb_not_leb (a b : num) : ltb a b = true -> leb b a = false.
Proof.
  destruct a as [x| | |], b as [y| | |]; cbn; try discriminate; try reflexivity.
  rewrite <- (Qcompare_antisym x y). now destruct (x ?= y)%Q.
Qed.

Lemma leb_trans (a b c : num) : leb a b = true -> leb b c = true -> leb a c = true.
Proof.
  destruct a as [x| | |], b as [y| | |], c as [z| | |]; cbn; try discriminate; try reflexivity.
  destruct (Qcompare_spec x y), (Qcompare_spec y z), (Qcompare_spec x z);
    try discriminate; try reflexivity; intros _ _; exfalso; lra.
Qed.

(** When the comparator moves [a] in front of [b]. *)
Lemma before_compareOrders (a b : TradingOrder) :
  priced a -> priced b ->
  JsArray.before compareOrders a b =
  if decide (getOrderPriority a = getOrderPriority b)
  then ltb (to_num (price a)) (to_num (price b))
  else bool_decide (getOrderPriority a < getOrderPriority b)%Z.
Proof.
  intros Ha Hb. unfold JsArray.before, compareOrders.
  destruct (decide (getOrderPriority a - getOrderPriority b = 0)%Z) as [H | H].
  - rewrite decide_True by lia. now apply ltb_sub.
  - rewrite decide_False by lia. rewrite ltb_of_Z.
    apply bool_decide_ext. lia.
Qed.

(** The numbers that the code gives to the types follow the priority
    table. *)
Lemma priority_place (a b : TradingOrder) :
  (getOrderPriority a ?= getOrderPriority b)%Z = (place a ?= place b)%nat.
Proof.
  unfold getOrderPriority, place.
  destruct (type a) as [[]|], (type b) as [[]|]; reflexivity.
Qed.

Lemma priority_place_lt (a b : TradingOrder) :
  (getOrderPriority a < getOrderPriority b)%Z <-> (place a < place b)%nat.
Proof. rewrite <- Z.compare_lt_iff, <- Nat.compare_lt_iff. now rewrite priority_place. Qed.

Lemma priority_place_eq (a b : TradingOrder) :
  getOrderPriority a = getOrderPriority b <-> place a = place b.
Proof. rewrite <- Z.compare_eq_iff, <- Nat.compare_eq_iff. now rewrite priority_place. Qed.

Lemma before_listed_le (a b : TradingOrder) :
  priced a -> priced b -> JsArray.before compareOrders a b = true -> listed_le a b.
Proof.
  intros Ha Hb. rewrite before_compareOrders by assumption.
  destruct (decide _) as [H | H].
  - intros Hlt. right. split; [now apply priority_place_eq | now apply ltb_leb].
  - intros Hlt. left. apply bool_decide_eq_true in Hlt. now apply priority_place_lt.
Qed.

Lemma not_before_listed_le (a b : TradingOrder) :
  priced a -> priced b -> JsArray.before compareOrders a b = false -> listed_le b a.
Proof.
  intros Ha Hb. rewrite before_compareOrders by assumption.
  destruct (decide _) as [H | H].
  - intros Hlt. right. split; [apply priority_place_eq; congruence | now apply leb_ltb_total].
  - intros Hlt. left. apply bool_decide_eq_false in Hlt. apply priority_place_lt. lia.
Qed.

Lemma listed_le_trans (a b c : TradingOrder) :
  listed_le a b -> listed_le b c -> listed_le a c.
Proof.
  unfold listed_le. intros [H1 | [H1 H1']] [H2 | [H2 H2']].
  - left. lia.
  - left. lia.
  - left. lia.
  - right. split; [congruence | eapply leb_trans; eassumption].
Qed.

Lemma insert_perm {A} (cmp : A -> A -> num) (x : A) (l : list A) :
  Permutation (JsArray.insert cmp x l) (x :: l).
Proof.
  induction l as [| y l IH]; cbn; [reflexivity |].
  destruct (JsArray.before cmp y x); [| reflexivity].
  rewrite IH. apply perm_swap.
Qed.

Lemma sort_perm {A} (cmp : A -> A -> num) (l : list A) :
  Permutation (JsArray.sort cmp l) l.
Proof.
  induction l as [| x l IH]; cbn; [reflexivity |].
  rewrite insert_perm. now constructor.
Qed.

Lemma insert_sorted (x : TradingOrder) (l : list TradingOrder) :
  priced x -> Forall priced l -> StronglySorted listed_le l ->
  StronglySorted listed_le (JsArray.insert compareOrders x l).
Proof.
  intros Hx Hl Hs. induction Hs as [| y l Hs IH Hy]; cbn.
  - repeat constructor.
  - apply Forall_cons in Hl as [Hpy Hl].
    destruct (JsArray.before compareOrders y x) eqn:Hb.
    + constructor; [now apply IH |].
      rewrite insert_perm. constructor; [| exact Hy].
      now apply before_listed_le.
    + constructor; [now constructor |].
      assert (Hxy : listed_le x y) by now apply not_before_listed_le.
      constructor; [exact Hxy |].
      eapply Forall_impl; [exact Hy |]. intros z Hz. cbn in Hz.
      eapply listed_le_trans; eassumption.
Qed.

Lemma sort_sorted (l : list TradingOrder) :
  Forall priced l -> StronglySorted listed_le (sortOrders l).
Proof.
  unfold sortOrders. induction l as [| x l IH]; cbn; intros Hl.
  - constructor.
  - apply Forall_cons in Hl as [Hx Hl]. apply insert_sorted; auto.
    now rewrite sort_perm.
Qed.

(** The sort is stable: orders of one rank stay in the order in which
    they were. *)
Lemma insert_stable (a x : TradingOrder) (l : list TradingOrder) :
  priced a -> priced x -> Forall priced l ->
  List.filter (same_rank a) (JsArray.insert compareOrders x l) =
  List.filter (same_rank a) (x :: l).
Proof.
  intros Ha Hx Hl. induction l as [| y l IH]; [reflexivity |].
  apply Forall_cons in Hl as [Hy Hl]. cbn [JsArray.insert].
  destruct (JsArray.before compareOrders y x) eqn:Hb; [| reflexivity].
  cbn [List.filter] in *. rewrite IH by assumption.
  destruct (same_rank a x) eqn:Hax; [| reflexivity].
  destruct (same_rank a y) eqn:Hay; [| reflexivity].
  exfalso. rewrite before_compareOrders in Hb by assumption.
  unfold same_rank in Hax, Hay.
  apply andb_prop in Hax as [Hax Hax3]. apply andb_prop in Hax as [Hax1 Hax2].
  apply andb_prop in Hay as [Hay Hay3]. apply andb_prop in Hay as [Hay1 Hay2].
  apply bool_decide_eq_true in Hax1, Hay1.
  rewrite decide_True in Hb by (apply priority_place_eq; congruence).
  apply ltb_not_leb in Hb.
  rewrite (leb_trans _ _ _ Hax3 Hay2) in Hb. discriminate.
Qed.

Lemma sort_stable (a : TradingOrder) (l : list TradingOrder) :
  priced a -> Forall priced l ->
  List.filter (same_rank a) (sortOrders l) = List.filter (same_rank a) l.
Proof.
  intros Ha. unfold sortOrders. induction l as [| x l IH]; cbn [JsArray.sort]; intros Hl.
  - reflexivity.
  - apply Forall_cons in Hl as [Hx Hl].
    rewrite insert_stable; auto; [| now rewrite sort_perm].
    cbn [List.filter]. now rewrite IH.
Qed.

Lemma sorted_lookup {A} (R : A -> A -> Prop) (l : list A) (i j : nat) (x y : A) :
  StronglySorted R l -> (i < j)%nat -> l !! i = Some x -> l !! j = Some y -> R x y.
Proof.
  intros Hs. revert i j x y. induction Hs as [| z l Hs IH Hz]; intros i j x y Hij Hi Hj.
  - rewrite lookup_nil in Hi. discriminate.
  - destruct j as [| j]; [lia |]. cbn in Hj. destruct i as [| i]; cbn in Hi.
    + injection Hi as <-. rewrite Forall_forall in Hz. apply Hz.
      eapply list_elem_of_lookup_2, Hj.
    + eapply IH; [| eassumption | eassumption]. lia.
Qed.

(** C4, as the code has it.  For a store in which every order has a
    price other than [NaN], [getAllOrders] lists exactly the orders of
    the store, arranged by the priority table entry, market, limit,
    stop_loss, take_profit (an order without a type behind them all) and
    by ascending price within one type; orders of one type and one price
    stay in insertion order, so that the listing is determined.  An
    order whose type stands earlier in the table is always listed before
    an order whose type stands later, an entry order before a limit
    order in particular. *)
Theorem getAllOrders_sorted (this : OrderManagerImpl.t) :
  Forall priced (JsMap.values (OrderManagerImpl.orders this)) ->
  let listing := OrderManagerImpl.getAllOrders this in
  Permutation listing (JsMap.values (OrderManagerImpl.orders this)) /\
  StronglySorted listed_le listing /\
  (forall a, priced a ->
     List.filter (same_rank a) listing =
     List.filter (same_rank a) (JsMap.values (OrderManagerImpl.orders this))) /\
  (forall i j a b,
     listing !! i = Some a -> listing !! j = Some b ->
     (place a < place b)%nat -> (i < j)%nat) /\
  (forall i j e l,
     listing !! i = Some e -> listing !! j = Some l ->
     type e = Some entry -> type l = Some limit -> (i < j)%nat).
Proof.
  intros Hp listing. subst listing. unfold OrderManagerImpl.getAllOrders.
  split; [apply sort_perm |]. split; [now apply sort_sorted |].
  split; [intros a Ha; now apply sort_stable |].
  assert (Htable : forall i j a b,
             sortOrders (JsMap.values (OrderManagerImpl.orders this)) !! i = Some a ->
             sortOrders (JsMap.values (OrderManagerImpl.orders this)) !! j = Some b ->
             (place a < place b)%nat -> (i < j)%nat).
  { intros i j a b Hi Hj Hlt.
    destruct (Nat.lt_trichotomy i j) as [H | [H | H]]; [exact H | |].
    - subst j. rewrite Hi in Hj. injection Hj as ->. lia.
    - exfalso.
      pose proof (sorted_lookup _ _ _ _ _ _ (sort_sorted _ Hp) H Hj Hi) as Hle.
      destruct Hle as [Hle | [Hle _]]; lia. }
  split; [exact Htable |].
  intros i j e l Hi Hj He Hl. apply (Htable i j e l Hi Hj).
  unfold place. rewrite He, Hl. apply Nat.ltb_lt. reflexivity.
Qed.

Lemma getAllOrders_sorted_witness :
  let this :=
    addOrders [(sampleEnv, request "a" limit buy (of_Z 44000) (of_Z 1));
               (sampleEnv, request "b" take_profit sell (of_Z 48000) (of_Z 1));
               (sampleEnv, request "c" entry buy (of_Z 44000) (of_Z 1));
               (sampleEnv, request "d" limit buy (of_Z 43000) (of_Z 1));
               (sampleEnv, request "e" stop_loss sell (of_Z 42000) (of_Z 1));
               (sampleEnv, request "f" market buy (of_Z 47000) (of_Z 1))]
      (OrderManagerImpl.new None) in
  map id (OrderManagerImpl.getAllOrders this) = ["c"; "f"; "d"; "a"; "e"; "b"] /\
  map place (OrderManagerImpl.getAllOrders this) = [0; 1; 2; 2; 3; 4]%nat /\
  StronglySorted listed_le (OrderManagerImpl.getAllOrders this).
Proof.
  cbn zeta. split; [reflexivity |]. split; [reflexivity |].
  refine (proj1 (proj2 (getAllOrders_sorted _ _))).
  repeat constructor.
Defined.

(** C4 as it is worded fails on a store that holds an order whose price
    is [NaN], which [addOrder] lets in.  Three limit orders created at
    the prices 5, [NaN] and 3 are listed in that order, the order at 5
    before the order at 3. *)
Lemma getAllOrders_NaN_unsorted :
  let this :=
    addOrders [(sampleEnv, request "a" limit buy (of_Z 5) (of_Z 1));
               (sampleEnv, request "b" limit buy NaN (of_Z 1));
               (sampleEnv, request "c" limit buy (of_Z 3) (of_Z 1))]
      (OrderManagerImpl.new None) in
  map id (OrderManagerImpl.getAllOrders this) = ["a"; "b"; "c"] /\
  map price (OrderManagerImpl.getAllOrders this) = [Some (of_Z 5); Some NaN; Some (of_Z 3)] /\
  map type (OrderManagerImpl.getAllOrders this) = [Some limit; Some limit; Some limit] /\
  ltb (of_Z 3) (of_Z 5) = true /\
  ~ StronglySorted listed_le (OrderManagerImpl.getAllOrders this).
Proof.
  cbn zeta. repeat split; try reflexivity.
  intros Hs. apply StronglySorted_inv in Hs as [_ Hs].
  apply Forall_cons in Hs as [_ Hs]. apply Forall_cons in Hs as [Hs _].
  destruct Hs as [Hs | [_ Hs]]; [cbv in Hs; lia | vm_compute in Hs; discriminate].
Qed.
End Sorting.

(** ** The JSON text of a value *)

Section JsonText.
Import JSON JsonFacts.

Section Digits.
Local Open Scope N_scope.

Lemma digit_char_spec (d : N) :
  d < 10 -> is_digit (digit_char d) = true /\ digit_of (digit_char d) = d.
Proof.
  intros H.
  assert (Hd : d = 0 \/ d = 1 \/ d = 2 \/ d = 3 \/ d = 4 \/ d = 5 \/ d = 6 \/ d = 7 \/
               d = 8 \/ d = 9) by lia.
  repeat (destruct Hd as [-> | Hd]; [split; reflexivity |]). subst d. split; reflexivity.
Qed.

Lemma pow10_pos (k : nat) : 0 < 10 ^ N.of_nat k.
Proof. apply N.neq_0_lt_0, N.pow_nonzero. discriminate. Qed.

Lemma pow10_succ (k : nat) : 10 ^ N.of_nat (S k) = 10 * 10 ^ N.of_nat k.
Proof. rewrite Nat2N.inj_succ. apply N.pow_succ_r'. Qed.

Lemma digits_fixed (w : nat) (n acc : N) (count : nat) (rest : text) :
  digits acc count (fixed w n ++ rest) =
  digits (acc * 10 ^ N.of_nat w + n mod 10 ^ N.of_nat w) (count + w) rest.
Proof.
  revert n acc count rest. induction w as [| w IH]; intros n acc count rest.
  - cbn [fixed app]. rewrite N.pow_0_r, N.mod_1_r, N.mul_1_r, N.add_0_r, Nat.add_0_r.
    reflexivity.
  - cbn [fixed]. rewrite <- app_assoc. rewrite IH. cbn [app digits].
    destruct (digit_char_spec (n mod 10)) as [Hd Hv]; [now apply N.mod_lt |].
    rewrite Hd, Hv. f_equal; [| lia].
    rewrite pow10_succ, (N.Div0.mod_mul_r n 10). lia.
Qed.

Lemma digits_stop (acc : N) (count : nat) (s : text) :
  match s with c :: _ => is_digit c = false | [] => True end ->
  digits acc count s = (acc, count, s).
Proof. destruct s as [| c r]; cbn; [reflexivity |]. now intros ->. Qed.

Lemma fixed_app (a b : nat) (n : N) :
  fixed (a + b) n = fixed a (n / 10 ^ N.of_nat b) ++ fixed b n.
Proof.
  revert n. induction b as [| b IH]; intros n.
  - rewrite Nat.add_0_r, N.pow_0_r, N.div_1_r. cbn. now rewrite app_nil_r.
  - rewrite Nat.add_succ_r. cbn [fixed]. rewrite IH, <- app_assoc.
    rewrite N.Div0.div_div, pow10_succ. reflexivity.
Qed.

Lemma fixed_head (b : nat) (n : N) :
  fixed (S b) n = digit_char ((n / 10 ^ N.of_nat b) mod 10) :: fixed b n.
Proof. change (S b) with (1 + b)%nat. rewrite fixed_app. reflexivity. Qed.

Lemma width_from_spec (fuel w : nat) (n : N) :
  n < 10 ^ N.of_nat (w + fuel) ->
  n < 10 ^ N.of_nat (width_from fuel w n) /\
  (width_from fuel w n = w \/ 10 ^ N.of_nat (Nat.pred (width_from fuel w n)) <= n).
Proof.
  revert w. induction fuel as [| fuel IH]; intros w Hn; cbn [width_from].
  - rewrite Nat.add_0_r in Hn. auto.
  - destruct (N.ltb_spec n (10 ^ N.of_nat w)) as [Hlt | Hge]; [auto |].
    destruct (IH (S w)) as [H1 H2]; [now rewrite Nat.add_succ_l, <- Nat.add_succ_r |].
    split; [exact H1 |]. right. destruct H2 as [-> | H2]; [exact Hge | exact H2].
Qed.

Lemma width_spec (n : N) :
  n < 10 ^ N.of_nat (width n) /\
  (1 <= width n)%nat /\
  (width n = 1%nat \/ 10 ^ N.of_nat (Nat.pred (width n)) <= n).
Proof.
  unfold width.
  assert (Hn : n < 10 ^ N.of_nat (1 + N.to_nat (N.size n))).
  { eapply N.lt_le_trans; [apply N.size_gt |].
    rewrite Nat2N.inj_add, N2Nat.id.
    eapply N.le_trans; [apply (N.pow_le_mono_l 2 10); lia |].
    apply N.pow_le_mono_r; lia. }
  destruct (width_from_spec _ _ _ Hn) as [H1 H2]. split; [exact H1 |]. split; [| exact H2].
  clear. generalize (N.to_nat (N.size n)). intros fuel.
  assert (forall w, (w <= width_from fuel w n)%nat) as H.
  { induction fuel as [| fuel IH]; intros w; cbn; [lia |].
    destruct (n <? _); [lia |]. specialize (IH (S w)). lia. }
  apply H.
Qed.
End Digits.

Section Numbers.
Local Open Scope N_scope.

Lemma parse_int_fixed (i : N) (rest : text) :
  match rest with c :: _ => is_digit c = false | [] => True end ->
  parse_int (fixed (width i) i ++ rest) = Some (i, rest).
Proof.
  intros Hrest. destruct (width_spec i) as (Hlt & Hpos & Hmin).
  unfold parse_int. rewrite digits_fixed, (digits_stop _ _ rest Hrest).
  rewrite N.mul_0_l, N.add_0_l, N.mod_small by exact Hlt. cbn [Nat.add].
  destruct (width i) as [| b] eqn:Hw; [lia |].
  rewrite fixed_head. cbn [app Nat.eqb orb].
  destruct Hmin as [Hb | Hge].
  - injection Hb as ->. cbn [Nat.eqb negb].
    now destruct (digit_char _) as [[] [] [] [] [] [] [] []].
  - cbn [Nat.pred] in Hge.
    assert (Hd : 1 <= i / 10 ^ N.of_nat b < 10).
    { pose proof (pow10_pos b). split.
      - apply N.div_le_lower_bound; lia.
      - apply N.Div0.div_lt_upper_bound. rewrite N.mul_comm, <- pow10_succ. exact Hlt. }
    rewrite N.mod_small by lia.
    assert (Hc : exists d, i / 10 ^ N.of_nat b = d /\
                   (d = 1 \/ d = 2 \/ d = 3 \/ d = 4 \/ d = 5 \/ d = 6 \/ d = 7 \/ d = 8 \/ d = 9)).
    { eexists. split; [reflexivity | lia]. }
    destruct Hc as (d & -> & Hd').
    repeat (destruct Hd' as [-> | Hd']; [reflexivity |]). subst d. reflexivity.
Qed.

Lemma places_from_spec (fuel k : nat) (den : N) (r : nat) :
  places_from fuel k den = Some r -> (10 ^ N.of_nat r) mod den = 0.
Proof.
  revert k. induction fuel as [| fuel IH]; intros k; cbn [places_from];
    destruct (N.eqb_spec ((10 ^ N.of_nat k) mod den) 0) as [H0 | H0].
  - intros [= <-]. exact H0.
  - discriminate.
  - intros [= <-]. exact H0.
  - apply IH.
Qed.

Lemma rational_spec (q : Q) (k : nat) :
  (10 ^ N.of_nat k) mod (Npos (Qden q)) = 0 ->
  let scale := 10 ^ N.of_nat k in
  let m := Z.abs_N (Qnum q) * (scale / Npos (Qden q)) in
  rational (Qnum q <? 0)%Z m scale = Qred q.
Proof.
  intros Hdiv scale m. unfold rational. apply Qred_complete.
  pose proof (pow10_pos k) as Hpos. fold scale in Hpos, Hdiv.
  assert (Hscale : scale = Npos (Qden q) * (scale / Npos (Qden q))).
  { rewrite (N.div_mod' scale (Npos (Qden q))) at 1. rewrite Hdiv. lia. }
  unfold Qeq. cbn [Qnum Qden].
  assert (Hden : Zpos (N.succ_pos (N.pred scale)) = Z.of_N scale).
  { change (Zpos (N.succ_pos (N.pred scale))) with (Z.of_N (Npos (N.succ_pos (N.pred scale)))).
    rewrite N.succ_pos_spec, N.succ_pred by lia. reflexivity. }
  rewrite Hden. subst m. set (c := scale / Npos (Qden q)) in *.
  destruct (Z.ltb_spec (Qnum q) 0); rewrite !N2Z.inj_mul, N2Z.inj_abs_N; cbn [Z.of_N]; nia.
Qed.

Lemma number_parse (q : Q) (txt rest : text) :
  number q = Some txt -> ends_number rest ->
  parse_number (txt ++ rest) = Some (Fin (Qred q), rest).
Proof.
  unfold number. destruct (places q) as [k|] eqn:Hk; [| discriminate].
  apply places_from_spec in Hk.
  set (scale := 10 ^ N.of_nat k) in *.
  set (m := Z.abs_N (Qnum q) * (scale / Npos (Qden q))).
  intros [= <-] Hrest.
  assert (Hsign : forall s,
             parse_sign (((if (Qnum q <? 0)%Z then ["-"%char] else []) ++
                          fixed (width (m / scale)) (m / scale)) ++ s) =
             ((Qnum q <? 0)%Z, fixed (width (m / scale)) (m / scale) ++ s)).
  { intros s. destruct (Qnum q <? 0)%Z; [reflexivity |]. cbn [app].
    destruct (width_spec (m / scale)) as (_ & Hpos & _).
    destruct (width (m / scale)) as [| b]; [lia |]. rewrite fixed_head. cbn [app].
    destruct (digit_char_spec ((m / scale / 10 ^ N.of_nat b) mod 10)) as [Hd _];
      [now apply N.mod_lt |].
    unfold parse_sign.
    destruct (digit_char _) as [[] [] [] [] [] [] [] []]; try reflexivity; discriminate. }
  unfold parse_number. rewrite app_assoc, <- app_assoc, Hsign. clear Hsign.
  assert (Hexp : parse_exp rest = Some (1, 1, rest)).
  { unfold parse_exp. destruct rest as [| c r]; [reflexivity |].
    destruct Hrest as (_ & _ & ->). reflexivity. }
  destruct k as [| k'].
  - rewrite app_nil_l.
    rewrite parse_int_fixed by (destruct rest; [exact I | apply Hrest]).
    cbn [mbind option_bind].
    assert (Hfrac : parse_frac rest = Some (0, 0%nat, rest)).
    { unfold parse_frac. destruct rest as [| c r]; [reflexivity |].
      destruct Hrest as (_ & Hdot & _).
      destruct c as [[] [] [] [] [] [] [] []]; try reflexivity. congruence. }
    rewrite Hfrac. cbn [mbind option_bind]. rewrite Hexp. cbn [mbind option_bind].
    do 3 f_equal. rewrite <- (rational_spec q 0 Hk). fold scale m.
    f_equal. all: subst scale; rewrite ?N.pow_0_r, ?N.div_1_r; lia.
  - rewrite parse_int_fixed by reflexivity. cbn [mbind option_bind].
    unfold parse_frac. cbn [app]. rewrite digits_fixed.
    rewrite (digits_stop _ _ rest) by (destruct rest; [exact I | apply Hrest]).
    cbn [Nat.add Nat.eqb]. cbn [mbind option_bind]. rewrite Hexp. cbn [mbind option_bind].
    do 3 f_equal. rewrite <- (rational_spec q (S k') Hk). fold scale m.
    pose proof (N.div_mod' m scale) as Hm.
    f_equal; rewrite ?N.mul_0_l, ?N.add_0_l, ?N.mul_1_r, ?N.Div0.mod_mod; lia.
Qed.
End Numbers.

Section Strings.
Lemma parse_string_escape (c : ascii) (tail : text) :
  parse_string (escape_char c ++ tail) = push c (parse_string tail).
Proof. destruct c as [[] [] [] [] [] [] [] []]; reflexivity. Qed.

Lemma parse_string_quote (cs : list ascii) (rest : text) :
  parse_string (flat_map escape_char cs ++ dquote :: rest) = Some (cs, rest).
Proof.
  induction cs as [| c cs IH]; [reflexivity |].
  cbn [flat_map]. rewrite <- app_assoc, parse_string_escape, IH. reflexivity.
Qed.
End Strings.

Section Values.

(** Induction on values, through the lists of arrays and objects. *)
Lemma JsValue_nested_ind (P : JsValue -> Prop) :
  P JUndefined -> P JNull -> (forall b, P (JBool b)) -> (forall n, P (JNumber n)) ->
  (forall s, P (JString s)) ->
  (forall items, Forall P items -> P (JArray items)) ->
  (forall props, Forall (fun m => P (snd m)) props -> P (JObject props)) ->
  forall v, P v.
Proof.
  intros Hu Hn Hb Hnum Hs Ha Ho.
  fix IH 1. intros [| | b | n | s | items | props].
  - exact Hu.
  - exact Hn.
  - apply Hb.
  - apply Hnum.
  - apply Hs.
  - apply Ha. induction items as [| x items IHl]; constructor; [apply IH | exact IHl].
  - apply Ho. induction props as [| [k x] props IHl]; constructor; [apply IH | exact IHl].
Qed.

Lemma skip_ws_nl (ind : nat) (s : text) : skip_ws (nl ind ++ s) = skip_ws s.
Proof.
  unfold nl. cbn [app skip_ws]. change (is_ws "010") with true. cbn iota.
  induction (2 * ind)%nat as [| n IH]; [reflexivity | exact IH].
Qed.

Lemma skip_ws_starts (t s : text) : starts t -> skip_ws (t ++ s) = t ++ s.
Proof. destruct t as [| c t]; [contradiction |]. intros (H & _). cbn. now rewrite H. Qed.

Lemma parse_value_ws (fuel : nat) (s s' : text) :
  skip_ws s = skip_ws s' -> parse_value fuel s = parse_value fuel s'.
Proof. intros H. destruct fuel; [reflexivity |]. cbn [parse_value]. now rewrite H. Qed.

Lemma skip_ws_idem (s : text) : skip_ws (skip_ws s) = skip_ws s.
Proof.
  induction s as [| c s IH]; [reflexivity |]. cbn. destruct (is_ws c) eqn:H; [exact IH |].
  cbn. now rewrite H.
Qed.

Lemma ends_number_comma (s : text) : ends_number (","%char :: s).
Proof. repeat split; discriminate. Qed.

Lemma ends_number_nl (ind : nat) (s : text) : ends_number (nl ind ++ s).
Proof. repeat split; discriminate. Qed.

Lemma parses_null : parses null_text JNull 1.
Proof. intros [| fuel] rest Hf _; [lia | reflexivity]. Qed.

Lemma parses_bool (b : bool) txt : serialize 0 (JBool b) = Some txt -> parses txt (JBool b) 1.
Proof. destruct b; intros [= <-] [| fuel] rest Hf _; try lia; reflexivity. Qed.

Lemma number_starts (q : Q) (t : text) :
  number q = Some t ->
  exists c r, t = c :: r /\ (c = "-"%char \/ is_digit c = true).
Proof.
  unfold number. destruct (places q) as [k|]; [| discriminate]. intros [= <-].
  destruct (_ <? _)%Z; [eexists _, _; split; [reflexivity | now left] |].
  cbn [app]. match goal with |- context [fixed (width ?i) ?i] => 
    destruct (width_spec i) as (_ & Hpos & _); destruct (width i) as [| b]; [lia |];
    rewrite (fixed_head b i) end.
  eexists _, _. split; [reflexivity |]. right.
  apply digit_char_spec. apply N.mod_lt. discriminate.
Qed.

Lemma parse_value_number (fuel : nat) (c : ascii) (r : text) :
  c = "-"%char \/ is_digit c = true ->
  parse_value (S fuel) (c :: r) =
  match parse_number (c :: r) with
  | Some (n, r') => Some (JNumber n, r')
  | None => None
  end.
Proof.
  intros H.
  destruct c as [[] [] [] [] [] [] [] []];
    try reflexivity; exfalso; destruct H as [H | H]; discriminate.
Qed.

Lemma parses_number (q : Q) (t : text) :
  number q = Some t -> parses t (JNumber (Fin (Qred q))) 1.
Proof.
  intros Hn [| fuel] rest Hf Hrest; [lia |].
  destruct (number_starts q t Hn) as (c & r & -> & Hc).
  cbn [app]. rewrite parse_value_number by exact Hc.
  change (c :: r ++ rest) with ((c :: r) ++ rest).
  now rewrite (number_parse q _ rest Hn Hrest).
Qed.

Lemma parses_string (s : string) : parses (quote s) (JString s) 1.
Proof.
  intros [| fuel] rest Hf _; [lia |].
  unfold quote. cbn [app parse_value skip_ws]. change (is_ws dquote) with false. cbn iota.
  change (code dquote) with 34%N. cbn iota.
  rewrite <- app_assoc. cbn [app]. rewrite parse_string_quote. cbn.
  now rewrite string_of_list_ascii_of_string.
Qed.

Lemma serialize_array (ind : nat) (items : list JsValue) :
  serialize ind (JArray items) = Some (bracket "[" "]" ind (map (item_text ind) items)).
Proof.
  cbn [serialize]. apply f_equal. apply f_equal. induction items as [| x items IH]; [reflexivity |].
  cbn [map]. now rewrite IH.
Qed.

Lemma normalize_array (items : list JsValue) :
  normalize (JArray items) = JArray (map item_value items).
Proof.
  cbn [normalize]. apply f_equal. induction items as [| x items IH]; [reflexivity |].
  cbn [map]. rewrite IH. now destruct x.
Qed.

Lemma weight_array (vs : list JsValue) :
  weight (JArray vs) = S (list_sum (map (fun v => S (weight v)) vs)).
Proof.
  cbn [weight]. apply f_equal. induction vs as [| x vs IH]; [reflexivity |].
  cbn in *. rewrite IH. reflexivity.
Qed.

Lemma serialize_None (ind : nat) (x : JsValue) :
  serialize ind x = None <-> x = JUndefined.
Proof.
  destruct x as [| | [] | [] | | |]; cbn; split; try discriminate; reflexivity.
Qed.

Lemma serialize_object (ind : nat) (props : list (string * JsValue)) :
  serialize ind (JObject props) =
  Some (bracket "{" "}" ind
          (map (fun m => member (fst m) (item_text ind (snd m))) (List.filter is_defined props))).
Proof.
  cbn [serialize]. apply f_equal. apply f_equal. induction props as [| [k x] props IH]; [reflexivity |].
  cbn [List.filter]. unfold is_defined at 1. cbn [snd].
  destruct (serialize (S ind) x) as [t|] eqn:Hx.
  - rewrite IH. unfold item_text. destruct x; try discriminate; cbn [map fst snd];
      now rewrite Hx.
  - apply serialize_None in Hx as ->. exact IH.
Qed.

Lemma normalize_object (props : list (string * JsValue)) :
  normalize (JObject props) =
  JObject (map (fun m => (fst m, normalize (snd m))) (List.filter is_defined props)).
Proof.
  cbn [normalize]. apply f_equal. induction props as [| [k x] props IH]; [reflexivity |].
  cbn [List.filter]. unfold is_defined at 1. cbn [snd]. rewrite IH. now destruct x.
Qed.

Lemma weight_object (ms : list (string * JsValue)) :
  weight (JObject ms) = S (list_sum (map (fun m => S (weight (snd m))) ms)).
Proof.
  cbn [weight]. apply f_equal. induction ms as [| [k x] ms IH]; [reflexivity |].
  cbn in *. rewrite IH. reflexivity.
Qed.

Lemma bracket_app (o c : ascii) (ind : nat) (m : text) (ms : list text) (rest : text) :
  bracket o c ind (m :: ms) ++ rest =
  o :: nl (S ind) ++ m ++
  flat_map (fun t => ","%char :: nl (S ind) ++ t) ms ++ nl ind ++ c :: rest.
Proof. unfold bracket. cbn [app]. now rewrite <- !app_assoc. Qed.

Lemma parse_elements_items (ind : nat) (items : list JsValue) (x : JsValue) (rest : text)
    (fuel : nat) :
  Forall (fun y => parses (item_text ind y) (item_value y) (weight (item_value y)))
         (x :: items) ->
  (list_sum (map (fun v => S (weight v)) (map item_value (x :: items))) <= fuel)%nat ->
  parse_elements fuel
    (nl (S ind) ++ item_text ind x ++
     flat_map (fun t => ","%char :: nl (S ind) ++ t) (map (item_text ind) items) ++
     nl ind ++ "]"%char :: rest) =
  Some (map item_value (x :: items), rest).
Proof.
  revert x fuel. induction items as [| y items IH]; intros x fuel Hall Hfuel;
    apply Forall_cons in Hall as [Hx Hall]; cbn -[weight item_value] in Hfuel;
    (destruct fuel as [| f]; [lia |]); cbn [parse_elements];
    rewrite (parse_value_ws f _ (item_text ind x ++ _) (skip_ws_nl _ _)).
  - cbn [map flat_map app]. rewrite (Hx f _) by (try lia; apply ends_number_nl).
    cbn [mbind option_bind]. rewrite skip_ws_nl. reflexivity.
  - cbn [map flat_map]. rewrite <- app_assoc.
    rewrite (Hx f _) by (try lia; apply ends_number_comma).
    cbn [mbind option_bind app skip_ws]. change (is_ws ",") with false. cbn iota.
    change (code ",") with 44%N. cbn iota.
    rewrite <- app_assoc.
    rewrite (IH y f Hall) by (cbn -[weight item_value]; lia). reflexivity.
Qed.

Lemma parses_array (ind : nat) (items : list JsValue) :
  Forall (fun y => parses (item_text ind y) (item_value y) (weight (item_value y))) items ->
  Forall (fun y => starts (item_text ind y)) items ->
  parses (bracket "[" "]" ind (map (item_text ind) items))
         (JArray (map item_value items)) (weight (JArray (map item_value items))).
Proof.
  intros Hall Hstarts fuel rest Hfuel _. rewrite weight_array in Hfuel.
  destruct fuel as [| f]; [lia |].
  destruct items as [| x items]; [reflexivity |].
  cbn [map]. rewrite bracket_app. cbn [parse_value skip_ws].
  change (is_ws "[") with false. cbn iota. change (code "[") with 91%N. cbn iota.
  rewrite skip_ws_nl. apply Forall_cons in Hstarts as [Hsx _].
  rewrite skip_ws_starts by exact Hsx.
  rewrite (parse_elements_items ind items x rest f Hall)
    by (cbn -[weight item_value] in *; lia).
  destruct (item_text ind x) as [| c t]; [contradiction |].
  destruct Hsx as (_ & Hc & _). cbn [app].
  rewrite (proj2 (N.eqb_neq _ _) Hc). reflexivity.
Qed.

Lemma parse_members_props (ind : nat) (ms : list (string * JsValue)) (m : string * JsValue)
    (rest : text) (fuel : nat) :
  Forall (fun y => parses (item_text ind (snd y)) (item_value (snd y))
                     (weight (item_value (snd y)))) (m :: ms) ->
  (list_sum (map (fun y => S (weight (snd y))) (map member_value (m :: ms))) <= fuel)%nat ->
  parse_members fuel
    (nl (S ind) ++ member_text ind m ++
     flat_map (fun t => ","%char :: nl (S ind) ++ t) (map (member_text ind) ms) ++
     nl ind ++ "}"%char :: rest) =
  Some (map member_value (m :: ms), rest).
Proof.
  revert m fuel. induction ms as [| y ms IH]; intros [k x] fuel Hall Hfuel;
    apply Forall_cons in Hall as [Hx Hall]; cbn [snd] in Hx;
    cbn -[weight item_value] in Hfuel;
    (destruct fuel as [| f]; [lia |]); cbn [parse_members];
    rewrite skip_ws_nl; unfold member_text at 1, member, quote; cbn [fst snd app skip_ws];
    change (is_ws dquote) with false; cbn iota; change (code dquote =? 34)%N with true;
    cbn iota; rewrite <- !app_assoc; cbn [app]; rewrite parse_string_quote;
    cbn [mbind option_bind skip_ws]; change (is_ws ":") with false; cbn iota;
    change (code ":" =? 58)%N with true; cbn iota;
    rewrite (parse_value_ws f (" "%char :: _) (item_text ind x ++ _))
      by reflexivity;
    rewrite string_of_list_ascii_of_string.
  - cbn [map flat_map app]. rewrite (Hx f _) by (try lia; apply ends_number_nl).
    cbn [mbind option_bind]. rewrite skip_ws_nl. reflexivity.
  - cbn [map flat_map]. rewrite <- app_assoc.
    rewrite (Hx f _) by (try lia; apply ends_number_comma).
    cbn [mbind option_bind app skip_ws]. change (is_ws ",") with false. cbn iota.
    change (code ",") with 44%N. cbn iota.
    rewrite <- app_assoc.
    rewrite (IH y f Hall) by (cbn -[weight item_value]; lia). reflexivity.
Qed.

Lemma set_fresh {V} (k : string) (v : V) (m : JsMap.t V) :
  JsMap.get k m = None -> JsMap.set k v m = m ++ [(k, v)].
Proof.
  induction m as [| [k' v'] m IH]; cbn; [reflexivity |].
  destruct (decide (k' = k)); [discriminate |]. intros H. now rewrite IH.
Qed.

Lemma fold_set_nodup (ms acc : list (string * JsValue)) :
  NoDup (map fst (acc ++ ms)) ->
  fold_left (fun a m => JsMap.set (fst m) (snd m) a) ms acc = acc ++ ms.
Proof.
  revert acc. induction ms as [| [k v] ms IH]; intros acc Hnd; cbn [fold_left].
  - now rewrite app_nil_r.
  - cbn [fst snd]. rewrite set_fresh.
    + rewrite IH; rewrite <- app_assoc; [reflexivity | exact Hnd].
    + apply get_None_keys. unfold JsMap.keys.
      rewrite map_app in Hnd. cbn [map fst] in Hnd.
      apply NoDup_app in Hnd as (_ & Hd & _). intros Hin. apply (Hd k Hin). left.
Qed.

Lemma object_of_nodup (ms : list (string * JsValue)) :
  NoDup (map fst ms) -> object_of ms = JObject ms.
Proof. intros H. unfold object_of. now rewrite (fold_set_nodup ms []). Qed.

Lemma parses_object (ind : nat) (ms : list (string * JsValue)) :
  Forall (fun y => parses (item_text ind (snd y)) (item_value (snd y))
                     (weight (item_value (snd y)))) ms ->
  NoDup (map fst ms) ->
  parses (bracket "{" "}" ind (map (member_text ind) ms))
         (JObject (map member_value ms)) (weight (JObject (map member_value ms))).
Proof.
  intros Hall Hnd fuel rest Hfuel _. rewrite weight_object in Hfuel.
  destruct fuel as [| f]; [lia |].
  destruct ms as [| m ms]; [reflexivity |].
  cbn [map]. rewrite bracket_app. cbn [parse_value skip_ws].
  change (is_ws "{") with false. cbn iota. change (code "{") with 123%N. cbn iota.
  rewrite (parse_members_props ind ms m rest f Hall)
    by (cbn -[weight item_value] in *; lia).
  rewrite skip_ws_nl. unfold member_text at 1, member, quote. cbn [app skip_ws].
  change (is_ws dquote) with false. cbn iota. change (code dquote =? 125)%N with false.
  cbn iota. cbn [mbind option_bind]. rewrite object_of_nodup; [reflexivity |].
  rewrite map_map. cbn [member_value fst]. exact Hnd.
Qed.

Lemma starts_quote (s : string) : starts (quote s).
Proof. repeat split; discriminate. Qed.

Lemma starts_number (q : Q) (t : text) : number q = Some t -> starts t.
Proof.
  intros H. destruct (number_starts q t H) as (c & r & -> & Hc). cbn.
  destruct c as [[] [] [] [] [] [] [] []]; try (repeat split; discriminate);
    exfalso; destruct Hc as [Hc | Hc]; discriminate.
Qed.

(** The text of a representable value parses back to what the round trip
    keeps of it. *)
Lemma serialize_parses (v : JsValue) :
  forall ind t,
    representable v -> serialize ind v = Some t ->
    parses t (normalize v) (weight (normalize v)) /\ starts t.
Proof.
  induction v as [| | b | n | s | items IH | props IH] using JsValue_nested_ind;
    intros ind t Hrep Hser.
  - discriminate.
  - injection Hser as <-. split; [apply parses_null | repeat split; discriminate].
  - split; [destruct b; injection Hser as <-; intros [| fuel] rest Hf _;
            cbn in Hf; try lia; reflexivity |].
    destruct b; injection Hser as <-; repeat split; discriminate.
  - destruct n as [q| | |]; cbn in Hser; injection Hser as <-;
      try (split; [apply parses_null | repeat split; discriminate]).
    cbn in Hrep. destruct Hrep as [k Hk]. unfold number at 1 2. rewrite Hk. cbn [default].
    assert (Hn : number q = Some (default null_text (number q)))
      by (unfold number; rewrite Hk; reflexivity).
    unfold number in Hn at 2. rewrite Hk in Hn. cbn [default] in Hn.
    split; [exact (parses_number q _ Hn) | exact (starts_number q _ Hn)].
  - injection Hser as <-. split; [apply parses_string | apply starts_quote].
  - rewrite serialize_array in Hser. injection Hser as <-. rewrite normalize_array.
    assert (Hitems : Forall (fun y => parses (item_text ind y) (item_value y)
                                        (weight (item_value y)) /\
                                      starts (item_text ind y)) items).
    { cbn in Hrep. induction IH as [| x items Hx _ IHl]; constructor.
      - destruct Hrep as [Hrx _]. unfold item_text.
        destruct (serialize (S ind) x) as [tx|] eqn:Hsx.
        + destruct (Hx (S ind) tx Hrx Hsx) as [Hp Hs]. cbn [default].
          destruct x; try discriminate; split; assumption.
        + apply serialize_None in Hsx as ->. cbn.
          split; [apply parses_null | repeat split; discriminate].
      - apply IHl. apply Hrep. }
    split; [apply parses_array; eapply Forall_impl; try exact Hitems; intros y Hy; apply Hy |].
    destruct items; repeat split; discriminate.
  - rewrite serialize_object in Hser. injection Hser as <-. rewrite normalize_object.
    cbn in Hrep. destruct Hrep as [Hnd Hrep].
    assert (Hkeep : Forall (fun y => parses (item_text ind (snd y)) (item_value (snd y))
                                       (weight (item_value (snd y))))
                      (List.filter is_defined props)).
    { induction IH as [| [k x] props Hx _ IHl]; [constructor |].
      cbn [List.filter]. unfold is_defined at 1. cbn [snd] in *.
      destruct Hrep as [Hrx Hrep]. apply NoDup_cons in Hnd as [_ Hnd].
      specialize (IHl Hnd Hrep).
      destruct x; try exact IHl; constructor; try exact IHl; cbn [snd];
        unfold item_text;
        match goal with |- parses (default _ (serialize ?i ?y)) _ _ =>
          destruct (serialize i y) as [ty|] eqn:Hsy;
            [| apply serialize_None in Hsy; discriminate];
          exact (proj1 (Hx i ty Hrx Hsy)) end. }
    assert (Hnd' : NoDup (map fst (List.filter is_defined props))).
    { clear -Hnd. induction props as [| [k x] props IHl]; [constructor |].
      cbn [map fst] in Hnd. apply NoDup_cons in Hnd as [Hk Hnd].
      cbn [List.filter]. destruct (is_defined (k, x)); [| now apply IHl].
      cbn [map fst]. apply NoDup_cons. split; [| now apply IHl].
      intros Hin. apply Hk. apply list_elem_of_fmap in Hin as ([k' x'] & -> & Hin).
      apply list_elem_of_fmap. exists (k', x'). split; [reflexivity |].
      apply list_elem_of_In, filter_In in Hin as [Hin _]. now apply list_elem_of_In. }
    assert (Hvals : map (fun m => (fst m, normalize (snd m))) (List.filter is_defined props) =
                    map member_value (List.filter is_defined props)).
    { apply map_ext_in. intros [k x] Hin. apply filter_In in Hin as [_ Hd].
      unfold member_value, item_value, is_defined in *. cbn [fst snd] in *.
      now destruct x. }
    rewrite Hvals.
    split; [exact (parses_object ind _ Hkeep Hnd') |].
    destruct (List.filter is_defined props); repeat split; discriminate.
Qed.

Lemma bracket_length (o c : ascii) (ind : nat) (ts : list text) :
  (2 + list_sum (map (fun t => S (length t)) ts) <= length (bracket o c ind ts))%nat.
Proof.
  destruct ts as [| m ms]; [cbn; lia |].
  unfold bracket. cbn [length map list_sum]. rewrite !length_app. cbn [length nl].
  assert (H : (list_sum (map (fun t => S (length t)) ms) <=
               length (flat_map (fun t => ","%char :: nl (S ind) ++ t) ms))%nat).
  { induction ms as [| x ms IH]; [cbn; lia |].
    cbn [flat_map map list_sum]. cbn [app length]. rewrite !length_app. 
    change (list_sum (?a :: ?l)) with (a + list_sum l)%nat. lia. }
  change (list_sum (?a :: ?l)) with (a + list_sum l)%nat. lia.
Qed.

Lemma list_sum_le {A} (f g : A -> nat) (l : list A) :
  Forall (fun x => (f x <= g x)%nat) l ->
  (list_sum (map f l) <= list_sum (map g l))%nat.
Proof.
  induction 1 as [| x l Hx _ IH]; [reflexivity |].
  cbn [map]. change (list_sum (?a :: ?l)) with (a + list_sum l)%nat. lia.
Qed.

Lemma weight_length (v : JsValue) :
  forall ind t, serialize ind v = Some t -> (weight (normalize v) <= length t)%nat.
Proof.
  induction v as [| | b | n | s | items IH | props IH] using JsValue_nested_ind;
    intros ind t Hser.
  - discriminate.
  - injection Hser as <-. cbn. lia.
  - destruct b; injection Hser as <-; cbn; lia.
  - assert (Hl : (1 <= length t)%nat).
    { destruct n as [q| | |]; cbn in Hser; injection Hser as <-; try (cbn; lia).
      destruct (number q) as [tq|] eqn:Hq; [| cbn; lia].
      destruct (number_starts q tq Hq) as (c & r & -> & _). cbn. lia. }
    destruct n; cbn; lia.
  - injection Hser as <-. unfold quote. cbn. lia.
  - rewrite serialize_array in Hser. injection Hser as <-.
    rewrite normalize_array, weight_array, map_map.
    pose proof (bracket_length "[" "]" ind (map (item_text ind) items)) as Hb.
    rewrite map_map in Hb.
    assert (Hle : (list_sum (map (fun x => S (weight (item_value x))) items) <=
                   list_sum (map (fun x => S (length (item_text ind x))) items))%nat).
    { apply list_sum_le. eapply Forall_impl; [exact IH |]. intros x Hx. cbn beta in *.
      unfold item_text. destruct (serialize (S ind) x) as [tx|] eqn:Hsx.
      - specialize (Hx _ _ Hsx). cbn [default]. destruct x; try discriminate; cbn in *; lia.
      - apply serialize_None in Hsx as ->. cbn. lia. }
    lia.
  - rewrite serialize_object in Hser. injection Hser as <-.
    rewrite normalize_object, weight_object, map_map.
    pose proof (bracket_length "{" "}" ind
                  (map (fun m => member (fst m) (item_text ind (snd m)))
                       (List.filter is_defined props))) as Hb.
    rewrite map_map in Hb.
    assert (Hle : (list_sum (map (fun x => S (weight (snd (fst x, normalize (snd x)))))
                               (List.filter is_defined props)) <=
                   list_sum (map (fun x => S (length (member (fst x) (item_text ind (snd x)))))
                               (List.filter is_defined props)))%nat).
    { apply list_sum_le. apply Forall_forall. intros [k x] Hin.
      apply list_elem_of_In, filter_In in Hin as [Hin Hd]. cbn [fst snd].
      rewrite Forall_forall in IH. specialize (IH (k, x) (proj2 (list_elem_of_In _ _) Hin)).
      cbn [snd] in IH. unfold member. rewrite !length_app.
      unfold item_text. destruct (serialize (S ind) x) as [tx|] eqn:Hsx.
      - specialize (IH _ _ Hsx). cbn [default]. unfold id. lia.
      - apply serialize_None in Hsx as ->. discriminate. }
    lia.
Qed.

(** Stringify, then parse: a representable value comes back as what the
    round trip keeps of it. *)
Lemma parse_stringify (v : JsValue) (s : string) :
  representable v -> stringify v = Some s -> parse s = Some (normalize v).
Proof.
  unfold stringify, parse. intros Hrep Hs.
  destruct (serialize 0 v) as [t|] eqn:Ht; [| discriminate]. injection Hs as <-.
  rewrite list_ascii_of_string_of_list_ascii.
  destruct (serialize_parses v 0 t Hrep Ht) as [Hp _].
  pose proof (weight_length v 0 t Ht) as Hw.
  specialize (Hp (S (length t)) [] ltac:(lia) I). rewrite app_nil_r in Hp.
  now rewrite Hp.
Qed.
End Values.
End JsonText.

(** ** Export and import *)

Section Persistence.
Import JSON JsonFacts OrderPersistence.

Lemma get_normalized (props : list (string * JsValue)) (k : string) :
  NoDup (map fst props) ->
  JsMap.get k (map (fun m => (fst m, normalize (snd m))) (List.filter is_defined props)) =
  JsMap.get k props ≫= kept.
Proof.
  induction props as [| [k' x] props IH]; [reflexivity |].
  cbn [map fst]. intros Hnd. apply NoDup_cons in Hnd as [Hk Hnd].
  cbn [List.filter JsMap.get]. unfold is_defined at 1. cbn [snd].
  destruct (decide (k' = k)) as [-> | Hne].
  - destruct x; cbn [map fst snd JsMap.get]; rewrite ?decide_True by reflexivity;
      try reflexivity.
    cbn. apply get_None_keys. unfold JsMap.keys. rewrite map_map. cbn [fst].
    intros Hin. apply Hk. apply list_elem_of_fmap in Hin as ([k' x'] & -> & Hin).
    apply list_elem_of_fmap. exists (k', x'). split; [reflexivity |].
    apply list_elem_of_In, filter_In in Hin as [Hin _]. now apply list_elem_of_In.
  - destruct x; cbn [map fst snd JsMap.get]; rewrite ?decide_False by exact Hne;
      now apply IH.
Qed.

Lemma Qred_inject_Z (z : Z) : Qred (inject_Z z) = inject_Z z.
Proof.
  unfold Qred, inject_Z.
  pose proof (Z.ggcd_gcd z 1) as Hg. pose proof (Z.ggcd_correct_divisors z 1) as Hd.
  destruct (Z.ggcd z 1) as (g & a & b). cbn [fst snd] in *.
  rewrite Z.gcd_1_r in Hg. subst g. destruct Hd as [Ha Hb].
  assert (a = z) as -> by lia. assert (b = 1%Z) as -> by lia. reflexivity.
Qed.

Lemma number_field (p : option num) :
  json_number p -> optional as_number (Some (property JNumber p) ≫= kept) = Some p.
Proof.
  destruct p as [[q| | |]|]; cbn; try contradiction; try reflexivity.
  intros [_ ->]. reflexivity.
Qed.

Lemma string_field (s : option string) :
  optional as_string (Some (property JString s) ≫= kept) = Some s.
Proof. destruct s; reflexivity. Qed.

Lemma data_field (d : option JsValue) :
  json_data d -> optional Some (Some (property (fun v => v) d) ≫= kept) = Some d.
Proof.
  destruct d as [v|]; [| reflexivity]. intros (_ & Hn & Hu). cbn [property mbind option_bind].
  destruct v; try contradiction; cbn [kept mbind option_bind]; rewrite Hn; reflexivity.
Qed.

Lemma objectOf_keys (o : TradingOrder) :
  match objectOf o with JObject props => NoDup (map fst props) | _ => False end.
Proof. cbn. apply (bool_decide_unpack _). vm_compute. reflexivity. Qed.

(** An order comes back, field by field, from what the round trip keeps
    of its object. *)
Lemma orderOf_objectOf (o : TradingOrder) :
  json_representable o -> orderOf (normalize (objectOf o)) = Some o.
Proof.
  pose proof (objectOf_keys o) as Hnd. revert Hnd.
  destruct o as [id type side price quantity symbol status timestamp text customData
                   entryPrice stopLoss takeProfit pnl unrealizedPnl fees fillPrice
                   fillQuantity].
  unfold json_representable, objectOf. cbn [TradingOrder.id TradingOrder.type
    TradingOrder.side TradingOrder.price TradingOrder.quantity TradingOrder.symbol
    TradingOrder.status TradingOrder.timestamp TradingOrder.text TradingOrder.customData
    TradingOrder.entryPrice TradingOrder.stopLoss TradingOrder.takeProfit TradingOrder.pnl
    TradingOrder.unrealizedPnl TradingOrder.fees TradingOrder.fillPrice
    TradingOrder.fillQuantity].
  intros Hnd (Hprice & Hqty & Hentry & Hsl & Htp & Hpnl & Hupnl & Hfees & Hfp & Hfq & Hdata).
  rewrite normalize_object. unfold orderOf. cbv zeta.
  rewrite !(get_normalized _ _ Hnd).
  repeat match goal with
         | |- context [JsMap.get ?k ?l] =>
             let v := constr:(JsMap.get k l) in
             let v' := eval cbv -[property of_Z status_name type_name side_name] in v in
             change v with v'
         end.
  rewrite !number_field by assumption. rewrite !string_field. rewrite data_field by assumption.
  assert (Ht : optional as_type
                 (Some (property (fun t => JString (type_name t)) type) ≫= kept) = Some type)
    by (destruct type as [[]|]; reflexivity).
  assert (Hs : optional as_side
                 (Some (property (fun s => JString (side_name s)) side) ≫= kept) = Some side)
    by (destruct side as [[]|]; reflexivity).
  assert (Hst : as_status (JString (status_name status)) = Some status)
    by (destruct status; reflexivity).
  rewrite Ht, Hs.
  unfold of_Z. cbn [required mbind option_bind kept normalize as_string as_integer].
  rewrite Qred_inject_Z. cbn [inject_Z Qden Qnum]. rewrite decide_True by reflexivity.
  rewrite Hst. reflexivity.
Qed.

Lemma objectOf_representable (o : TradingOrder) :
  json_representable o -> representable (objectOf o).
Proof.
  intros (Hprice & Hqty & Hentry & Hsl & Htp & Hpnl & Hupnl & Hfees & Hfp & Hfq & Hdata).
  assert (Hnum : forall p, json_number p -> representable (property JNumber p)).
  { intros [[q| | |]|]; cbn; try tauto. }
  split; [exact (objectOf_keys o) |].
  repeat (split; [first [ apply Hnum; assumption | exact I | idtac ] |]); try exact I.
  all: try (destruct (TradingOrder.type o) as [[]|]; exact I).
  all: try (destruct (TradingOrder.side o) as [[]|]; exact I).
  all: try (destruct (TradingOrder.symbol o); exact I).
  all: try (destruct (TradingOrder.text o); exact I).
  all: try (eexists; reflexivity).
  destruct (TradingOrder.customData o) as [v|]; [apply Hdata | exact I].
Qed.

Lemma exportOrders_text (orders : list TradingOrder) :
  JSON.stringify (JArray (map objectOf orders)) = Some (exportOrders orders).
Proof. unfold exportOrders, stringify. now rewrite serialize_array. Qed.

(** C9.  For every list of orders that JSON can carry, importing the text
    that [exportOrders] makes of the list gives, order by order, the
    object of the order without its unset properties, and reading these
    objects as orders gives the list back. *)
Theorem export_import_roundtrip (orders : list TradingOrder) :
  Forall json_representable orders ->
  importOrders (exportOrders orders) = map (fun o => normalize (objectOf o)) orders /\
  map orderOf (importOrders (exportOrders orders)) = map Some orders.
Proof.
  intros Hall.
  assert (Hrep : representable (JArray (map objectOf orders))).
  { cbn. induction Hall as [| o orders Ho _ IH]; [exact I |].
    split; [now apply objectOf_representable | exact IH]. }
  assert (Himport : importOrders (exportOrders orders) =
                    map (fun o => normalize (objectOf o)) orders).
  { unfold importOrders.
    rewrite (parse_stringify _ _ Hrep (exportOrders_text orders)), normalize_array.
    rewrite map_map. reflexivity. }
  split; [exact Himport |]. rewrite Himport, map_map. clear Hrep Himport.
  induction Hall as [| o orders Ho _ IH]; [reflexivity |].
  cbn [map]. rewrite orderOf_objectOf by exact Ho. now rewrite IH.
Qed.
Lemma export_import_roundtrip_witness :
  map orderOf (OrderPersistence.importOrders (OrderPersistence.exportOrders savedOrders)) =
  map Some savedOrders.
Proof.
  refine (proj2 (export_import_roundtrip savedOrders _)).
  repeat (apply Forall_cons; split); try apply Forall_nil.
  all: unfold json_representable; cbn; repeat split;
    try reflexivity; try (eexists; reflexivity); try discriminate;
    try (apply (bool_decide_unpack _); reflexivity).
Defined.

(** An order whose price is [NaN] is not among the orders that JSON can
    carry: the text holds [null] for the price, and [null] is what comes
    back. *)
Lemma export_import_NaN :
  let order := plainOrder "a" limit buy NaN (of_Z 1) pending in
  match OrderPersistence.importOrders (OrderPersistence.exportOrders [order]) with
  | [JObject props] => JsMap.get "price" props = Some JNull
  | _ => False
  end.
Proof. vm_compute. reflexivity. Qed.
End Persistence.

(** ** The other methods of the manager *)

Section MoreManager.
Import OrderManagerImpl.

Lemma forEach_frame {A} (f : A -> M unit) (g : A -> list Observed) (l : list A) (this : t) :
  (forall x, In x l -> f x this = (inr tt, this, g x)) ->
  forEach l f this = (inr tt, this, flat_map g l).
Proof.
  induction l as [| x l IH]; intros H; [reflexivity |].
  change (forEach (x :: l) f this) with (bind (f x) (fun _ => forEach l f) this).
  unfold bind. rewrite (H x (or_introl eq_refl)).
  rewrite IH by (intros y Hy; apply H; now right). reflexivity.
Qed.

Lemma forEach_state {A} (f : A -> M unit) (l : list A) (this : t) :
  (forall x this, snd (fst (f x this)) = this) ->
  snd (fst (forEach l f this)) = this.
Proof.
  intros H. induction l as [| x l IH]; [reflexivity |].
  change (forEach (x :: l) f this) with (bind (f x) (fun _ => forEach l f) this).
  unfold bind. specialize (H x this).
  destruct (f x this) as [[[e | a] this1] log1]; cbn in H; subst this1; [reflexivity |].
  destruct (forEach l f this) as [[r this2] log2]. exact IH.
Qed.

Lemma updateOrderOverlay_run order this :
  updateOrderOverlay order this =
  match chart this, usable_id (JsMap.get (TradingOrder.id order) (overlayIds this)) with
  | Some _, Some overlayId =>
      match getOrderStyle (theme this) (TradingOrder.side order) (TradingOrder.type order) with
      | inl e => (inl e, this, [])
      | inr orderStyle =>
          (inr tt, this,
           [observed (orders this) (overlayIds this)
              (chart_overrideOverlay overlayId (TradingOrder.price order)
                 (TradingOrder.timestamp order) (overlayData this order orderStyle))])
      end
  | _, _ => (inr tt, this, [])
  end.
Proof.
  unfold updateOrderOverlay, bind, read.
  destruct (chart this); [| reflexivity].
  destruct (usable_id _); [| reflexivity].
  destruct (getOrderStyle _ _ _); reflexivity.
Qed.

Lemma updateOrderOverlay_state order this :
  snd (fst (updateOrderOverlay order this)) = this.
Proof.
  rewrite updateOrderOverlay_run.
  destruct (chart this); [| reflexivity]. destruct (usable_id _); [| reflexivity].
  destruct (getOrderStyle _ _ _); reflexivity.
Qed.

Lemma updateOrderOverlay_refreshed order this :
  is_Some (TradingOrder.side order) ->
  updateOrderOverlay order this = (inr tt, this, refreshed this order).
Proof.
  intros [s Hs]. rewrite updateOrderOverlay_run. unfold refreshed.
  destruct (chart this); [| reflexivity]. destruct (usable_id _); [| reflexivity].
  unfold getOrderStyle. rewrite Hs. reflexivity.
Qed.

Lemma refreshAllOrders_state this : snd (fst (refreshAllOrders this)) = this.
Proof.
  unfold refreshAllOrders, bind, read.
  pose proof (forEach_state updateOrderOverlay (JsMap.values (orders this)) this
                updateOrderOverlay_state) as H.
  destruct (forEach _ _ this) as [[r this'] log]. exact H.
Qed.

Lemma refreshAllOrders_run this :
  Forall (fun order => is_Some (TradingOrder.side order)) (JsMap.values (orders this)) ->
  refreshAllOrders this =
  (inr tt, this, flat_map (refreshed this) (JsMap.values (orders this))).
Proof.
  intros Hall. unfold refreshAllOrders, bind, read.
  rewrite (forEach_frame updateOrderOverlay (refreshed this)); [reflexivity |].
  intros order Hin. apply updateOrderOverlay_refreshed.
  rewrite Forall_forall in Hall. apply Hall. now apply list_elem_of_In.
Qed.

Lemma updateOrder_run orderId updates this :
  updateOrder orderId updates this =
  match JsMap.get orderId (orders this) with
  | None => (inl (Error ("Order " +:+ orderId +:+ " not found")), this, [])
  | Some order =>
      let updatedOrder := apply_updates order updates in
      let this' := set_orders (JsMap.set orderId updatedOrder) this in
      match updateOrderOverlay updatedOrder this' with
      | (inl e, _, log) => (inl e, this', log)
      | (inr _, _, log) => (inr tt, this', log ++ notified this' orderId ev_updated updatedOrder)
      end
  end.
Proof.
  unfold updateOrder, bind at 1, read.
  destruct (JsMap.get orderId (orders this)) as [order|]; [| reflexivity].
  cbn zeta. unfold bind at 1, write.
  set (this' := set_orders _ this). set (updatedOrder := apply_updates order updates).
  unfold bind. pose proof (updateOrderOverlay_state updatedOrder this') as Hst.
  destruct (updateOrderOverlay updatedOrder this') as [[[e | []] this1] log1];
    cbn in Hst; subst this1; [reflexivity |].
  rewrite notifyCallbacks_run. reflexivity.
Qed.

Lemma handleOrderCancel_run orderId this :
  handleOrderCancel orderId this =
  match JsMap.get orderId (orders this) with
  | None => (inr tt, this, [])
  | Some _ =>
      let '(r, this', log) := updateOrder orderId status_cancelled this in
      (r, this',
       called this OrderCallback.onCancel (fun subscriber => call_onCancel subscriber orderId)
       ++ log)
  end.
Proof.
  unfold handleOrderCancel, bind at 1, read.
  destruct (JsMap.get orderId (orders this)) as [order|]; [| reflexivity].
  unfold bind.
  rewrite (forEach_emit OrderCallback.onCancel
             (fun callback => call_onCancel (OrderCallback.ref callback) orderId)).
  unfold status_cancelled. destruct (updateOrder _ _ this) as [[r this'] log]. reflexivity.
Qed.

Lemma handlePriceChange_run orderId newPrice oldPrice this :
  handlePriceChange orderId newPrice oldPrice this =
  match JsMap.get orderId (orders this) with
  | None => (inr tt, this, [])
  | Some order =>
      let moved := with_price order (Some newPrice) in
      let this' := set_orders (JsMap.set orderId moved) this in
      (inr tt, this',
       called this' OrderCallback.onPriceChange
         (fun subscriber => call_onPriceChange subscriber orderId newPrice oldPrice) ++
       notified this' orderId ev_dragged moved)
  end.
Proof.
  unfold handlePriceChange, bind at 1, read.
  destruct (JsMap.get orderId (orders this)) as [order|]; [| reflexivity].
  cbn zeta. unfold bind at 1, write. unfold bind at 1.
  rewrite (forEach_emit OrderCallback.onPriceChange
             (fun callback =>
                call_onPriceChange (OrderCallback.ref callback) orderId newPrice oldPrice)).
  rewrite notifyCallbacks_run. reflexivity.
Qed.

Lemma handleOrderClick_run orderId this :
  handleOrderClick orderId this =
  (inr tt, this,
   called this OrderCallback.onOrderClick (fun subscriber => call_onOrderClick subscriber orderId)).
Proof.
  unfold handleOrderClick, bind, read.
  rewrite (forEach_emit OrderCallback.onOrderClick
             (fun callback => call_onOrderClick (OrderCallback.ref callback) orderId)).
  reflexivity.
Qed.

(** [addOrder] on a request that passes validation: the record, then the
    overlay, then the subscribers. *)
Lemma addOrder_run env orderOptions this :
  validateOrder (buildOrder env orderOptions) = [] ->
  let order := buildOrder env orderOptions in
  let this1 := set_orders (JsMap.set (TradingOrder.id order) order) this in
  exists this2 shown,
    createOrderOverlay order this1 = (inr tt, this2, shown) /\
    addOrder env orderOptions this =
    (inr (TradingOrder.id order), this2,
     shown ++ notified this2 (TradingOrder.id order) ev_created order) /\
    orders this2 = orders this1 /\
    callbacks this2 = callbacks this /\
    overlayIds this2 =
    match chart this with
    | Some c =>
        match usable_id (fst (Chart.createOverlay c)) with
        | Some overlayId => JsMap.set (TradingOrder.id order) overlayId (overlayIds this)
        | None => overlayIds this
        end
    | None => overlayIds this
    end /\
    map effect shown =
    match chart this with
    | Some c =>
        [chart_createOverlay "trading_order" (TradingOrder.price order)
           (TradingOrder.timestamp order)
           (overlayData this1 order
              (match getOrderStyle (theme this) (TradingOrder.side order)
                       (TradingOrder.type order) with
               | inr style => style
               | inl _ => None
               end))]
    | None => []
    end.
Proof.
  intros Hvalid order this1. fold order in Hvalid.
  pose proof (proj1 (validateOrder_nil order) Hvalid) as (_ & [s Hside] & _).
  pose proof (createOrderOverlay_run order this1 s Hside) as Hrun.
  unfold addOrder. fold order. rewrite Hvalid.
  unfold bind at 1. unfold write at 1. fold this1. unfold bind at 1. rewrite Hrun.
  change (chart this1) with (chart this).
  destruct (chart this) as [c|] eqn:Hc.
  - cbn zeta. unfold bind at 1. rewrite notifyCallbacks_run.
    eexists _, _. split; [reflexivity |]. split; [cbn; rewrite app_nil_r; reflexivity |].
    unfold getOrderStyle. rewrite Hside. cbn [fst Chart.createOverlay].
    destruct (usable_id (Chart.answer c (Chart.created c))); repeat split.
  - unfold bind at 1. rewrite notifyCallbacks_run.
    eexists _, _. split; [reflexivity |]. split; [cbn; rewrite app_nil_r; reflexivity |].
    repeat split.
Qed.

End MoreManager.

Section Updates.
Import OrderManagerImpl.

(** [updateOrder].  On an id that is not in the store it throws
    [Order <id> not found] and leaves the manager and the outside as they
    are.  On an id that is in the store it never validates: whatever the
    updates are, the merged order replaces the stored one where it stands,
    and the keys and the other orders stay.  What follows depends on the
    merged order.  When it has lost its side while the overlay of its id
    is bound on an attached chart, resolving its style throws a
    [TypeError]: the merged order stays in the store, and neither the
    chart nor a subscriber is called.  In every other case the bound
    overlay is overwritten, when there is a chart, and the subscribers
    get an [updated] event with the merged order. *)
Theorem updateOrder_spec (orderId : string) (updates : OrderUpdates) (this : t) :
  match JsMap.get orderId (orders this) with
  | None =>
      updateOrder orderId updates this =
      (inl (Error ("Order " +:+ orderId +:+ " not found")), this, [])
  | Some order =>
      let updatedOrder := apply_updates order updates in
      let this' := set_orders (JsMap.set orderId updatedOrder) this in
      updateOrder orderId updates this =
      match TradingOrder.side updatedOrder, chart this,
            usable_id (JsMap.get (TradingOrder.id updatedOrder) (overlayIds this)) with
      | None, Some _, Some _ => (inl TypeError, this', [])
      | _, _, _ =>
          (inr tt, this',
           refreshed this' updatedOrder ++ notified this' orderId ev_updated updatedOrder)
      end /\
      JsMap.keys (orders this') = JsMap.keys (orders this) /\
      JsMap.get orderId (orders this') = Some updatedOrder /\
      (forall other, other <> orderId ->
         JsMap.get other (orders this') = JsMap.get other (orders this))
  end.
Proof.
  rewrite updateOrder_run.
  destruct (JsMap.get orderId (orders this)) as [order|] eqn:Hget; [| reflexivity].
  cbn zeta. split.
  - rewrite updateOrderOverlay_run. unfold refreshed, getOrderStyle.
    cbn [chart overlayIds theme set_orders].
    destruct (TradingOrder.side (apply_updates order updates)), (chart this),
      (usable_id (JsMap.get (TradingOrder.id (apply_updates order updates)) (overlayIds this)));
      reflexivity.
  - cbn [orders set_orders]. split; [| split].
    + rewrite keys_set, Hget. reflexivity.
    + apply get_set_eq.
    + intros other Hne. apply get_set_ne. congruence.
Qed.

Lemma updateOrder_spec_witness :
  let this := addOrders [(sampleEnv, request "a" limit buy (of_Z 44000) (of_Z 1))]
                (watched (Some readyChart)) in
  let updates :=
    OrderUpdates.mk None None None (Some (Some (of_Z (-5)))) None None None None None
      None None None None None None None None None in
  let no_side :=
    OrderUpdates.mk None None (Some None) None None None None None None
      None None None None None None None None None in
  let run := updateOrder "a" updates this in
  (exists order, JsMap.get "a" (orders (snd (fst run))) = Some order /\
                 validateOrder order = ["Valid price is required"]) /\
  fst (fst run) = inr tt /\
  map (fun o => match effect o with
                | chart_overrideOverlay h p _ _ => Some (h, p)
                | _ => None
                end) (snd run) = [Some ("overlay_0", Some (of_Z (-5))); None] /\
  fst (fst (updateOrder "zz" updates this)) = inl (Error "Order zz not found") /\
  fst (fst (updateOrder "a" no_side this)) = inl TypeError /\
  snd (updateOrder "a" no_side this) = [] /\
  (TradingOrder.side <$> JsMap.get "a" (orders (snd (fst (updateOrder "a" no_side this))))) =
  Some None.
Proof.
  cbn zeta.
  set (this := addOrders _ _).
  set (updates := OrderUpdates.mk None None None (Some _) _ _ _ _ _ _ _ _ _ _ _ _ _ _).
  set (no_side := OrderUpdates.mk None None (Some None) _ _ _ _ _ _ _ _ _ _ _ _ _ _ _).
  pose proof (updateOrder_spec "a" updates this) as Ha.
  pose proof (updateOrder_spec "a" no_side this) as Hn.
  pose proof (updateOrder_spec "zz" updates this) as Hz.
  change (JsMap.get "zz" (orders this)) with (@None TradingOrder) in Hz.
  change (JsMap.get "a" (orders this)) with
    (Some (buildOrder sampleEnv (request "a" limit buy (of_Z 44000) (of_Z 1)))) in Ha, Hn.
  cbn zeta in Ha, Hn. destruct Ha as (Hrun & _ & Hget & _). destruct Hn as (Hrun' & _).
  rewrite Hrun, Hrun', Hz.
  split; [eexists; split; [exact Hget | reflexivity] |].
  repeat split.
Defined.

(** [handleOrderCancel], the cancel button of an overlay.  On an id
    that is not in the store nothing happens.  On an id that is in the
    store the [onCancel] handlers run first and see the order as it was;
    then the status of the order becomes [cancelled] through
    [updateOrder]: the order stays in the store under its id and the
    bindings stay.  For an order without a side whose overlay is bound
    on an attached chart the call then throws a [TypeError], with
    nothing but the [onCancel] calls done; in every other case the
    overlay is overwritten and not removed, and the event that follows
    is [updated]. *)
Theorem handleOrderCancel_spec (orderId : string) (this : t) :
  match JsMap.get orderId (orders this) with
  | None => handleOrderCancel orderId this = (inr tt, this, [])
  | Some order =>
      let cancelledOrder := apply_updates order status_cancelled in
      let this' := set_orders (JsMap.set orderId cancelledOrder) this in
      let cancelling :=
        called this OrderCallback.onCancel (fun subscriber => call_onCancel subscriber orderId) in
      handleOrderCancel orderId this =
      match TradingOrder.side order, chart this,
            usable_id (JsMap.get (TradingOrder.id order) (overlayIds this)) with
      | None, Some _, Some _ => (inl TypeError, this', cancelling)
      | _, _, _ =>
          (inr tt, this',
           cancelling ++ refreshed this' cancelledOrder ++
           notified this' orderId ev_updated cancelledOrder)
      end /\
      TradingOrder.status cancelledOrder = cancelled /\
      JsMap.get orderId (orders this') = Some cancelledOrder /\
      JsMap.keys (orders this') = JsMap.keys (orders this) /\
      overlayIds this' = overlayIds this
  end.
Proof.
  rewrite handleOrderCancel_run, updateOrder_run.
  destruct (JsMap.get orderId (orders this)) as [order|] eqn:Hget; [| reflexivity].
  cbn zeta. split.
  - rewrite updateOrderOverlay_run. unfold refreshed, getOrderStyle.
    cbn [chart overlayIds theme set_orders].
    change (TradingOrder.side (apply_updates order status_cancelled))
      with (TradingOrder.side order).
    change (TradingOrder.id (apply_updates order status_cancelled))
      with (TradingOrder.id order).
    destruct (TradingOrder.side order), (chart this),
      (usable_id (JsMap.get (TradingOrder.id order) (overlayIds this)));
      rewrite ?app_nil_r; reflexivity.
  - split; [reflexivity |]. cbn [orders set_orders]. split; [| split].
    + apply get_set_eq.
    + rewrite keys_set, Hget. reflexivity.
    + reflexivity.
Qed.

Lemma handleOrderCancel_spec_witness :
  let this := addOrders [(sampleEnv, request "a" limit buy (of_Z 44000) (of_Z 1))]
                (watched (Some readyChart)) in
  let no_side :=
    OrderUpdates.mk None None (Some None) None None None None None None
      None None None None None None None None None in
  let sideless := snd (fst (updateOrder "a" no_side this)) in
  let run := handleOrderCancel "a" this in
  fst (fst run) = inr tt /\
  JsMap.keys (orders (snd (fst run))) = ["a"] /\
  (TradingOrder.status <$> JsMap.get "a" (orders (snd (fst run)))) = Some cancelled /\
  map (fun o => match effect o with
                | call_onCancel s k => Some (ev_cancelled, k)
                | call_onOrderEvent s k ev _ => Some (ev, k)
                | _ => None
                end) (snd run) = [Some (ev_cancelled, "a"); None; Some (ev_updated, "a")] /\
  handleOrderCancel "zz" this = (inr tt, this, []) /\
  fst (fst (handleOrderCancel "a" sideless)) = inl TypeError /\
  map effect (snd (handleOrderCancel "a" sideless)) = [call_onCancel 1 "a"].
Proof.
  cbn zeta.
  set (this := addOrders _ _).
  set (no_side := OrderUpdates.mk None None (Some None) _ _ _ _ _ _ _ _ _ _ _ _ _ _ _).
  pose proof (handleOrderCancel_spec "a" this) as Ha.
  pose proof (handleOrderCancel_spec "zz" this) as Hz.
  pose proof (handleOrderCancel_spec "a" (snd (fst (updateOrder "a" no_side this)))) as Hs.
  change (JsMap.get "zz" (orders this)) with (@None TradingOrder) in Hz.
  change (JsMap.get "a" (orders this)) with
    (Some (buildOrder sampleEnv (request "a" limit buy (of_Z 44000) (of_Z 1)))) in Ha.
  change (JsMap.get "a" (orders (snd (fst (updateOrder "a" no_side this))))) with
    (Some (apply_updates (buildOrder sampleEnv (request "a" limit buy (of_Z 44000) (of_Z 1)))
             no_side)) in Hs.
  cbn zeta in Ha, Hs. destruct Ha as (Hrun & _ & Hget & Hkeys & _). destruct Hs as (Hrun' & _).
  rewrite Hrun, Hrun'. clear Hrun Hrun' Hget Hkeys.
  split; [reflexivity |]. split; [reflexivity |]. split; [reflexivity |].
  split; [reflexivity |]. split; [exact Hz |]. split; reflexivity.
Defined.

(** [handlePriceChange], a drag of an overlay.  On an id that is not in
    the store nothing happens.  On an id that is in the store the price
    of the stored order becomes the new price, whatever number that is,
    and nothing else changes; then the [onPriceChange] handlers are
    called with the new and the old price, then the subscribers get a
    [dragged] event, all of them seeing the new price in the store.  No
    request goes to the chart. *)
Theorem handlePriceChange_spec (orderId : string) (newPrice : num) (oldPrice : option num)
    (this : t) :
  match JsMap.get orderId (orders this) with
  | None => handlePriceChange orderId newPrice oldPrice this = (inr tt, this, [])
  | Some order =>
      let moved := with_price order (Some newPrice) in
      let this' := set_orders (JsMap.set orderId moved) this in
      handlePriceChange orderId newPrice oldPrice this =
      (inr tt, this',
       called this' OrderCallback.onPriceChange
         (fun subscriber => call_onPriceChange subscriber orderId newPrice oldPrice) ++
       notified this' orderId ev_dragged moved) /\
      moved = TradingOrder.mk (TradingOrder.id order) (TradingOrder.type order)
                (TradingOrder.side order) (Some newPrice) (TradingOrder.quantity order)
                (TradingOrder.symbol order) (TradingOrder.status order)
                (TradingOrder.timestamp order) (TradingOrder.text order)
                (TradingOrder.customData order) (TradingOrder.entryPrice order)
                (TradingOrder.stopLoss order) (TradingOrder.takeProfit order)
                (TradingOrder.pnl order) (TradingOrder.unrealizedPnl order)
                (TradingOrder.fees order) (TradingOrder.fillPrice order)
                (TradingOrder.fillQuantity order) /\
      JsMap.get orderId (orders this') = Some moved /\
      JsMap.keys (orders this') = JsMap.keys (orders this) /\
      (forall other, other <> orderId ->
         JsMap.get other (orders this') = JsMap.get other (orders this))
  end.
Proof.
  rewrite handlePriceChange_run.
  destruct (JsMap.get orderId (orders this)) as [order|] eqn:Hget; [| reflexivity].
  cbn zeta. split; [reflexivity |]. split; [reflexivity |].
  cbn [orders set_orders]. split; [| split].
  - apply get_set_eq.
  - rewrite keys_set, Hget. reflexivity.
  - intros other Hne. apply get_set_ne. congruence.
Qed.

End Updates.

(** ** Clearing the store *)

Section MoreMaps.
Context {V : Type}.
Implicit Types (m : JsMap.t V) (k : string) (v : V).

Lemma keys_get k m : k ∈ JsMap.keys m <-> is_Some (JsMap.get k m).
Proof.
  destruct (JsMap.get k m) as [v|] eqn:Hget.
  - split; [eauto |]. intros _. destruct (decide (k ∈ JsMap.keys m)) as [H | H]; [exact H |].
    apply get_None_keys in H. congruence.
  - split; [| intros [v Hv]; discriminate]. intros H. now apply get_None_keys in Hget.
Qed.

Lemma keys_set_elem k k' v m :
  k' ∈ JsMap.keys (JsMap.set k v m) <-> k' = k \/ k' ∈ JsMap.keys m.
Proof.
  rewrite !keys_get. destruct (decide (k = k')) as [-> | Hne].
  - rewrite get_set_eq. split; [now left | eauto].
  - rewrite get_set_ne by exact Hne. split; [now right | intros [-> | H]; [congruence | exact H]].
Qed.

Lemma keys_delete_elem k k' m :
  JsMap.wf m -> k' ∈ JsMap.keys (JsMap.delete k m) <-> k' <> k /\ k' ∈ JsMap.keys m.
Proof.
  intros Hwf. rewrite !keys_get. destruct (decide (k = k')) as [-> | Hne].
  - rewrite get_delete_eq by exact Hwf. split; [intros [v Hv]; discriminate | tauto].
  - rewrite get_delete_ne by exact Hne. split; [intros H; split; congruence | tauto].
Qed.

Lemma delete_set_fresh k v m : JsMap.get k m = None -> JsMap.delete k (JsMap.set k v m) = m.
Proof.
  induction m as [| [k' v'] m IH]; cbn.
  - intros _. now rewrite decide_True.
  - destruct (decide (k' = k)) as [-> | Hne]; [discriminate |]. intros H. cbn.
    rewrite decide_False by exact Hne. now rewrite IH.
Qed.

Lemma fold_delete_keys (ks : list string) m :
  JsMap.wf m -> (forall k, k ∈ JsMap.keys m -> k ∈ ks) ->
  fold_left (fun acc k => JsMap.delete k acc) ks m = [].
Proof.
  revert m. induction ks as [| k ks IH]; intros m Hwf Hsub.
  - destruct m as [| [k v] m]; [reflexivity |].
    specialize (Hsub k ltac:(left)). now apply elem_of_nil in Hsub.
  - cbn [fold_left]. apply IH; [now apply wf_delete |].
    intros k' Hk'. apply keys_delete_elem in Hk' as [Hne Hin]; [| exact Hwf].
    apply Hsub, elem_of_cons in Hin as [-> | Hin]; [congruence | exact Hin].
Qed.
End MoreMaps.

Section Clearing.
Import OrderManagerImpl.

Lemma clearAllOrders_loop (l : JsMap.t TradingOrder) : forall this,
  orders this = l -> JsMap.wf l ->
  exists log,
    forEach (JsMap.keys l) removeOrder this =
    (inr tt,
     mk [] (fold_left (fun acc k => JsMap.delete k acc) (JsMap.keys l) (overlayIds this))
        (callbacks this) (theme this) (chart this) (currentPrice this), log) /\
    map effect log = cleared this.
Proof.
  induction l as [| [k o] l IH]; intros this Hl Hwf.
  - exists []. unfold cleared. rewrite Hl. split; [| reflexivity].
    destruct this; cbn in *; subst; reflexivity.
  - apply NoDup_cons in Hwf as [Hk Hwf].
    set (this1 := set_overlayIds (JsMap.delete k) (set_orders (JsMap.delete k) this)).
    assert (Hl1 : orders this1 = l).
    { cbn. rewrite Hl. cbn. now rewrite decide_True. }
    destruct (IH this1 Hl1 Hwf) as (log & Hrun & Hlog).
    cbn [JsMap.keys map fst].
    change (forEach (k :: map fst l) removeOrder this)
      with (bind (removeOrder k) (fun _ => forEach (JsMap.keys l) removeOrder) this).
    unfold bind. rewrite removeOrder_run.
    assert (Hget : JsMap.get k (orders this) = Some o)
      by (rewrite Hl; cbn; now rewrite decide_True).
    rewrite Hget. cbv beta iota zeta. fold this1. rewrite Hrun.
    eexists. split; [reflexivity |].
    rewrite !map_app, Hlog. unfold cleared. rewrite Hl, Hl1. cbn [flat_map fst snd].
    rewrite <- !app_assoc. f_equal.
    { destruct (usable_id (JsMap.get k (overlayIds this))), (chart this); reflexivity. }
    f_equal.
    { unfold notified. rewrite map_map. reflexivity. }
    subst this1. clear -Hk. induction l as [| [k' o'] l IHl]; [reflexivity |].
    cbn [flat_map fst snd]. cbn [map fst] in Hk. apply not_elem_of_cons in Hk as [Hne Hk].
    rewrite (IHl Hk). f_equal. cbn [overlayIds set_overlayIds set_orders].
    rewrite get_delete_ne by congruence. reflexivity.
Qed.

End Clearing.

(** ** The states that calls can reach *)

Section Reachable.
Import OrderManagerImpl.

Lemma clearAllOrders_run this :
  consistent this ->
  exists log,
    clearAllOrders this =
    (inr tt, mk [] [] (callbacks this) (theme this) (chart this) (currentPrice this), log) /\
    map effect log = cleared this.
Proof.
  intros (Hwf & Hwf' & Hsub & _).
  destruct (clearAllOrders_loop (orders this) this eq_refl Hwf) as (log & Hrun & Hlog).
  exists log. split; [| exact Hlog].
  unfold clearAllOrders, bind, read. rewrite Hrun.
  rewrite (fold_delete_keys _ _ Hwf' Hsub). reflexivity.
Qed.

Lemma consistent_tables this this' :
  orders this' = orders this -> overlayIds this' = overlayIds this ->
  consistent this -> consistent this'.
Proof. unfold consistent. intros -> ->. tauto. Qed.

Lemma updateCurrentPrice_state price this :
  snd (fst (updateCurrentPrice price this)) = set_currentPrice price this.
Proof.
  unfold updateCurrentPrice, bind, write.
  pose proof (refreshAllOrders_state (set_currentPrice price this)) as H.
  destruct (refreshAllOrders _) as [[r this'] log]. exact H.
Qed.

Lemma setTheme_state partial this :
  snd (fst (setTheme partial this)) =
  set_theme
    (OrderTheme.mk
       (default (OrderTheme.buy (theme this)) (PartialTheme.buy partial))
       (default (OrderTheme.sell (theme this)) (PartialTheme.sell partial))) this.
Proof.
  unfold setTheme, bind, read, write.
  match goal with |- context [refreshAllOrders ?s] =>
    pose proof (refreshAllOrders_state s) as H; destruct (refreshAllOrders s) as [[r this'] log]
  end.
  exact H.
Qed.

Lemma updateOrder_state orderId updates this :
  snd (fst (updateOrder orderId updates this)) =
  match JsMap.get orderId (orders this) with
  | None => this
  | Some order => set_orders (JsMap.set orderId (apply_updates order updates)) this
  end.
Proof.
  rewrite updateOrder_run. destruct (JsMap.get orderId (orders this)); [| reflexivity].
  cbn zeta. destruct (updateOrderOverlay _ _) as [[[e | []] this'] log]; reflexivity.
Qed.

Lemma chooseId_nonempty env id : chooseId env id <> "".
Proof.
  unfold chooseId, str_falsy. destruct id as [s|]; [destruct (decide (s = "")) |];
    cbn; try discriminate. assumption.
Qed.

Lemma consistent_set_orders orderId order this :
  is_Some (JsMap.get orderId (orders this)) ->
  consistent this -> consistent (set_orders (JsMap.set orderId order) this).
Proof.
  intros Hin (Hwf & Hwf' & Hsub & Hne). apply keys_get in Hin. unfold consistent.
  cbn [orders overlayIds set_orders].
  split; [now apply wf_set |]. split; [exact Hwf' |]. split.
  - intros k Hk. apply keys_set_elem. right. now apply Hsub.
  - intros H. apply keys_set_elem in H as [H | H]; [| now apply Hne].
    apply Hne. now rewrite H.
Qed.

Lemma perform_consistent c this : consistent this -> consistent (fst (perform c this)).
Proof.
  intros Hc. destruct c; cbn [perform outcome fst snd].
  - revert Hc. apply consistent_tables; reflexivity.
  - rewrite updateCurrentPrice_state. revert Hc. apply consistent_tables; reflexivity.
  - destruct (validateOrder (buildOrder env orderOptions)) as [| e errors] eqn:Hv.
    + destruct (addOrder_run env orderOptions this Hv)
        as (this2 & shown & _ & Hrun & Ho & _ & Hov & _).
      rewrite Hrun. cbn [fst snd]. destruct Hc as (Hwf & Hwf' & Hsub & Hne).
      unfold consistent. rewrite Ho, Hov. cbn [orders set_orders].
      split; [now apply wf_set |]. split; [| split].
      * destruct (chart this) as [c|]; [| exact Hwf'].
        destruct (usable_id _); [now apply wf_set | exact Hwf'].
      * intros k Hk. apply keys_set_elem.
        destruct (chart this) as [c|]; [| right; now apply Hsub].
        destruct (usable_id _); [| right; now apply Hsub].
        apply keys_set_elem in Hk as [-> | Hk]; [now left | right; now apply Hsub].
      * intros H. apply keys_set_elem in H as [H | H]; [| now apply Hne].
        symmetry in H. revert H. apply chooseId_nonempty.
    + rewrite addOrder_invalid by (rewrite Hv; discriminate). exact Hc.
  - rewrite updateOrder_state.
    destruct (JsMap.get orderId (orders this)) eqn:Hget; [| exact Hc].
    apply consistent_set_orders; [rewrite Hget; eauto | exact Hc].
  - rewrite removeOrder_run.
    destruct (JsMap.get orderId (orders this)) eqn:Hget; [| exact Hc].
    cbn [fst snd]. destruct Hc as (Hwf & Hwf' & Hsub & Hne).
    unfold consistent. cbn [orders overlayIds set_orders set_overlayIds].
    split; [now apply wf_delete |]. split; [now apply wf_delete |]. split.
    + intros k Hk. apply keys_delete_elem in Hk as [Hk Hin]; [| exact Hwf'].
      apply keys_delete_elem; [exact Hwf |]. split; [exact Hk | now apply Hsub].
    + intros H. apply keys_delete_subset in H. now apply Hne.
  - rewrite setTheme_state. revert Hc. apply consistent_tables; reflexivity.
  - revert Hc. apply consistent_tables; reflexivity.
  - revert Hc. apply consistent_tables; reflexivity.
  - rewrite handleOrderCancel_run.
    destruct (JsMap.get orderId (orders this)) eqn:Hget; [| exact Hc].
    pose proof (updateOrder_state orderId status_cancelled this) as Hst.
    destruct (updateOrder orderId status_cancelled this) as [[r this'] log].
    cbn [fst snd] in *. subst this'. rewrite Hget.
    apply consistent_set_orders; [rewrite Hget; eauto | exact Hc].
  - rewrite handlePriceChange_run.
    destruct (JsMap.get orderId (orders this)) eqn:Hget; [| exact Hc].
    cbn [fst snd]. apply consistent_set_orders; [rewrite Hget; eauto | exact Hc].
  - exact Hc.
  - rewrite handleOrderClick_run. exact Hc.
  - destruct (clearAllOrders_run this Hc) as (log & Hrun & _). rewrite Hrun. cbn [fst snd].
    unfold consistent. cbn [orders overlayIds].
    split; [apply wf_empty |]. split; [apply wf_empty |]. split; [tauto |].
    apply not_elem_of_nil.
Qed.

Lemma run_consistent calls : forall this, consistent this -> consistent (run calls this).
Proof.
  induction calls as [| c calls IH]; intros this Hc; [exact Hc |].
  cbn [run]. apply IH, perform_consistent, Hc.
Qed.

(** Whatever calls are made on a manager, in whatever order and whether
    they return or throw, the two tables stay in step: each holds a key
    once, every overlay binding belongs to an order that is in the store,
    and no order is stored under the empty id. *)
Theorem tables_consistent (calls : list Method) (chart : option Chart) :
  consistent (run calls (new chart)).
Proof.
  apply run_consistent. unfold consistent. cbn [new orders overlayIds].
  split; [apply wf_empty |]. split; [apply wf_empty |]. split; [tauto |].
  apply not_elem_of_nil.
Qed.

(** [clearAllOrders] on a manager whose tables are in step: both tables
    end up empty and nothing else of the manager changes; order by order,
    as the store lists them, the overlay that is bound to the order is
    removed from the chart (when there is a chart) and the subscribers get
    a [cancelled] event with the order. *)
Theorem clearAllOrders_spec (this : t) :
  consistent this ->
  exists log,
    clearAllOrders this =
    (inr tt, mk [] [] (callbacks this) (theme this) (chart this) (currentPrice this), log) /\
    map effect log = cleared this.
Proof. apply clearAllOrders_run. Qed.

Lemma clearAllOrders_spec_witness :
  let this := addOrders [(sampleEnv, request "a" limit buy (of_Z 44000) (of_Z 1));
                         (sampleEnv, request "b" entry buy (of_Z 45000) (of_Z 1))]
                (watched (Some readyChart)) in
  exists log,
    clearAllOrders this =
    (inr tt, mk [] [] (callbacks this) (theme this) (chart this) (currentPrice this), log) /\
    map effect log =
    [chart_removeOverlay "overlay_0";
     call_onOrderEvent 1 "a" ev_cancelled
       (buildOrder sampleEnv (request "a" limit buy (of_Z 44000) (of_Z 1)));
     chart_removeOverlay "overlay_1";
     call_onOrderEvent 1 "b" ev_cancelled
       (buildOrder sampleEnv (request "b" entry buy (of_Z 45000) (of_Z 1)))].
Proof.
  cbn zeta.
  apply (clearAllOrders_spec
           (addOrders [(sampleEnv, request "a" limit buy (of_Z 44000) (of_Z 1));
                       (sampleEnv, request "b" entry buy (of_Z 45000) (of_Z 1))]
              (watched (Some readyChart)))).
  repeat split; try (apply (bool_decide_unpack _); vm_compute; reflexivity).
  intros k Hk. exact Hk.
Defined.

End Reachable.

(** ** What a call does to the outside *)

Section Footprint.
Import OrderManagerImpl.

Lemma forEach_Forall {A} (P : Observed -> Prop) (f : A -> M unit) (l : list A) :
  (forall x this, Forall P (snd (f x this))) ->
  forall this, Forall P (snd (forEach l f this)).
Proof.
  intros H. induction l as [| x l IH]; intros this; [constructor |].
  change (forEach (x :: l) f this) with (bind (f x) (fun _ => forEach l f) this).
  unfold bind. specialize (H x this).
  destruct (f x this) as [[[e | a] this1] log1]; cbn [snd] in *; [exact H |].
  specialize (IH this1). destruct (forEach l f this1) as [[r this2] log2]. cbn [snd] in *.
  apply Forall_app. split; assumption.
Qed.

Lemma Forall_called (P : Effect -> Prop) this has e :
  (forall subscriber, P (e subscriber)) ->
  Forall (fun o => P (effect o)) (called this has e).
Proof.
  intros H. unfold called. apply Forall_map, Forall_forall. intros callback _. apply H.
Qed.

Lemma Forall_notified (P : Effect -> Prop) this orderId event order :
  (forall subscriber, P (call_onOrderEvent subscriber orderId event order)) ->
  Forall (fun o => P (effect o)) (notified this orderId event order).
Proof.
  intros H.
  apply (Forall_called P this OrderCallback.onOrderEvent
           (fun subscriber => call_onOrderEvent subscriber orderId event order) H).
Qed.

Lemma Forall_updateOrderOverlay (P : Effect -> Prop) order this :
  (forall id value timestamp data, P (chart_overrideOverlay id value timestamp data)) ->
  Forall (fun o => P (effect o)) (snd (updateOrderOverlay order this)).
Proof.
  intros H. rewrite updateOrderOverlay_run.
  destruct (chart this); [| constructor]. destruct (usable_id _); [| constructor].
  destruct (getOrderStyle _ _ _); cbn [snd]; repeat constructor. apply H.
Qed.

Lemma Forall_refreshAllOrders (P : Effect -> Prop) this :
  (forall id value timestamp data, P (chart_overrideOverlay id value timestamp data)) ->
  Forall (fun o => P (effect o)) (snd (refreshAllOrders this)).
Proof.
  intros H. unfold refreshAllOrders, bind, read.
  pose proof (forEach_Forall (fun o => P (effect o)) updateOrderOverlay
                (JsMap.values (orders this))
                (fun order this => Forall_updateOrderOverlay P order this H) this) as Hall.
  destruct (forEach _ _ this) as [[r this'] log]. exact Hall.
Qed.

Lemma Forall_updateOrder (P : Effect -> Prop) orderId updates this :
  (forall id value timestamp data, P (chart_overrideOverlay id value timestamp data)) ->
  (forall subscriber order, P (call_onOrderEvent subscriber orderId ev_updated order)) ->
  Forall (fun o => P (effect o)) (snd (updateOrder orderId updates this)).
Proof.
  intros Ho He. rewrite updateOrder_run.
  destruct (JsMap.get orderId (orders this)) as [order|]; [| constructor].
  cbn zeta.
  match goal with |- context [updateOrderOverlay ?o ?s] =>
    pose proof (Forall_updateOrderOverlay P o s Ho) as Hall;
    destruct (updateOrderOverlay o s) as [[[e | []] this'] log]
  end; cbn [snd] in *; [exact Hall |].
  apply Forall_app. split; [exact Hall |]. apply Forall_notified. intros s. apply He.
Qed.

Lemma Forall_removeOrder (P : Effect -> Prop) orderId this :
  (forall id, P (chart_removeOverlay id)) ->
  (forall subscriber order, P (call_onOrderEvent subscriber orderId ev_cancelled order)) ->
  Forall (fun o => P (effect o)) (snd (removeOrder orderId this)).
Proof.
  intros Hr He. rewrite removeOrder_run.
  destruct (JsMap.get orderId (orders this)) as [order|]; [| constructor].
  cbn [snd]. apply Forall_app. split; [| apply Forall_notified; intros s; apply He].
  destruct (usable_id _); [| constructor]. destruct (chart this); repeat constructor. apply Hr.
Qed.

(** What a call can do to the outside, method by method.  Only
    [addOrder] asks the chart for a new overlay, and it never has one
    removed, even when it rebinds an id; only [removeOrder] and
    [clearAllOrders] have overlays removed, and only they send
    [cancelled]; [updateOrder], [setTheme], [updateCurrentPrice] and the
    cancel handler overwrite overlays; the cancel handler sends
    [updated], the drag handler sends [dragged] and asks nothing of the
    chart; no method sends [filled]; [setChart], [addCallback] and
    [removeCallback] do nothing to the outside. *)
Theorem effects_by_method (c : Method) (this : t) :
  Forall (fun o => footprint c (effect o) = true) (snd (perform c this)).
Proof.
  set (P := fun e => footprint c e = true).
  change (Forall (fun o => P (effect o)) (snd (perform c this))).
  destruct c; cbn [perform outcome snd].
  - constructor.
  - unfold updateCurrentPrice, bind, write.
    match goal with |- context [refreshAllOrders ?s] =>
      pose proof (Forall_refreshAllOrders P s (fun _ _ _ _ => eq_refl)) as Hall;
      destruct (refreshAllOrders s) as [[r this'] log]
    end. exact Hall.
  - destruct (validateOrder (buildOrder env orderOptions)) as [| e errors] eqn:Hv.
    + destruct (addOrder_run env orderOptions this Hv)
        as (this2 & shown & _ & Hrun & _ & _ & _ & Hshown).
      rewrite Hrun. cbn [snd]. apply Forall_app. split.
      * apply (proj1 (Forall_map effect P shown)).
        rewrite Hshown. destruct (chart this); repeat constructor.
      * apply (Forall_notified P). reflexivity.
    + rewrite addOrder_invalid by (rewrite Hv; discriminate). constructor.
  - apply (Forall_updateOrder P); [reflexivity |].
    intros s o. unfold P. cbn. now rewrite bool_decide_true.
  - apply (Forall_removeOrder P); [reflexivity |].
    intros s o. unfold P. cbn. now rewrite bool_decide_true.
  - unfold setTheme, bind, read, write.
    match goal with |- context [refreshAllOrders ?s] =>
      pose proof (Forall_refreshAllOrders P s (fun _ _ _ _ => eq_refl)) as Hall;
      destruct (refreshAllOrders s) as [[r this'] log]
    end. exact Hall.
  - constructor.
  - constructor.
  - rewrite handleOrderCancel_run.
    destruct (JsMap.get orderId (orders this)); [| constructor].
    pose proof (Forall_updateOrder P orderId status_cancelled this
                  (fun _ _ _ _ => eq_refl)) as Hall.
    destruct (updateOrder orderId status_cancelled this) as [[r this'] log].
    cbn [snd] in *. apply Forall_app. split.
    + apply (Forall_called P). intros s. unfold P. cbn. now rewrite bool_decide_true.
    + apply Hall. intros s o. unfold P. cbn. now rewrite bool_decide_true.
  - rewrite handlePriceChange_run.
    destruct (JsMap.get orderId (orders this)); [| constructor].
    cbn [snd]. apply Forall_app. split.
    + apply (Forall_called P). intros s. unfold P. cbn. now rewrite bool_decide_true.
    + apply (Forall_notified P). intros s. unfold P. cbn. now rewrite bool_decide_true.
  - repeat constructor. unfold P. cbn. now rewrite bool_decide_true.
  - rewrite handleOrderClick_run. cbn [snd]. apply (Forall_called P).
    intros s. unfold P. cbn. now rewrite bool_decide_true.
  - unfold clearAllOrders, bind, read.
    pose proof (forEach_Forall (fun o => P (effect o))
                  removeOrder (JsMap.keys (orders this))
                  (fun k s => Forall_removeOrder P k s
                                (fun _ => eq_refl) (fun _ _ => eq_refl)) this) as Hall.
    destruct (forEach _ _ this) as [[r this'] log]. exact Hall.
Qed.

(** [addOrder] under a new id, then [removeOrder] of that id: the two
    tables are back as they were, the subscribers and the theme are
    untouched, and the chart has been asked to remove exactly the
    overlay that it had answered for the order (nothing when it had
    answered none, or when there is no chart). *)
Theorem addOrder_removeOrder (env : Env) (orderOptions : CreateOrderOptions) (this : t) :
  let order := buildOrder env orderOptions in
  let orderId := TradingOrder.id order in
  validateOrder order = [] ->
  JsMap.get orderId (orders this) = None ->
  JsMap.get orderId (overlayIds this) = None ->
  exists added log back log',
    addOrder env orderOptions this = (inr orderId, added, log) /\
    removeOrder orderId added = (inr tt, back, log') /\
    orders back = orders this /\
    overlayIds back = overlayIds this /\
    callbacks back = callbacks this /\
    theme back = theme this /\
    map effect log' =
    match chart this with
    | Some c =>
        match usable_id (fst (Chart.createOverlay c)) with
        | Some overlayId => [chart_removeOverlay overlayId]
        | None => []
        end
    | None => []
    end ++
    map (fun callback =>
           call_onOrderEvent (OrderCallback.ref callback) orderId ev_cancelled order)
        (List.filter OrderCallback.onOrderEvent (callbacks this)).
Proof.
  intros order orderId Hvalid Hfresh Hfresh'.
  destruct (addOrder_run env orderOptions this Hvalid)
    as (added & shown & Hover & Hrun & Ho & Hcb & Hov & _).
  fold order orderId in Hrun, Ho, Hov, Hover.
  pose proof (proj1 (validateOrder_nil order) Hvalid) as (_ & [s Hside] & _).
  assert (Hth : theme added = theme this /\
                chart added = match chart this with
                              | Some c => Some (snd (Chart.createOverlay c))
                              | None => None
                              end).
  { rewrite (createOrderOverlay_run order _ s Hside) in Hover.
    cbn [chart set_orders] in Hover. destruct (chart this) as [c|] eqn:Hc.
    - cbn zeta in Hover. injection Hover as <- _.
      destruct (usable_id _); split; reflexivity.
    - injection Hover as <- _. cbn [theme chart set_orders]. rewrite Hc.
      split; reflexivity. }
  destruct Hth as [Hth Hch].
  exists added, (shown ++ notified added orderId ev_created order).
  rewrite removeOrder_run, Ho. cbn [orders set_orders]. rewrite get_set_eq.
  eexists _, _. split; [exact Hrun |]. split; [reflexivity |].
  cbn [orders overlayIds callbacks theme set_orders set_overlayIds].
  rewrite Ho. cbn [orders set_orders]. rewrite delete_set_fresh by exact Hfresh.
  split; [reflexivity |]. rewrite Hov, Hcb, Hth, Hch. split; [| split; [reflexivity |]].
  - destruct (chart this) as [c|]; [| now apply keys_delete_absent].
    destruct (usable_id _); [now apply delete_set_fresh | now apply keys_delete_absent].
  - split; [reflexivity |]. rewrite map_app. f_equal.
    + destruct (chart this) as [c|]; [| now rewrite Hfresh'].
      destruct (usable_id (fst (Chart.createOverlay c))) as [h|] eqn:Hh.
      * rewrite get_set_eq. unfold usable_id in Hh |- *.
        destruct (fst (Chart.createOverlay c)) as [h'|]; [| discriminate].
        destruct (decide (h' = "")); [discriminate |]. injection Hh as ->.
        rewrite decide_False by assumption. reflexivity.
      * rewrite Hfresh'. reflexivity.
    + unfold notified. rewrite map_map. cbn [callbacks set_orders set_overlayIds].
      rewrite Hcb. reflexivity.
Qed.

Lemma addOrder_removeOrder_witness :
  let this := addOrders [(sampleEnv, request "a" limit buy (of_Z 44000) (of_Z 1))]
                (watched (Some readyChart)) in
  let orderOptions := request "b" entry buy (of_Z 45000) (of_Z 1) in
  exists added log back log',
    addOrder sampleEnv orderOptions this = (inr "b", added, log) /\
    removeOrder "b" added = (inr tt, back, log') /\
    orders back = orders this /\
    overlayIds back = overlayIds this /\
    names log = ["createOverlay"; "created"] /\
    map effect log' =
    [chart_removeOverlay "overlay_1";
     call_onOrderEvent 1 "b" ev_cancelled (buildOrder sampleEnv orderOptions)].
Proof.
  cbn zeta.
  destruct (addOrder_removeOrder sampleEnv (request "b" entry buy (of_Z 45000) (of_Z 1))
              (addOrders [(sampleEnv, request "a" limit buy (of_Z 44000) (of_Z 1))]
                 (watched (Some readyChart)))
              eq_refl eq_refl eq_refl)
    as (added & log & back & log' & Hadd & Hrem & Ho & Hov & _ & _ & Hlog).
  exists added, log, back, log'.
  split; [exact Hadd |]. split; [exact Hrem |]. split; [exact Ho |]. split; [exact Hov |].
  split; [| exact Hlog].
  assert (Hl : log = snd (addOrder sampleEnv (request "b" entry buy (of_Z 45000) (of_Z 1))
                            (addOrders [(sampleEnv, request "a" limit buy (of_Z 44000) (of_Z 1))]
                               (watched (Some readyChart)))))
    by (rewrite Hadd; reflexivity).
  rewrite Hl. reflexivity.
Defined.

End Footprint.

(** ** Subscribers, listings and the reference price *)

Section Subscribers.
Import OrderManagerImpl.

Lemma remove_first_fresh (r : nat) (l : list OrderCallback) :
  Forall (fun c => OrderCallback.ref c <> r) l -> remove_first r l = l.
Proof.
  induction 1 as [| c l Hc _ IH]; [reflexivity |].
  cbn. rewrite decide_False by exact Hc. now rewrite IH.
Qed.

Lemma remove_first_split (r : nat) (before : list OrderCallback) (first : OrderCallback)
    (after : list OrderCallback) :
  Forall (fun c => OrderCallback.ref c <> r) before -> OrderCallback.ref first = r ->
  remove_first r (before ++ first :: after) = before ++ after.
Proof.
  intros Hfresh Hfirst. induction Hfresh as [| c l Hc _ IH]; cbn.
  - now rewrite decide_True.
  - rewrite decide_False by exact Hc. now rewrite IH.
Qed.

Lemma remove_first_app (r : nat) (l tail : list OrderCallback) :
  Exists (fun c => OrderCallback.ref c = r) l ->
  remove_first r (l ++ tail) = remove_first r l ++ tail.
Proof.
  induction l as [| c l IH]; intros Hex; [now apply Exists_nil in Hex |].
  cbn. destruct (decide (OrderCallback.ref c = r)) as [Hc | Hc]; [reflexivity |].
  apply Exists_cons in Hex as [Hex | Hex]; [contradiction |].
  cbn. now rewrite IH.
Qed.

(** Subscriptions.  [addCallback] appends without looking: a subscriber
    is called after those registered before it, and once for each time it
    was registered.  [removeCallback] takes away the first registration of
    the subscriber and no other: what stands before that registration and
    what stands after it stay, in their order.  For a subscriber that is
    not registered it changes nothing.  After an [addCallback] it gives
    the list back only when the subscriber was not registered before; when
    it was, the earlier registration goes and the new one stays at the
    end.  After two [addCallback] one of the two stays at the end. *)
Theorem callbacks_registration (callback : OrderCallback) (this : t) :
  let once := snd (fst (addCallback callback this)) in
  let twice := snd (fst (addCallback callback once)) in
  callbacks once = callbacks this ++ [callback] /\
  (Forall (fun c => OrderCallback.ref c <> OrderCallback.ref callback) (callbacks this) ->
   callbacks (snd (fst (removeCallback callback this))) = callbacks this /\
   callbacks (snd (fst (removeCallback callback once))) = callbacks this) /\
  (forall before first after,
      callbacks this = before ++ first :: after ->
      Forall (fun c => OrderCallback.ref c <> OrderCallback.ref callback) before ->
      OrderCallback.ref first = OrderCallback.ref callback ->
      callbacks (snd (fst (removeCallback callback this))) = before ++ after /\
      callbacks (snd (fst (removeCallback callback once))) = before ++ after ++ [callback]) /\
  callbacks (snd (fst (removeCallback callback twice))) =
  callbacks (snd (fst (removeCallback callback once))) ++ [callback] /\
  (forall orderId event order,
      OrderCallback.onOrderEvent callback = true ->
      map effect (notified twice orderId event order) =
      map effect (notified this orderId event order) ++
      [call_onOrderEvent (OrderCallback.ref callback) orderId event order;
       call_onOrderEvent (OrderCallback.ref callback) orderId event order]).
Proof.
  cbn zeta. cbn [addCallback removeCallback write set_callbacks callbacks fst snd].
  split; [reflexivity |]. split; [| split; [| split]].
  - intros Hfresh. split; [now apply remove_first_fresh |].
    rewrite (remove_first_split _ (callbacks this) callback []) by (exact Hfresh || reflexivity).
    apply app_nil_r.
  - intros before first after -> Hfresh Hfirst.
    split; [now apply remove_first_split |].
    rewrite <- app_assoc. cbn [app].
    rewrite (remove_first_split _ before first (after ++ [callback])) by assumption.
    reflexivity.
  - apply remove_first_app. apply Exists_app. right. now left.
  - intros orderId event order Hev. unfold notified.
    cbn [callbacks orders overlayIds set_callbacks]. rewrite !map_map. cbn [effect].
    rewrite !List.filter_app, !map_app. cbn [List.filter]. rewrite Hev. cbn [map app].
    rewrite <- app_assoc. reflexivity.
Qed.

Lemma callbacks_registration_witness :
  let other := OrderCallback.mk 2 true false false false in
  let this := snd (fst (addCallback listener (snd (fst (addCallback other (watched None)))))) in
  let twice := snd (fst (addCallback other (snd (fst (addCallback other (watched None)))))) in
  callbacks this = [listener; other; listener] /\
  callbacks (snd (fst (removeCallback listener this))) = [other; listener] /\
  callbacks (snd (fst (removeCallback other (watched None)))) = [listener] /\
  map effect (notified twice "a" ev_created (plainOrder "a" limit buy (of_Z 1) (of_Z 1) pending))
  = [call_onOrderEvent 1 "a" ev_created (plainOrder "a" limit buy (of_Z 1) (of_Z 1) pending);
     call_onOrderEvent 2 "a" ev_created (plainOrder "a" limit buy (of_Z 1) (of_Z 1) pending);
     call_onOrderEvent 2 "a" ev_created (plainOrder "a" limit buy (of_Z 1) (of_Z 1) pending)].
Proof.
  cbn zeta. split; [reflexivity |].
  destruct (callbacks_registration listener
              (snd (fst (addCallback listener
                           (snd (fst (addCallback (OrderCallback.mk 2 true false false false)
                                        (watched None)))))))) as (_ & _ & Hfirst & _).
  destruct (callbacks_registration (OrderCallback.mk 2 true false false false) (watched None))
    as (_ & Hfresh & _ & _ & Hn).
  split.
  - refine (proj1 (Hfirst [] listener [OrderCallback.mk 2 true false false false; listener]
                     eq_refl _ eq_refl)).
    constructor.
  - split.
    + apply Hfresh. repeat constructor. discriminate.
    + exact (Hn "a" ev_created (plainOrder "a" limit buy (of_Z 1) (of_Z 1) pending) eq_refl).
Defined.

End Subscribers.

Section Listings.
Import OrderManagerImpl.

Lemma getAllOrders_In (this : t) (order : TradingOrder) :
  In order (getAllOrders this) <-> In order (JsMap.values (orders this)).
Proof.
  unfold getAllOrders, sortOrders. split; apply Permutation_in.
  - apply sort_perm.
  - apply Permutation_sym, sort_perm.
Qed.

Lemma filter_partition {A} (key : A -> OrderStatus) (l : list A) :
  (length (filter (fun x => key x = pending) l) +
   length (filter (fun x => key x = filled) l) +
   length (filter (fun x => key x = cancelled) l) +
   length (filter (fun x => key x = partially_filled) l))%nat = length l.
Proof.
  induction l as [| x l IH]; [reflexivity |].
  rewrite !filter_cons. cbn [length]. rewrite <- IH.
  destruct (key x); repeat (destruct (decide _); try congruence); cbn [length]; lia.
Qed.

(** The listings by symbol, by type and by status hold exactly the orders
    of the store that have the symbol, the type or the status, in the
    order of [getAllOrders]; an order whose symbol or type is not set is
    in no such listing.  The four listings by status split the store: their
    lengths add up to its size. *)
Theorem getOrdersBy_spec (this : t) :
  (forall symbol order,
      order ∈ getOrdersBySymbol symbol this <->
      In order (JsMap.values (orders this)) /\ TradingOrder.symbol order = Some symbol) /\
  (forall type order,
      order ∈ getOrdersByType type this <->
      In order (JsMap.values (orders this)) /\ TradingOrder.type order = Some type) /\
  (forall status order,
      order ∈ getOrdersByStatus status this <->
      In order (JsMap.values (orders this)) /\ TradingOrder.status order = status) /\
  (forall symbol, sublist (getOrdersBySymbol symbol this) (getAllOrders this)) /\
  (forall type, sublist (getOrdersByType type this) (getAllOrders this)) /\
  (forall status, sublist (getOrdersByStatus status this) (getAllOrders this)) /\
  (length (getOrdersByStatus pending this) + length (getOrdersByStatus filled this) +
   length (getOrdersByStatus cancelled this) +
   length (getOrdersByStatus partially_filled this))%nat = JsMap.size (orders this).
Proof.
  unfold getOrdersBySymbol, getOrdersByType, getOrdersByStatus.
  split; [| split; [| split; [| split; [| split; [| split]]]]].
  1-3: intros key order; rewrite list_elem_of_filter, list_elem_of_In, getAllOrders_In; tauto.
  1-3: intros key; apply sublist_filter.
  rewrite (filter_partition TradingOrder.status (getAllOrders this)).
  unfold getAllOrders, sortOrders, JsMap.size, JsMap.values.
  rewrite <- (length_map snd (orders this)).
  apply Permutation_length, sort_perm.
Qed.

End Listings.

Section Refresh.

(** [updateCurrentPrice] in a store where every order has a side: the
    reference price is replaced and nothing else of the manager changes;
    no subscriber is called; when there is a chart, the overlay of every
    order that has a binding is overwritten once, in the order of the
    store, with a payload that carries the new reference price and the
    PnL of the order at that price. *)
Theorem updateCurrentPrice_spec (price : num) (this : OrderManagerImpl.t) :
  Forall (fun order => is_Some (TradingOrder.side order))
         (JsMap.values (OrderManagerImpl.orders this)) ->
  let this' := OrderManagerImpl.set_currentPrice price this in
  OrderManagerImpl.updateCurrentPrice price this =
  (inr tt, this', flat_map (refreshed this') (JsMap.values (OrderManagerImpl.orders this))) /\
  (forall order o,
      o ∈ refreshed this' order ->
      exists overlayId style,
        JsMap.get (TradingOrder.id order) (OrderManagerImpl.overlayIds this) = Some overlayId /\
        effect o =
        chart_overrideOverlay overlayId (TradingOrder.price order)
          (TradingOrder.timestamp order)
          (OrderOverlayData.mk order (Some price) (Some (calculatePnL order price)) style)).
Proof.
  intros Hall. cbn zeta. split.
  - unfold OrderManagerImpl.updateCurrentPrice, OrderManagerImpl.bind, OrderManagerImpl.write.
    rewrite (refreshAllOrders_run (OrderManagerImpl.set_currentPrice price this)) by exact Hall.
    reflexivity.
  - intros order o. unfold refreshed.
    cbn [OrderManagerImpl.chart OrderManagerImpl.overlayIds OrderManagerImpl.theme
         OrderManagerImpl.set_currentPrice].
    destruct (OrderManagerImpl.chart this); [| intros H; now apply elem_of_nil in H].
    destruct (JsMap.get (TradingOrder.id order) (OrderManagerImpl.overlayIds this))
      as [h|] eqn:Hh; [| intros H; now apply elem_of_nil in H].
    unfold OrderManagerImpl.usable_id.
    destruct (decide (h = "")); [intros H; now apply elem_of_nil in H |].
    destruct (getOrderStyle _ _ _) as [e | style]; [intros H; now apply elem_of_nil in H |].
    intros H. apply list_elem_of_singleton in H as ->. exists h, style. split; reflexivity.
Qed.

Lemma updateCurrentPrice_spec_witness :
  let this := addOrders [(sampleEnv, request "a" entry buy (of_Z 45000) (of_Z 2))]
                (watched (Some readyChart)) in
  let filled_a := OrderUpdates.mk None None None None None None (Some filled) None None
                    None None None None None None None None None in
  let this1 := snd (fst (OrderManagerImpl.updateOrder "a" filled_a this)) in
  let run := OrderManagerImpl.updateCurrentPrice (of_Z 46000) this1 in
  fst (fst run) = inr tt /\
  OrderManagerImpl.currentPrice (snd (fst run)) = of_Z 46000 /\
  map (fun o => match effect o with
                | chart_overrideOverlay h _ _ d =>
                    Some (h, PnLResult.netPnl <$> OrderOverlayData.pnlResult d)
                | _ => None
                end) (snd run) = [Some ("overlay_0", Some (of_Z 2000))].
Proof.
  cbn zeta.
  set (this1 := snd (fst (OrderManagerImpl.updateOrder "a" _ _))).
  assert (Hall : Forall (fun order => is_Some (TradingOrder.side order))
                   (JsMap.values (OrderManagerImpl.orders this1)))
    by (repeat constructor; eexists; reflexivity).
  destruct (updateCurrentPrice_spec (of_Z 46000) this1 Hall) as [Hrun _].
  rewrite Hrun. split; [reflexivity |]. split; reflexivity.
Defined.

End Refresh.

(** ** Risk, target and colour *)

Section RiskAndTarget.
Local Open Scope Q_scope.

Lemma ltb_zero_sgn (x : Q) : ltb (Fin x) zero = false <-> sgn x <> Lt.
Proof.
  unfold ltb, zero. rewrite sgn_compare.
  destruct (x ?= 0); split; congruence.
Qed.

Lemma sgn_abs (x : Q) : sgn (Qabs x) <> Lt.
Proof.
  rewrite sgn_compare. pose proof (Qabs_nonneg x) as H.
  destruct (Qcompare_spec (Qabs x) 0) as [E | L | G]; try discriminate.
  exfalso. apply (Qlt_not_le _ _ L H).
Qed.

Lemma abs_times_nonneg (a q : num) :
  ltb q zero = false -> ltb (Math_abs a * q)%num zero = false.
Proof.
  intros Hq. destruct a as [x| | |], q as [y| | |]; try reflexivity; try discriminate.
  - cbn [Math_abs mul]. apply ltb_zero_sgn. apply ltb_zero_sgn in Hq.
    rewrite sgn_compare in *. pose proof (Qabs_nonneg x) as Hx.
    destruct (Qcompare_spec y 0) as [Ey | Ly | Gy]; try congruence;
      destruct (Qcompare_spec (Qabs x * y) 0) as [E | L | G]; try discriminate; exfalso.
    + rewrite Ey in L. apply (Qlt_irrefl 0). rewrite Qmult_0_r in L. exact L.
    + apply (Qlt_not_le _ _ L). apply Qmult_le_0_compat; [exact Hx | now apply Qlt_le_weak].
  - cbn [Math_abs mul sign_of]. pose proof (sgn_abs x) as H.
    destruct (sgn (Qabs x)); try reflexivity. congruence.
  - cbn [Math_abs mul sign_of]. apply ltb_zero_sgn in Hq.
    destruct (sgn y); try reflexivity. congruence.
  - cbn [Math_abs mul sign_of]. apply ltb_zero_sgn in Hq.
    destruct (sgn y); try reflexivity. congruence.
Qed.

Lemma abs_sub_swap (a b : num) : Math_abs (a - b)%num ≃ Math_abs (b - a)%num.
Proof.
  destruct a as [x| | |], b as [y| | |]; cbn [Math_abs sub add opp num_eq]; try exact I.
  rewrite <- (Qabs_opp (y + - x)). apply Qabs_wd. ring.
Qed.

Lemma mul_eq_l (a a' q : num) : a ≃ a' -> (a * q)%num ≃ (a' * q)%num.
Proof.
  destruct a as [x| | |], a' as [x'| | |]; cbn [num_eq]; try contradiction; intros H;
    try apply num_eq_refl.
  destruct q as [y| | |]; cbn [mul sign_of]; try exact I.
  - cbn [num_eq]. now rewrite H.
  - rewrite (sgn_proper x x' H). apply num_eq_refl.
  - rewrite (sgn_proper x x' H). apply num_eq_refl.
Qed.

End RiskAndTarget.

Section Amounts.
Import TradingOrder.

Lemma truthy_nonzero (e : Q) : ~ Qeq e 0 -> num_falsy (Some (Fin e)) = false.
Proof.
  intros He. cbn [num_falsy truthy]. rewrite sgn_compare.
  destruct (Qcompare_spec e 0) as [E | L | G]; [contradiction | reflexivity | reflexivity].
Qed.

(** The risk of a stop-loss order and the target of a take-profit order
    are one distance: for an entry price [e] other than [0], a price [p]
    and a quantity [q], each is |e - p| x q, whichever way round the
    code writes the subtraction.  The risk is [0] for an order that is
    not a stop-loss and the target is [0] for an order that is not a
    take-profit, so that no order has both; both are [0] for an entry
    price that is missing, [0] or [NaN]; and for an order whose quantity
    is not negative neither is ever negative. *)
Theorem risk_and_target (order : TradingOrder) (entryPrice : option num) :
  (forall e p q,
      entryPrice = Some (Fin e) -> ~ Qeq e 0 ->
      price order = Some (Fin p) -> quantity order = Some (Fin q) ->
      (type order = Some stop_loss ->
       calculateRiskAmount order entryPrice ≃ Fin (Qabs (e - p) * q)%Q) /\
      (type order = Some take_profit ->
       calculateProfitTarget order entryPrice ≃ Fin (Qabs (e - p) * q)%Q)) /\
  (type order <> Some stop_loss -> calculateRiskAmount order entryPrice = zero) /\
  (type order <> Some take_profit -> calculateProfitTarget order entryPrice = zero) /\
  (num_falsy entryPrice = true ->
   calculateRiskAmount order entryPrice = zero /\
   calculateProfitTarget order entryPrice = zero) /\
  (calculateRiskAmount order entryPrice = zero \/
   calculateProfitTarget order entryPrice = zero) /\
  calculateRiskAmount (with_type order stop_loss) entryPrice ≃
  calculateProfitTarget (with_type order take_profit) entryPrice /\
  (ltb (to_num (quantity order)) zero = false ->
   ltb (calculateRiskAmount order entryPrice) zero = false /\
   ltb (calculateProfitTarget order entryPrice) zero = false).
Proof.
  unfold calculateRiskAmount, calculateProfitTarget.
  split; [| split; [| split; [| split; [| split; [| split]]]]].
  - intros e p q -> He Hp Hq. rewrite (truthy_nonzero e He), Hp, Hq, !orb_false_r.
    split; intros ->; rewrite bool_decide_true by reflexivity;
      cbn [negb to_num Math_abs sub add opp mul num_eq].
    + reflexivity.
    + rewrite <- (Qabs_opp (p + - e)). apply Qmult_comp; [| reflexivity].
      apply Qabs_wd. ring.
  - intros Ht. now rewrite bool_decide_false by exact Ht.
  - intros Ht. now rewrite bool_decide_false by exact Ht.
  - intros ->. rewrite !orb_true_r. split; reflexivity.
  - destruct (type order) as [[]|]; cbn; auto.
  - cbn [with_type apply_updates type price quantity default OrderUpdates.type
         OrderUpdates.price OrderUpdates.quantity].
    rewrite !bool_decide_true by reflexivity. cbn [negb orb].
    destruct (num_falsy entryPrice); [apply num_eq_refl |].
    cbn zeta. apply mul_eq_l, abs_sub_swap.
  - intros Hq. split.
    + destruct (negb _ || _); [reflexivity |]. cbn zeta. now apply abs_times_nonneg.
    + destruct (negb _ || _); [reflexivity |]. cbn zeta. now apply abs_times_nonneg.
Qed.

Lemma risk_and_target_witness :
  let order := with_entryPrice (plainOrder "sl" stop_loss sell (of_Z 47000) (of_Z 2) pending)
                 (Some (of_Z 45000)) in
  calculateRiskAmount order (entryPrice order) ≃ of_Z 4000 /\
  calculateProfitTarget order (entryPrice order) = zero /\
  calculateProfitTarget (with_type order take_profit) (entryPrice order) = of_Z 4000 /\
  calculateRiskAmount order (Some zero) = zero /\
  ltb (calculateRiskAmount order (Some (of_Z 1))) zero = false.
Proof.
  cbn zeta.
  destruct (risk_and_target
              (with_entryPrice (plainOrder "sl" stop_loss sell (of_Z 47000) (of_Z 2) pending)
                 (Some (of_Z 45000)))
              (Some (of_Z 45000))) as (Hdist & _ & Htarget & _).
  destruct (risk_and_target
              (with_entryPrice (plainOrder "sl" stop_loss sell (of_Z 47000) (of_Z 2) pending)
                 (Some (of_Z 45000)))
              (Some (of_Z 1))) as (_ & _ & _ & _ & _ & _ & Hneg).
  split.
  - refine (num_eq_trans _ _ _
              (proj1 (Hdist (inject_Z 45000) (inject_Z 47000) (inject_Z 2)
                        eq_refl _ eq_refl eq_refl) eq_refl) _);
      [discriminate | reflexivity].
  - split; [apply Htarget; discriminate |]. split; [reflexivity |].
    split; [reflexivity | exact (proj1 (Hneg eq_refl))].
Defined.

End Amounts.

Section Colours.
Local Open Scope Q_scope.

(** The colour of a PnL: green exactly for the numbers above [0], red
    exactly for the numbers below [0], gray for [0] and for [NaN]; the
    colour of the negated PnL is the colour with green and red swapped. *)
Theorem getPnLColor_spec (pnl : num) :
  (getPnLColor pnl = "#4caf50" <-> gtb pnl zero = true) /\
  (getPnLColor pnl = "#f44336" <-> ltb pnl zero = true) /\
  (getPnLColor pnl = "#757575" <-> pnl ≃ zero \/ pnl = NaN) /\
  getPnLColor (- pnl)%num =
  (if gtb pnl zero then "#f44336" else if ltb pnl zero then "#4caf50" else "#757575")%string.
Proof.
  unfold getPnLColor.
  destruct pnl as [x| | |]; cbn [gtb ltb zero opp num_eq];
    try (repeat split; try discriminate; try reflexivity; try tauto;
         intros [[] | H]; discriminate).
  rewrite <- (Qcompare_antisym x 0).
  assert (Hopp : (- x ?= 0) = CompOpp (x ?= 0)).
  { destruct (Qcompare_spec x 0) as [E | L | G];
      destruct (Qcompare_spec (- x) 0) as [E' | L' | G']; try reflexivity; exfalso; lra. }
  rewrite <- (Qcompare_antisym (- x) 0), Hopp.
  destruct (Qcompare_spec x 0) as [E | L | G]; cbn [CompOpp];
    repeat split; try discriminate; try reflexivity; try tauto;
    try (intros [H | H]; [lra | discriminate]).
Qed.

End Colours.

(** ** More on PnL and on themes *)

Section Realized.
Import TradingOrder.

(** The realized PnL is [0] unless the status is [filled] and the fill
    price is set and neither [0] nor [NaN], so a partially filled order
    never has any; then it is (fill - entry) x quantity on the buy side
    and the negation of that otherwise.  It does not depend on the
    reference price.  The fees are [order.fees] when set and truthy and
    [0] if not, and the percentage is [0] whenever the entry price is not
    above [0]. *)
Theorem calculatePnL_realized (order : TradingOrder) (referencePrice : num) :
  let entry := to_num (or_num (entryPrice order) (price order)) in
  let effectiveQuantity := to_num (or_num (fillQuantity order) (quantity order)) in
  let r := calculatePnL order referencePrice in
  PnLResult.realizedPnl r ≃
  match status order, or_num (fillPrice order) None with
  | filled, Some fill =>
      match side order with
      | Some buy => ((fill - entry) * effectiveQuantity)%num
      | _ => (- ((fill - entry) * effectiveQuantity))%num
      end
  | _, _ => zero
  end /\
  (forall otherPrice,
      PnLResult.realizedPnl (calculatePnL order otherPrice) = PnLResult.realizedPnl r) /\
  PnLResult.fees r = to_num (or_num (fees order) (Some zero)) /\
  (gtb entry zero = false -> PnLResult.percentage r = zero).
Proof.
  cbn zeta. unfold calculatePnL.
  cbn [PnLResult.realizedPnl PnLResult.fees PnLResult.percentage].
  split; [| split; [reflexivity | split; [reflexivity |]]].
  - destruct (status order); try apply num_eq_refl.
    destruct (fillPrice order) as [fill|]; cbn [or_num]; [| apply num_eq_refl].
    destruct (truthy fill); [| apply num_eq_refl].
    destruct (side order) as [[|]|]; try apply num_eq_refl; apply mul_sub_swap.
  - intros ->. reflexivity.
Qed.

Lemma calculatePnL_realized_witness :
  let order :=
    apply_updates (plainOrder "a" entry buy (of_Z 100) (of_Z 2) filled)
      (OrderUpdates.mk None None None None None None None None None None
         None None None None None None (Some (Some (of_Z 110))) None) in
  PnLResult.realizedPnl (calculatePnL order (of_Z 120)) = of_Z 20 /\
  PnLResult.unrealizedPnl (calculatePnL order (of_Z 120)) = of_Z 40 /\
  PnLResult.netPnl (calculatePnL order (of_Z 120)) = of_Z 60 /\
  PnLResult.percentage
    (calculatePnL (with_price order (Some (of_Z (-100)))) (of_Z 120)) = zero.
Proof.
  cbn zeta. split; [reflexivity |]. split; [reflexivity |]. split; [reflexivity |].
  apply (calculatePnL_realized
           (with_price
              (apply_updates (plainOrder "a" entry buy (of_Z 100) (of_Z 2) filled)
                 (OrderUpdates.mk None None None None None None None None None None
                    None None None None None None (Some (Some (of_Z 110))) None))
              (Some (of_Z (-100))))
           (of_Z 120)).
  reflexivity.
Defined.

End Realized.

Section MoreThemes.

Lemma sideTable_declared (e l sl tp m : OrderStyle) : declared (sideTable e l sl tp m).
Proof.
  intros key. unfold sideTable.
  rewrite !lookup_insert_is_Some, lookup_singleton_is_Some, !elem_of_cons, elem_of_nil.
  split.
  - intros H. repeat (destruct H as [H | [_ H]]; [left; now symmetry | right]).
    left. now symmetry.
  - intros H.
    repeat (destruct H as [-> | H];
            [repeat first [left; reflexivity | right; split; [discriminate |]]; reflexivity |]).
    contradiction.
Qed.

Lemma package_themes_declared (s : OrderSide) :
  declared (side_of lightTheme s) /\ declared (side_of darkTheme s).
Proof. destruct s; split; apply sideTable_declared. Qed.

(** The style that is resolved for an order.  On a side that holds the
    five declared keys, [getOrderStyle] always finds a style; it is the
    entry of the same name for the types [entry], [limit] and [market],
    but the [entry] style for [stop_loss] and [take_profit], whose
    entries are filed under [stopLoss] and [takeProfit], and for a type
    that is not set.  Without a side it throws.  Both themes of the
    package have the five keys on both sides. *)
Theorem getOrderStyle_resolution (theme : OrderTheme) (side : OrderSide) :
  declared (side_of theme side) ->
  (forall type, exists style,
      getOrderStyle theme (Some side) type = inr (Some style) /\
      side_of theme side !!
        match type with
        | Some limit => "limit"
        | Some market => "market"
        | _ => "entry"
        end = Some style) /\
  getOrderStyle theme (Some side) (Some stop_loss) =
    inr (side_of theme side !! theme_key entry) /\
  getOrderStyle theme (Some side) (Some take_profit) =
    inr (side_of theme side !! theme_key entry) /\
  (forall type, getOrderStyle theme None type = inl TypeError) /\
  (forall s, declared (side_of lightTheme s) /\ declared (side_of darkTheme s)).
Proof.
  intros Hd.
  assert (Hin : forall key, key ∈ ["entry"; "limit"; "stopLoss"; "takeProfit"; "market"] ->
                            exists style, side_of theme side !! key = Some style).
  { intros key Hk. apply Hd in Hk as [style Hs]. eauto. }
  assert (Hout : forall key, key ∉ ["entry"; "limit"; "stopLoss"; "takeProfit"; "market"] ->
                             side_of theme side !! key = None).
  { intros key Hk. destruct (side_of theme side !! key) eqn:E; [| reflexivity].
    exfalso. apply Hk, Hd. eauto. }
  assert (Hsl : side_of theme side !! "stop_loss" = None)
    by (apply Hout; apply (bool_decide_unpack _); reflexivity).
  assert (Htp : side_of theme side !! "take_profit" = None)
    by (apply Hout; apply (bool_decide_unpack _); reflexivity).
  assert (Hun : side_of theme side !! "undefined" = None)
    by (apply Hout; apply (bool_decide_unpack _); reflexivity).
  destruct (Hin "entry" ltac:(apply (bool_decide_unpack _); reflexivity)) as [e He].
  destruct (Hin "limit" ltac:(apply (bool_decide_unpack _); reflexivity)) as [l Hl].
  destruct (Hin "market" ltac:(apply (bool_decide_unpack _); reflexivity)) as [m Hm].
  unfold getOrderStyle. cbn [type_key type_name theme_key].
  split; [| split; [| split; [| split]]].
  - intros [[]|]; cbn [type_key type_name];
      rewrite ?Hsl, ?Htp, ?Hun, ?He, ?Hl, ?Hm; eauto.
  - now rewrite Hsl.
  - now rewrite Htp.
  - reflexivity.
  - apply package_themes_declared.
Qed.

Lemma getOrderStyle_resolution_witness :
  (OrderStyle.lineColor <$> side_of darkTheme buy !! theme_key stop_loss) = Some "#ef5350" /\
  match getOrderStyle darkTheme (Some buy) (Some stop_loss) with
  | inr (Some style) => OrderStyle.lineColor style = "#42a5f5"
  | _ => False
  end /\
  getOrderStyle darkTheme (Some buy) (Some take_profit) =
  inr (side_of darkTheme buy !! theme_key entry).
Proof.
  destruct (getOrderStyle_resolution darkTheme buy (sideTable_declared _ _ _ _ _))
    as (_ & Hsl & Htp & _).
  split; [vm_compute; reflexivity |]. split; [| exact Htp].
  rewrite Hsl. vm_compute. reflexivity.
Defined.

Lemma spread_empty (a : SideTheme) : spread a (Some ∅) = a.
Proof. cbn. apply (left_id_L ∅ (∪)). Qed.

Lemma spread_idem (a : SideTheme) (b : option SideTheme) : spread (spread a b) b = spread a b.
Proof.
  destruct b as [b|]; cbn; [| reflexivity].
  now rewrite (assoc_L (∪)), (idemp_L (∪)).
Qed.

Lemma spread_keeps (a : SideTheme) (b : option SideTheme) (key : string) :
  is_Some (a !! key) -> is_Some (spread a b !! key).
Proof.
  intros H. rewrite spread_lookup. destruct (b ≫= (.!! key)); [eauto | exact H].
Qed.

Lemma spread_covered (a whole : SideTheme) :
  (forall key, is_Some (a !! key) -> is_Some (whole !! key)) -> spread a (Some whole) = whole.
Proof.
  intros H. cbn. apply map_eq. intros key. rewrite lookup_union.
  destruct (whole !! key) eqn:Eb, (a !! key) eqn:Ea; try reflexivity.
  destruct (H key) as [x Hx]; [rewrite Ea; eauto |]. congruence.
Qed.

(** Merging themes.  A partial theme without sides, or with two empty
    sides, leaves the base as it is; merging the same partial a second
    time changes nothing; no key of the base is lost; and a whole
    theme that has every key of the base replaces the base. *)
Theorem mergeThemes_laws (base : OrderTheme) (custom : PartialTheme) :
  mergeThemes base (PartialTheme.mk None None) = base /\
  mergeThemes base (PartialTheme.mk (Some ∅) (Some ∅)) = base /\
  mergeThemes (mergeThemes base custom) custom = mergeThemes base custom /\
  (forall s key, is_Some (side_of base s !! key) ->
                 is_Some (side_of (mergeThemes base custom) s !! key)) /\
  (forall whole,
      (forall s key, is_Some (side_of base s !! key) -> is_Some (side_of whole s !! key)) ->
      mergeThemes base (total whole) = whole).
Proof.
  split; [| split; [| split; [| split]]].
  - destruct base. reflexivity.
  - destruct base. unfold mergeThemes.
    cbn [OrderTheme.buy OrderTheme.sell PartialTheme.buy PartialTheme.sell].
    now rewrite !spread_empty.
  - unfold mergeThemes. cbn [OrderTheme.buy OrderTheme.sell]. now rewrite !spread_idem.
  - intros s key H. rewrite mergeThemes_side. now apply spread_keeps.
  - intros [wb ws] Hw. unfold mergeThemes, total.
    cbn [OrderTheme.buy OrderTheme.sell PartialTheme.buy PartialTheme.sell].
    f_equal; apply spread_covered; intros key; [apply (Hw buy key) | apply (Hw sell key)].
Qed.

Lemma mergeThemes_laws_witness : mergeThemes lightTheme (total darkTheme) = darkTheme.
Proof.
  apply (proj2 (proj2 (proj2 (proj2 (mergeThemes_laws lightTheme (total darkTheme)))))).
  intros s key H. destruct (package_themes_declared s) as [Hlight Hdark].
  apply Hdark, Hlight, H.
Defined.

(** The line style that [getLineStyle] gives to an order that is not
    cancelled is the line style of the entry that the two themes of the
    package file under its type, on either side: dashed for a limit order,
    solid for the others.  A cancelled order is dotted, which no entry of
    the two themes is. *)
Theorem getLineStyle_themes (order : TradingOrder) (type : OrderType) (side : OrderSide) :
  TradingOrder.type order = Some type ->
  (TradingOrder.status order <> cancelled ->
   side_of lightTheme side !! theme_key type ≫= OrderStyle.lineStyle =
     Some (getLineStyle order) /\
   side_of darkTheme side !! theme_key type ≫= OrderStyle.lineStyle =
     Some (getLineStyle order)) /\
  (TradingOrder.status order = cancelled ->
   getLineStyle order = dotted /\
   side_of lightTheme side !! theme_key type ≫= OrderStyle.lineStyle <> Some dotted /\
   side_of darkTheme side !! theme_key type ≫= OrderStyle.lineStyle <> Some dotted).
Proof.
  intros Htype. unfold getLineStyle. rewrite Htype. split.
  - intros Hst. rewrite decide_False by exact Hst.
    destruct type, side; split; vm_compute; reflexivity.
  - intros Hst. rewrite decide_True by exact Hst.
    split; [reflexivity |]. destruct type, side; split; vm_compute; discriminate.
Qed.

Lemma getLineStyle_themes_witness :
  getLineStyle (plainOrder "a" limit buy (of_Z 1) (of_Z 1) pending) = dashed /\
  side_of darkTheme buy !! "limit" ≫= OrderStyle.lineStyle = Some dashed /\
  getLineStyle (plainOrder "a" limit buy (of_Z 1) (of_Z 1) cancelled) = dotted.
Proof.
  destruct (getLineStyle_themes (plainOrder "a" limit buy (of_Z 1) (of_Z 1) pending)
              limit buy eq_refl) as [Hopen _].
  destruct (getLineStyle_themes (plainOrder "a" limit buy (of_Z 1) (of_Z 1) cancelled)
              limit buy eq_refl) as [_ Hcancelled].
  destruct (Hopen ltac:(discriminate)) as [_ Hdark].
  destruct (Hcancelled eq_refl) as [Hdotted _].
  split; [reflexivity |]. split; [exact Hdark | exact Hdotted].
Defined.

End MoreThemes.

(** ** The handlers of the overlay *)

Section Handlers.
Import OrderOverlay.

(** A pressed move on the overlay of a pending order whose first point
    holds a number: the handler answers [true], the price of the payload
    becomes that number, and the manager is told once, with the old price
    of the payload.  When the manager holds the id, the price of the
    stored order becomes the number too, then the [onPriceChange]
    handlers and the [dragged] event follow; when it does not, the
    manager stays as it is and nobody is called.  On an order that is not
    pending the handler answers [false] and nothing changes; without a
    number in the first point it answers [true] and nothing changes. *)
Theorem onPressedMoving_spec (orderData : OrderOverlayData) (pts : list (option num))
    (this : OrderManagerImpl.t) :
  let order := OrderOverlayData.order orderData in
  let orderId := TradingOrder.id order in
  (TradingOrder.status order = pending ->
   forall newPrice,
     let overlay := mkOverlay (Some orderData) (Some newPrice :: pts) in
     let overlay' := mkOverlay (Some (payload_with_price orderData newPrice))
                       (Some newPrice :: pts) in
     onPressedMoving overlay None = handled (inr true) overlay' None [] /\
     onPressedMoving overlay (Some this) =
     match JsMap.get orderId (OrderManagerImpl.orders this) with
     | None => handled (inr true) overlay' (Some this) []
     | Some stored =>
         let moved := with_price stored (Some newPrice) in
         let this' := OrderManagerImpl.set_orders (JsMap.set orderId moved) this in
         handled (inr true) overlay' (Some this')
           (called this' OrderCallback.onPriceChange
              (fun subscriber =>
                 call_onPriceChange subscriber orderId newPrice (TradingOrder.price order)) ++
            notified this' orderId ev_dragged moved)
     end) /\
  (TradingOrder.status order = pending ->
   onPressedMoving (mkOverlay (Some orderData) []) (Some this) =
     handled (inr true) (mkOverlay (Some orderData) []) (Some this) [] /\
   onPressedMoving (mkOverlay (Some orderData) (None :: pts)) (Some this) =
     handled (inr true) (mkOverlay (Some orderData) (None :: pts)) (Some this) []) /\
  (TradingOrder.status order <> pending ->
   onPressedMoving (mkOverlay (Some orderData) pts) (Some this) =
   handled (inr false) (mkOverlay (Some orderData) pts) (Some this) []).
Proof.
  cbn zeta. unfold onPressedMoving, isOrderDraggable. cbn [extendData points].
  split; [| split].
  - intros Hst newPrice. rewrite decide_True by exact Hst. split; [reflexivity |].
    unfold call. rewrite handlePriceChange_run.
    destruct (JsMap.get _ (OrderManagerImpl.orders this)); reflexivity.
  - intros Hst. rewrite decide_True by exact Hst. split; reflexivity.
  - intros Hst. rewrite decide_False by exact Hst. reflexivity.
Qed.

Lemma onPressedMoving_spec_witness :
  let this := addOrders [(sampleEnv, request "a" limit buy (of_Z 44000) (of_Z 1))]
                (watched (Some readyChart)) in
  let order := OrderManagerImpl.buildOrder sampleEnv (request "a" limit buy (of_Z 44000) (of_Z 1)) in
  let orderData := OrderManagerImpl.overlayData this order None in
  let r := onPressedMoving (mkOverlay (Some orderData) [Some (of_Z 44500)]) (Some this) in
  answer r = inr true /\
  extendData (overlay_after r) = Some (payload_with_price orderData (of_Z 44500)) /\
  match manager_after r with
  | Some this' =>
      OrderManagerImpl.getOrder "a" this' = Some (with_price order (Some (of_Z 44500)))
  | None => False
  end /\
  map effect (effects r) =
  [call_onPriceChange 1 "a" (of_Z 44500) (Some (of_Z 44000));
   call_onOrderEvent 1 "a" ev_dragged (with_price order (Some (of_Z 44500)))].
Proof.
  cbn zeta.
  set (this := addOrders _ _).
  set (order := OrderManagerImpl.buildOrder sampleEnv (request "a" limit buy (of_Z 44000) (of_Z 1))).
  destruct (onPressedMoving_spec (OrderManagerImpl.overlayData this order None) [] this)
    as (Hmove & _ & _).
  destruct (Hmove eq_refl (of_Z 44500)) as [_ Hrun].
  rewrite Hrun. repeat split.
Defined.

(** Clicks.  A click on the overlay of an order answers [true] and calls
    [onOrderClick], with the id of the payload, on every subscriber that
    has that handler, in the order of registration; the manager and the
    overlay stay as they are, whether the id is in the store or not.  A
    right click on such an overlay always answers [true], which keeps the
    chart from removing it.  On an overlay without payload the five
    handlers answer [false] and do nothing; without a manager the
    handlers answer as before and call nobody. *)
Theorem overlay_clicks (orderData : OrderOverlayData) (pts : list (option num))
    (this : OrderManagerImpl.t) :
  let overlay := mkOverlay (Some orderData) pts in
  let bare := mkOverlay None pts in
  onClick overlay (Some this) =
  handled (inr true) overlay (Some this)
    (called this OrderCallback.onOrderClick
       (fun subscriber =>
          call_onOrderClick subscriber (TradingOrder.id (OrderOverlayData.order orderData)))) /\
  onClick overlay None = handled (inr true) overlay None [] /\
  onPressedMoveEnd overlay None = handled (inr true) overlay None [] /\
  onRightClick overlay = true /\
  onPressedMoveStart bare = false /\
  onPressedMoving bare (Some this) = handled (inr false) bare (Some this) [] /\
  onPressedMoveEnd bare (Some this) = handled (inr false) bare (Some this) [] /\
  onClick bare (Some this) = handled (inr false) bare (Some this) [] /\
  onRightClick bare = false.
Proof.
  cbn zeta. repeat split.
  unfold onClick, call. cbn [extendData]. rewrite handleOrderClick_run. reflexivity.
Qed.

End Handlers.

(** ** Validation *)

Section Validation.
Import OrderManagerImpl.

(** What validation lets through: an order with a type, a side, a
    symbol that is not the empty string, and a price and a quantity that
    are numbers above [0], [+Infinity] included, or [NaN].  What it
    reports is a selection of the five faults, each at most once and in
    a fixed order. *)
Theorem validateOrder_spec (order : TradingOrder) :
  (validateOrder order = [] <->
   is_Some (TradingOrder.type order) /\
   is_Some (TradingOrder.side order) /\
   (exists p, TradingOrder.price order = Some p /\ (gtb p zero = true \/ p = NaN)) /\
   (exists q, TradingOrder.quantity order = Some q /\ (gtb q zero = true \/ q = NaN)) /\
   (exists s, TradingOrder.symbol order = Some s /\ s <> "")) /\
  sublist (validateOrder order) faults.
Proof.
  split.
  - rewrite validateOrder_nil. unfold str_falsy.
    split; intros (Ht & Hs & (p & Hp & Hp') & (q & Hq & Hq') & Hsym);
      (split; [exact Ht |]); (split; [exact Hs |]).
    + split; [exists p; split; [exact Hp | now apply leb_zero_false] |].
      split; [exists q; split; [exact Hq | now apply leb_zero_false] |].
      destruct (TradingOrder.symbol order) as [s|]; [| discriminate].
      destruct (decide (s = "")); [discriminate | eauto].
    + split; [exists p; split; [exact Hp | now apply leb_zero_false] |].
      split; [exists q; split; [exact Hq | now apply leb_zero_false] |].
      destruct Hsym as (s & -> & Hne). now rewrite decide_False.
  - unfold validateOrder, faults.
    destruct (TradingOrder.type order), (TradingOrder.side order),
      (TradingOrder.price order) as [p|], (TradingOrder.quantity order) as [q|],
      (str_falsy (TradingOrder.symbol order));
      try destruct (leb p zero); try destruct (leb q zero); cbn [app];
      repeat first [apply sublist_nil | apply sublist_skip | apply sublist_cons].
Qed.

(** A request that validation turns down: [addOrder] throws
    [Invalid order: ] followed by the faults, joined by a comma and a
    space, and nothing has happened: the manager is as it was, no overlay
    was asked for and no subscriber was called. *)
Theorem addOrder_rejected (env : Env) (orderOptions : CreateOrderOptions) (this : t) :
  validateOrder (buildOrder env orderOptions) <> [] ->
  addOrder env orderOptions this =
  (inl (Error ("Invalid order: " +:+
               JsArray.join ", " (validateOrder (buildOrder env orderOptions)))),
   this, []).
Proof. apply addOrder_invalid. Qed.

Lemma addOrder_rejected_witness :
  addOrder sampleEnv emptyRequest (watched (Some readyChart)) =
  (inl (Error ("Invalid order: Order type is required, Order side is required, " +:+
               "Valid price is required, Valid quantity is required, Symbol is required")),
   watched (Some readyChart), []).
Proof.
  apply (addOrder_rejected sampleEnv emptyRequest (watched (Some readyChart))).
  discriminate.
Defined.

End Validation.

(** ** The text without a gap *)

Section CompactText.
Import JSON JsonFacts.

Lemma compact_array (items : list JsValue) :
  JSONCompact.serialize (JArray items) =
  Some (JSONCompact.enclose "[" "]" (map CompactFacts.item_text items)).
Proof.
  cbn [JSONCompact.serialize]. apply f_equal. apply f_equal.
  induction items as [| x items IH]; [reflexivity |].
  cbn [map]. now rewrite IH.
Qed.

Lemma compact_None (x : JsValue) : JSONCompact.serialize x = None <-> x = JUndefined.
Proof.
  destruct x as [| | [] | [] | | |]; cbn; split; try discriminate; reflexivity.
Qed.

Lemma compact_object (props : list (string * JsValue)) :
  JSONCompact.serialize (JObject props) =
  Some (JSONCompact.enclose "{" "}"
          (map CompactFacts.member_text (List.filter is_defined props))).
Proof.
  cbn [JSONCompact.serialize]. apply f_equal. apply f_equal.
  induction props as [| [k x] props IH]; [reflexivity |].
  cbn [List.filter]. unfold is_defined at 1. cbn [snd].
  destruct (JSONCompact.serialize x) as [t|] eqn:Hx.
  - rewrite IH. unfold CompactFacts.member_text at 2, CompactFacts.item_text.
    destruct x; try discriminate; cbn [map fst snd]; now rewrite Hx.
  - apply compact_None in Hx as ->. exact IH.
Qed.

Lemma enclose_app (o c : ascii) (m : text) (ms : list text) (rest : text) :
  JSONCompact.enclose o c (m :: ms) ++ rest =
  o :: m ++ flat_map (fun t => ","%char :: t) ms ++ c :: rest.
Proof. unfold JSONCompact.enclose. cbn [app]. now rewrite <- !app_assoc. Qed.

Lemma ends_number_bracket (s : text) : ends_number ("]"%char :: s).
Proof. repeat split; discriminate. Qed.

Lemma ends_number_brace (s : text) : ends_number ("}"%char :: s).
Proof. repeat split; discriminate. Qed.

Lemma compact_elements (items : list JsValue) (x : JsValue) (rest : text) (fuel : nat) :
  Forall (fun y => parses (CompactFacts.item_text y) (item_value y) (weight (item_value y)))
         (x :: items) ->
  (list_sum (map (fun v => S (weight v)) (map item_value (x :: items))) <= fuel)%nat ->
  parse_elements fuel
    (CompactFacts.item_text x ++
     flat_map (fun t => ","%char :: t) (map CompactFacts.item_text items) ++
     "]"%char :: rest) =
  Some (map item_value (x :: items), rest).
Proof.
  revert x fuel. induction items as [| y items IH]; intros x fuel Hall Hfuel;
    apply Forall_cons in Hall as [Hx Hall]; cbn -[weight item_value] in Hfuel;
    (destruct fuel as [| f]; [lia |]); cbn [parse_elements].
  - cbn [map flat_map app]. rewrite (Hx f _) by (try lia; apply ends_number_bracket).
    reflexivity.
  - cbn [map flat_map]. rewrite <- app_assoc. cbn [app].
    rewrite (Hx f _) by (try lia; apply ends_number_comma).
    cbn [mbind option_bind app skip_ws]. change (is_ws ",") with false. cbn iota.
    change (code ",") with 44%N. cbn iota.
    rewrite (IH y f Hall) by (cbn -[weight item_value]; lia). reflexivity.
Qed.

Lemma compact_parses_array (items : list JsValue) :
  Forall (fun y => parses (CompactFacts.item_text y) (item_value y) (weight (item_value y)))
         items ->
  Forall (fun y => starts (CompactFacts.item_text y)) items ->
  parses (JSONCompact.enclose "[" "]" (map CompactFacts.item_text items))
         (JArray (map item_value items)) (weight (JArray (map item_value items))).
Proof.
  intros Hall Hstarts fuel rest Hfuel _. rewrite weight_array in Hfuel.
  destruct fuel as [| f]; [lia |].
  destruct items as [| x items]; [reflexivity |].
  cbn [map]. rewrite enclose_app. cbn [parse_value skip_ws].
  change (is_ws "[") with false. cbn iota. change (code "[") with 91%N. cbn iota.
  apply Forall_cons in Hstarts as [Hsx _].
  rewrite skip_ws_starts by exact Hsx.
  rewrite (compact_elements items x rest f Hall)
    by (cbn -[weight item_value] in *; lia).
  destruct (CompactFacts.item_text x) as [| c t]; [contradiction |].
  destruct Hsx as (_ & Hc & _). cbn [app].
  rewrite (proj2 (N.eqb_neq _ _) Hc). reflexivity.
Qed.

Lemma compact_members (ms : list (string * JsValue)) (m : string * JsValue)
    (rest : text) (fuel : nat) :
  Forall (fun y => parses (CompactFacts.item_text (snd y)) (item_value (snd y))
                     (weight (item_value (snd y)))) (m :: ms) ->
  (list_sum (map (fun y => S (weight (snd y))) (map member_value (m :: ms))) <= fuel)%nat ->
  parse_members fuel
    (CompactFacts.member_text m ++
     flat_map (fun t => ","%char :: t) (map CompactFacts.member_text ms) ++
     "}"%char :: rest) =
  Some (map member_value (m :: ms), rest).
Proof.
  revert m fuel. induction ms as [| y ms IH]; intros [k x] fuel Hall Hfuel;
    apply Forall_cons in Hall as [Hx Hall]; cbn [snd] in Hx;
    cbn -[weight item_value] in Hfuel;
    (destruct fuel as [| f]; [lia |]); cbn [parse_members];
    unfold CompactFacts.member_text at 1, JSONCompact.member, quote;
    cbn [fst snd app skip_ws];
    change (is_ws dquote) with false; cbn iota; change (code dquote =? 34)%N with true;
    cbn iota; rewrite <- !app_assoc; cbn [app]; rewrite parse_string_quote;
    cbn [mbind option_bind skip_ws]; change (is_ws ":") with false; cbn iota;
    change (code ":" =? 58)%N with true; cbn iota;
    rewrite string_of_list_ascii_of_string.
  - cbn [map flat_map app]. rewrite (Hx f _) by (try lia; apply ends_number_brace).
    reflexivity.
  - cbn [map flat_map]. rewrite <- app_assoc. cbn [app].
    rewrite (Hx f _) by (try lia; apply ends_number_comma).
    cbn [mbind option_bind app skip_ws]. change (is_ws ",") with false. cbn iota.
    change (code ",") with 44%N. cbn iota.
    rewrite (IH y f Hall) by (cbn -[weight item_value]; lia). reflexivity.
Qed.

Lemma compact_parses_object (ms : list (string * JsValue)) :
  Forall (fun y => parses (CompactFacts.item_text (snd y)) (item_value (snd y))
                     (weight (item_value (snd y)))) ms ->
  NoDup (map fst ms) ->
  parses (JSONCompact.enclose "{" "}" (map CompactFacts.member_text ms))
         (JObject (map member_value ms)) (weight (JObject (map member_value ms))).
Proof.
  intros Hall Hnd fuel rest Hfuel _. rewrite weight_object in Hfuel.
  destruct fuel as [| f]; [lia |].
  destruct ms as [| m ms]; [reflexivity |].
  cbn [map]. rewrite enclose_app. cbn [parse_value skip_ws].
  change (is_ws "{") with false. cbn iota. change (code "{") with 123%N. cbn iota.
  rewrite (compact_members ms m rest f Hall)
    by (cbn -[weight item_value] in *; lia).
  unfold CompactFacts.member_text at 1, JSONCompact.member, quote. cbn [app skip_ws].
  change (is_ws dquote) with false. cbn iota. change (code dquote =? 125)%N with false.
  cbn iota. cbn [mbind option_bind]. rewrite object_of_nodup; [reflexivity |].
  rewrite map_map. cbn [member_value fst]. exact Hnd.
Qed.

(** The text without a gap of a representable value parses back to what
    the round trip keeps of it. *)
Lemma compact_parses (v : JsValue) :
  forall t,
    representable v -> JSONCompact.serialize v = Some t ->
    parses t (normalize v) (weight (normalize v)) /\ starts t.
Proof.
  induction v as [| | b | n | s | items IH | props IH] using JsValue_nested_ind;
    intros t Hrep Hser.
  - discriminate.
  - exact (serialize_parses JNull 0 t Hrep Hser).
  - apply (serialize_parses (JBool b) 0 t Hrep). destruct b; exact Hser.
  - apply (serialize_parses (JNumber n) 0 t Hrep). destruct n; exact Hser.
  - exact (serialize_parses (JString s) 0 t Hrep Hser).
  - rewrite compact_array in Hser. injection Hser as <-. rewrite normalize_array.
    assert (Hitems : Forall (fun y => parses (CompactFacts.item_text y) (item_value y)
                                        (weight (item_value y)) /\
                                      starts (CompactFacts.item_text y)) items).
    { cbn in Hrep. induction IH as [| x items Hx _ IHl]; constructor.
      - destruct Hrep as [Hrx _]. unfold CompactFacts.item_text.
        destruct (JSONCompact.serialize x) as [tx|] eqn:Hsx.
        + destruct (Hx tx Hrx eq_refl) as [Hp Hs]. cbn [default].
          destruct x; try discriminate; split; assumption.
        + apply compact_None in Hsx as ->. cbn.
          split; [apply parses_null | repeat split; discriminate].
      - apply IHl. apply Hrep. }
    split; [apply compact_parses_array; eapply Forall_impl; try exact Hitems;
            intros y Hy; apply Hy |].
    destruct items; repeat split; discriminate.
  - rewrite compact_object in Hser. injection Hser as <-. rewrite normalize_object.
    cbn in Hrep. destruct Hrep as [Hnd Hrep].
    assert (Hkeep : Forall (fun y => parses (CompactFacts.item_text (snd y))
                                       (item_value (snd y))
                                       (weight (item_value (snd y))))
                      (List.filter is_defined props)).
    { induction IH as [| [k x] props Hx _ IHl]; [constructor |].
      cbn [List.filter]. unfold is_defined at 1. cbn [snd] in *.
      destruct Hrep as [Hrx Hrep]. apply NoDup_cons in Hnd as [_ Hnd].
      specialize (IHl Hnd Hrep).
      destruct x; try exact IHl; constructor; try exact IHl; cbn [snd];
        unfold CompactFacts.item_text;
        match goal with |- parses (default _ (JSONCompact.serialize ?y)) _ _ =>
          destruct (JSONCompact.serialize y) as [ty|] eqn:Hsy;
            [| apply compact_None in Hsy; discriminate];
          exact (proj1 (Hx ty Hrx eq_refl)) end. }
    assert (Hnd' : NoDup (map fst (List.filter is_defined props))).
    { clear -Hnd. induction props as [| [k x] props IHl]; [constructor |].
      cbn [map fst] in Hnd. apply NoDup_cons in Hnd as [Hk Hnd].
      cbn [List.filter]. destruct (is_defined (k, x)); [| now apply IHl].
      cbn [map fst]. apply NoDup_cons. split; [| now apply IHl].
      intros Hin. apply Hk. apply list_elem_of_fmap in Hin as ([k' x'] & -> & Hin).
      apply list_elem_of_fmap. exists (k', x'). split; [reflexivity |].
      apply list_elem_of_In, filter_In in Hin as [Hin _]. now apply list_elem_of_In. }
    assert (Hvals : map (fun m => (fst m, normalize (snd m))) (List.filter is_defined props) =
                    map member_value (List.filter is_defined props)).
    { apply map_ext_in. intros [k x] Hin. apply filter_In in Hin as [_ Hd].
      unfold member_value, item_value, is_defined in *. cbn [fst snd] in *.
      now destruct x. }
    rewrite Hvals.
    split; [exact (compact_parses_object _ Hkeep Hnd') |].
    destruct (List.filter is_defined props); repeat split; discriminate.
Qed.

Lemma enclose_length (o c : ascii) (ts : list text) :
  (1 + list_sum (map (fun t => S (length t)) ts) <= length (JSONCompact.enclose o c ts))%nat.
Proof.
  destruct ts as [| m ms]; [cbn; lia |].
  unfold JSONCompact.enclose. cbn [length map list_sum]. rewrite !length_app. cbn [length].
  assert (H : (list_sum (map (fun t => S (length t)) ms) <=
               length (flat_map (fun t => ","%char :: t) ms))%nat).
  { induction ms as [| x ms IH]; [cbn; lia |].
    cbn [flat_map map list_sum]. cbn [app length]. rewrite !length_app.
    change (list_sum (?a :: ?l)) with (a + list_sum l)%nat. lia. }
  change (list_sum (?a :: ?l)) with (a + list_sum l)%nat. lia.
Qed.

Lemma compact_weight (v : JsValue) :
  forall t, JSONCompact.serialize v = Some t -> (weight (normalize v) <= length t)%nat.
Proof.
  induction v as [| | b | n | s | items IH | props IH] using JsValue_nested_ind;
    intros t Hser.
  - discriminate.
  - exact (weight_length JNull 0 t Hser).
  - apply (weight_length (JBool b) 0 t). destruct b; exact Hser.
  - apply (weight_length (JNumber n) 0 t). destruct n; exact Hser.
  - exact (weight_length (JString s) 0 t Hser).
  - rewrite compact_array in Hser. injection Hser as <-.
    rewrite normalize_array, weight_array, map_map.
    pose proof (enclose_length "[" "]" (map CompactFacts.item_text items)) as Hb.
    rewrite map_map in Hb.
    assert (Hle : (list_sum (map (fun x => S (weight (item_value x))) items) <=
                   list_sum (map (fun x => S (length (CompactFacts.item_text x))) items))%nat).
    { apply list_sum_le. eapply Forall_impl; [exact IH |]. intros x Hx. cbn beta in *.
      unfold CompactFacts.item_text. destruct (JSONCompact.serialize x) as [tx|] eqn:Hsx.
      - specialize (Hx _ eq_refl). cbn [default]. destruct x; try discriminate; cbn in *; lia.
      - apply compact_None in Hsx as ->. cbn. lia. }
    lia.
  - rewrite compact_object in Hser. injection Hser as <-.
    rewrite normalize_object, weight_object, map_map.
    pose proof (enclose_length "{" "}"
                  (map CompactFacts.member_text (List.filter is_defined props))) as Hb.
    rewrite map_map in Hb.
    assert (Hle : (list_sum (map (fun x => S (weight (snd (fst x, normalize (snd x)))))
                               (List.filter is_defined props)) <=
                   list_sum (map (fun x => S (length (CompactFacts.member_text x)))
                               (List.filter is_defined props)))%nat).
    { apply list_sum_le. apply Forall_forall. intros [k x] Hin.
      apply list_elem_of_In, filter_In in Hin as [Hin Hd]. cbn [fst snd].
      rewrite Forall_forall in IH. specialize (IH (k, x) (proj2 (list_elem_of_In _ _) Hin)).
      cbn [snd] in IH. unfold CompactFacts.member_text, JSONCompact.member.
      rewrite !length_app. cbn [length fst snd].
      unfold CompactFacts.item_text. destruct (JSONCompact.serialize x) as [tx|] eqn:Hsx.
      - specialize (IH _ eq_refl). cbn [default]. unfold id. lia.
      - apply compact_None in Hsx as ->. discriminate. }
    lia.
Qed.

(** Stringify without a gap, then parse: a representable value comes back
    as what the round trip keeps of it. *)
Lemma parse_compact (v : JsValue) (s : string) :
  representable v -> JSONCompact.stringify v = Some s -> parse s = Some (normalize v).
Proof.
  unfold JSONCompact.stringify, parse. intros Hrep Hs.
  destruct (JSONCompact.serialize v) as [t|] eqn:Ht; [| discriminate]. injection Hs as <-.
  rewrite list_ascii_of_string_of_list_ascii.
  destruct (compact_parses v t Hrep Ht) as [Hp _].
  pose proof (compact_weight v t Ht) as Hw.
  specialize (Hp (S (length t)) [] ltac:(lia) I). rewrite app_nil_r in Hp.
  now rewrite Hp.
Qed.

End CompactText.

(** ** Saved orders *)

Section SavedOrders.
Import JSON JsonFacts OrderPersistence.

Lemma text_truthy (t : text) : starts t -> str_falsy (Some (string_of_list_ascii t)) = false.
Proof. destruct t as [| c t]; [contradiction |]. reflexivity. Qed.

Lemma saved_text (orders : list TradingOrder) :
  exists text,
    JSONCompact.stringify (JArray (map objectOf orders)) = Some text /\
    str_falsy (Some text) = false.
Proof.
  unfold JSONCompact.stringify. rewrite compact_array. cbn [fmap option_fmap option_map].
  eexists. split; [reflexivity |]. apply text_truthy.
  destruct (map CompactFacts.item_text (map objectOf orders)); repeat split; discriminate.
Qed.

Lemma orders_representable (orders : list TradingOrder) :
  Forall json_representable orders -> representable (JArray (map objectOf orders)).
Proof.
  intros Hall. cbn. induction Hall as [| o orders Ho _ IH]; [exact I |].
  split; [now apply objectOf_representable | exact IH].
Qed.

Lemma orderOf_normalized (orders : list TradingOrder) :
  Forall json_representable orders ->
  map orderOf (map (fun o => normalize (objectOf o)) orders) = map Some orders.
Proof.
  intros Hall. rewrite map_map. induction Hall as [| o orders Ho _ IH]; [reflexivity |].
  cbn [map]. rewrite orderOf_objectOf by exact Ho. now rewrite IH.
Qed.

(** What [saveOrders] does to the store when nothing goes to the console. *)
Lemma saveOrders_accepted (orders : list TradingOrder) (symbol : option string)
    (localStorage : Storage.t) :
  snd (saveOrders orders symbol localStorage) = [] ->
  exists text,
    JSONCompact.stringify (JArray (map objectOf orders)) = Some text /\
    str_falsy (Some text) = false /\
    fst (saveOrders orders symbol localStorage) =
    Storage.mk (JsMap.set (ordersKey symbol) text (Storage.items localStorage))
      (Storage.refuses localStorage).
Proof.
  destruct (saved_text orders) as (text & Htext & Htruthy).
  unfold saveOrders, Storage.setItem. rewrite Htext. cbn [default].
  destruct (Storage.refuses localStorage _ _ _); [discriminate |].
  intros _. exists text. repeat split; assumption.
Qed.

Lemma loadOrders_text (symbol : option string) (localStorage : Storage.t) (text : string)
    (v : JsValue) :
  Storage.getItem (ordersKey symbol) localStorage = Some text ->
  str_falsy (Some text) = false -> JSON.parse text = Some v ->
  loadOrders symbol localStorage = (v, []).
Proof. intros Hget Ht Hp. unfold loadOrders. now rewrite Hget, Ht, Hp. Qed.

Lemma loadOrders_saved (orders : list TradingOrder) (symbol : option string)
    (localStorage : Storage.t) :
  Forall json_representable orders ->
  snd (saveOrders orders symbol localStorage) = [] ->
  loadOrders symbol (fst (saveOrders orders symbol localStorage)) =
  (JArray (map (fun o => normalize (objectOf o)) orders), []).
Proof.
  intros Hall Hquiet.
  destruct (saveOrders_accepted orders symbol localStorage Hquiet) as (text & Htext & Ht & ->).
  apply (loadOrders_text _ _ text).
  - unfold Storage.getItem. cbn [Storage.items]. apply get_set_eq.
  - exact Ht.
  - rewrite (parse_compact _ _ (orders_representable orders Hall) Htext), normalize_array.
    now rewrite map_map.
Qed.

(** Save, then load.  When the browser takes the write (nothing goes to
    the console), loading under the same symbol gives the saved list back,
    without a warning: order by order the object of the order without its
    unset properties, and reading these objects as orders gives the
    orders.  This holds for the empty list too, whatever was stored under
    the key before. *)
Theorem saveOrders_loadOrders (orders : list TradingOrder) (symbol : option string)
    (localStorage : Storage.t) :
  Forall json_representable orders ->
  snd (saveOrders orders symbol localStorage) = [] ->
  let saved := fst (saveOrders orders symbol localStorage) in
  loadOrders symbol saved = (JArray (map (fun o => normalize (objectOf o)) orders), []) /\
  match fst (loadOrders symbol saved) with
  | JArray items => map orderOf items = map Some orders
  | _ => False
  end.
Proof.
  intros Hall Hquiet. cbn zeta.
  rewrite (loadOrders_saved orders symbol localStorage Hall Hquiet).
  split; [reflexivity |]. cbn [fst]. now apply orderOf_normalized.
Qed.

Lemma saveOrders_loadOrders_witness :
  let saved := fst (saveOrders savedOrders (Some "BTCUSDT") emptyStorage) in
  Storage.items saved <> [] /\
  match fst (loadOrders (Some "BTCUSDT") saved) with
  | JArray items => map orderOf items = map Some savedOrders
  | _ => False
  end.
Proof.
  split; [discriminate |].
  refine (proj2 (saveOrders_loadOrders savedOrders (Some "BTCUSDT") emptyStorage _ _));
    [| reflexivity].
  repeat (apply Forall_cons; split); try apply Forall_nil.
  all: unfold json_representable; cbn; repeat split;
    try reflexivity; try (eexists; reflexivity); try discriminate;
    try (apply (bool_decide_unpack _); reflexivity).
Defined.

Lemma ordersKey_falsy (symbol : option string) :
  str_falsy symbol = true -> ordersKey symbol = ORDERS_KEY.
Proof. destruct symbol as [name|]; [| reflexivity]. cbn [ordersKey]. now intros ->. Qed.

Lemma ordersKey_named (name : string) :
  str_falsy (Some name) = false -> ordersKey (Some name) = ORDERS_KEY +:+ "_" +:+ name.
Proof. cbn [ordersKey]. now intros ->. Qed.

Lemma loadOrders_get (symbol : option string) (a b : Storage.t) :
  Storage.getItem (ordersKey symbol) a = Storage.getItem (ordersKey symbol) b ->
  loadOrders symbol a = loadOrders symbol b.
Proof. intros H. unfold loadOrders. now rewrite H. Qed.

Lemma saveOrders_items (orders : list TradingOrder) (symbol : option string)
    (localStorage : Storage.t) :
  exists text,
    Storage.items (fst (saveOrders orders symbol localStorage)) = Storage.items localStorage \/
    Storage.items (fst (saveOrders orders symbol localStorage)) =
    JsMap.set (ordersKey symbol) text (Storage.items localStorage).
Proof.
  unfold saveOrders, Storage.setItem. eexists.
  destruct (Storage.refuses localStorage _ _ _); [left | right]; reflexivity.
Qed.

(** The keys of the symbols.  Two symbols share a key exactly when they
    are the same or when both are falsy: no symbol and the empty symbol
    both stand for the key without a suffix.  Under different keys the
    saved lists are apart: saving or clearing under one symbol leaves
    what [loadOrders] answers under the other as it was, and so does
    clearing the theme, under every symbol. *)
Theorem ordersKey_symbols (a b : option string) :
  (ordersKey a = ordersKey b <-> (str_falsy a = true /\ str_falsy b = true) \/ a = b) /\
  (ordersKey a <> ordersKey b ->
   forall orders localStorage,
     loadOrders b (fst (saveOrders orders a localStorage)) = loadOrders b localStorage /\
     loadOrders b (clearOrders a localStorage) = loadOrders b localStorage) /\
  (forall localStorage, loadOrders b (clearTheme localStorage) = loadOrders b localStorage).
Proof.
  split; [| split].
  - split.
    + destruct (str_falsy a) eqn:Ha, (str_falsy b) eqn:Hb.
      * intros _. left. split; reflexivity.
      * rewrite (ordersKey_falsy a Ha). destruct b as [name|]; [| discriminate].
        rewrite (ordersKey_named name Hb). unfold ORDERS_KEY. cbn. discriminate.
      * rewrite (ordersKey_falsy b Hb). destruct a as [name|]; [| discriminate].
        rewrite (ordersKey_named name Ha). unfold ORDERS_KEY. cbn. discriminate.
      * destruct a as [x|], b as [y|]; try discriminate.
        rewrite (ordersKey_named x Ha), (ordersKey_named y Hb).
        intros H. right. f_equal. now apply (inj (String.append _)), (inj (String.append _)) in H.
    + intros [[Ha Hb] | ->]; [| reflexivity].
      now rewrite (ordersKey_falsy a Ha), (ordersKey_falsy b Hb).
  - intros Hne orders localStorage. split; apply loadOrders_get.
    + unfold Storage.getItem.
      destruct (saveOrders_items orders a localStorage) as (text & [-> | ->]);
        [reflexivity | now apply get_set_ne].
    + unfold clearOrders, Storage.removeItem, Storage.getItem. cbn [Storage.items].
      now apply get_delete_ne.
  - intros localStorage. apply loadOrders_get.
    unfold clearTheme, Storage.removeItem, Storage.getItem. cbn [Storage.items].
    apply get_delete_ne. destruct b as [name|]; [| discriminate].
    cbn [ordersKey]. destruct (str_falsy (Some name)); discriminate.
Qed.

Lemma ordersKey_symbols_witness :
  ordersKey (Some "") = ordersKey None /\
  loadOrders (Some "ETHUSDT") (fst (saveOrders savedOrders (Some "BTCUSDT") emptyStorage)) =
  (JArray [], []).
Proof.
  destruct (ordersKey_symbols (Some "") None) as (Hshared & _).
  destruct (ordersKey_symbols (Some "BTCUSDT") (Some "ETHUSDT")) as (Hiff & Hapart & _).
  split; [apply Hshared; left; split; reflexivity |].
  refine (eq_trans (proj1 (Hapart _ savedOrders emptyStorage)) eq_refl).
  intros H. apply Hiff in H as [[H _] | H]; discriminate.
Defined.

Lemma prefix_truthy (key : string) :
  negb (str_falsy (Some key)) && String.prefix ORDERS_KEY key = String.prefix ORDERS_KEY key.
Proof. destruct key; reflexivity. Qed.

Lemma savedKeysFrom_filter (steps i : nat) (localStorage : Storage.t) (keys : list string) :
  savedKeysFrom steps i localStorage keys =
  keys ++ filter (fun key => String.prefix ORDERS_KEY key = true)
            (take steps (drop i (JsMap.keys (Storage.items localStorage)))).
Proof.
  revert i keys. induction steps as [| steps IH]; intros i keys; cbn [savedKeysFrom].
  - rewrite take_0. cbn. now rewrite app_nil_r.
  - rewrite IH. unfold Storage.key.
    destruct (JsMap.keys (Storage.items localStorage) !! i) as [key|] eqn:Hkey.
    + rewrite (drop_S _ _ _ Hkey). cbn [take]. rewrite prefix_truthy.
      rewrite filter_cons. destruct (String.prefix ORDERS_KEY key) eqn:Hp.
      * rewrite decide_True by reflexivity. now rewrite <- app_assoc.
      * rewrite decide_False by discriminate. reflexivity.
    + apply lookup_ge_None in Hkey.
      rewrite !drop_ge by lia. now rewrite !take_nil.
Qed.

Lemma ordersKey_prefix (symbol : option string) :
  String.prefix ORDERS_KEY (ordersKey symbol) = true.
Proof.
  destruct symbol as [name|]; [| reflexivity]. cbn [ordersKey].
  destruct (str_falsy (Some name)); [reflexivity |]. destruct name; reflexivity.
Qed.

(** The listing of the saved keys: the keys of the store that begin with
    [ORDERS_KEY], in the order of the store, whoever wrote them.  The key
    of every symbol begins so: after a save that the browser took, the
    key of the symbol is listed, and after [clearOrders] it is not.  The
    key of the theme is never listed. *)
Theorem getSavedOrderKeys_spec (localStorage : Storage.t) :
  getSavedOrderKeys localStorage =
  filter (fun key => String.prefix ORDERS_KEY key = true)
    (JsMap.keys (Storage.items localStorage)) /\
  (forall orders symbol,
      snd (saveOrders orders symbol localStorage) = [] ->
      ordersKey symbol ∈ getSavedOrderKeys (fst (saveOrders orders symbol localStorage))) /\
  (forall symbol,
      JsMap.wf (Storage.items localStorage) ->
      ordersKey symbol ∉ getSavedOrderKeys (clearOrders symbol localStorage)) /\
  THEME_KEY ∉ getSavedOrderKeys localStorage.
Proof.
  assert (Hlist : forall s, getSavedOrderKeys s =
                            filter (fun key => String.prefix ORDERS_KEY key = true)
                              (JsMap.keys (Storage.items s))).
  { intros s. unfold getSavedOrderKeys, Storage.length.
    rewrite savedKeysFrom_filter, drop_0, size_keys, firstn_all. reflexivity. }
  split; [apply Hlist | split; [| split]].
  - intros orders symbol Hquiet.
    destruct (saveOrders_accepted orders symbol localStorage Hquiet) as (text & _ & _ & ->).
    rewrite Hlist. cbn [Storage.items]. apply list_elem_of_filter.
    split; [apply ordersKey_prefix |]. apply keys_set_elem. now left.
  - intros symbol Hwf. rewrite Hlist. unfold clearOrders, Storage.removeItem.
    cbn [Storage.items]. rewrite list_elem_of_filter, keys_delete_elem by exact Hwf.
    intros (_ & Hne & _). now apply Hne.
  - rewrite Hlist, list_elem_of_filter. intros [Hp _]. discriminate.
Qed.

Lemma getSavedOrderKeys_spec_witness :
  getSavedOrderKeys (fst (saveOrders savedOrders (Some "BTCUSDT") emptyStorage)) =
  ["klinecharts_pro_orders_BTCUSDT"] /\
  "klinecharts_pro_orders_BTCUSDT" ∈
    getSavedOrderKeys (fst (saveOrders savedOrders (Some "BTCUSDT") emptyStorage)).
Proof.
  split; [reflexivity |].
  exact (proj1 (proj2 (getSavedOrderKeys_spec emptyStorage)) savedOrders (Some "BTCUSDT") eq_refl).
Defined.

(** What goes wrong is swallowed.  A write that the browser refuses
    leaves the store as it was and puts one warning on the console, so a
    later load answers what it answered before.  Loading answers [[]]
    without a warning when nothing is stored under the key or the stored
    text is empty, and [[]] with one warning when the text does not
    parse.  After [clearOrders] loading answers [[]], and clearing a
    symbol that was never saved leaves the store as it was. *)
Theorem persistence_failures (orders : list TradingOrder) (symbol : option string)
    (localStorage : Storage.t) :
  (snd (saveOrders orders symbol localStorage) <> [] ->
   saveOrders orders symbol localStorage =
   (localStorage, [warn "Failed to save orders to localStorage:" QuotaExceededError])) /\
  (Storage.getItem (ordersKey symbol) localStorage = None ->
   loadOrders symbol localStorage = (JArray [], []) /\
   clearOrders symbol localStorage = localStorage) /\
  (Storage.getItem (ordersKey symbol) localStorage = Some "" ->
   loadOrders symbol localStorage = (JArray [], [])) /\
  (forall text,
      Storage.getItem (ordersKey symbol) localStorage = Some text ->
      text <> "" -> JSON.parse text = None ->
      loadOrders symbol localStorage =
      (JArray [], [warn "Failed to load orders from localStorage:" SyntaxError])) /\
  (JsMap.wf (Storage.items localStorage) ->
   loadOrders symbol (clearOrders symbol localStorage) = (JArray [], [])).
Proof.
  split; [| split; [| split; [| split]]].
  - unfold saveOrders, Storage.setItem.
    destruct (Storage.refuses localStorage _ _ _); [reflexivity |].
    intros H. now contradiction H.
  - intros Hget. split; [unfold loadOrders; now rewrite Hget |].
    unfold clearOrders, Storage.removeItem. unfold Storage.getItem in Hget.
    rewrite (keys_delete_absent _ _ Hget). now destruct localStorage.
  - intros Hget. unfold loadOrders. now rewrite Hget.
  - intros text Hget Hne Hp. unfold loadOrders. rewrite Hget, Hp.
    unfold str_falsy. now rewrite decide_False.
  - intros Hwf. unfold loadOrders, clearOrders, Storage.removeItem, Storage.getItem.
    cbn [Storage.items]. now rewrite get_delete_eq.
Qed.

Lemma persistence_failures_witness :
  let stored := fullStorage [(OrderPersistence.ORDERS_KEY, "[1")] in
  saveOrders savedOrders None stored =
  (stored, [warn "Failed to save orders to localStorage:" QuotaExceededError]) /\
  loadOrders None stored =
  (JArray [], [warn "Failed to load orders from localStorage:" SyntaxError]).
Proof.
  destruct (persistence_failures savedOrders None
              (fullStorage [(OrderPersistence.ORDERS_KEY, "[1")]))
    as (Hsave & _ & _ & Hload & _).
  split; [apply Hsave; discriminate |].
  apply (Hload "[1"); [reflexivity | discriminate | reflexivity].
Defined.

(** [loadOrders] does not look at what the text holds.  Whatever value a
    stored text was made from, with a gap or without, loading answers
    what the round trip keeps of the value, array or not, where
    [importOrders] answers [[]] for what is not an array; in particular
    a store that was filled with the text of [exportOrders] loads. *)
Theorem loadOrders_any_value (v : JsValue) (text : string) (symbol : option string)
    (localStorage : Storage.t) :
  representable v ->
  JSON.stringify v = Some text \/ JSONCompact.stringify v = Some text ->
  Storage.getItem (ordersKey symbol) localStorage = Some text ->
  loadOrders symbol localStorage = (normalize v, []) /\
  importOrders text = match normalize v with JArray items => items | _ => [] end.
Proof.
  intros Hrep Htext Hget.
  assert (Hp : JSON.parse text = Some (normalize v)).
  { destruct Htext as [H | H]; [now apply parse_stringify | now apply parse_compact]. }
  assert (Ht : str_falsy (Some text) = false).
  { destruct Htext as [H | H].
    - unfold JSON.stringify in H. destruct (serialize 0 v) as [t|] eqn:Hs; [| discriminate].
      injection H as <-. apply text_truthy. exact (proj2 (serialize_parses v 0 t Hrep Hs)).
    - unfold JSONCompact.stringify in H.
      destruct (JSONCompact.serialize v) as [t|] eqn:Hs; [| discriminate].
      injection H as <-. apply text_truthy. exact (proj2 (compact_parses v t Hrep Hs)). }
  split; [now apply (loadOrders_text _ _ text) |].
  unfold importOrders. now rewrite Hp.
Qed.

Lemma loadOrders_any_value_witness :
  let stored := Storage.mk [(ORDERS_KEY, "null")] (fun _ _ _ => false) in
  loadOrders None stored = (JNull, []) /\ importOrders "null" = [].
Proof.
  apply (loadOrders_any_value JNull "null" None
           (Storage.mk [(ORDERS_KEY, "null")] (fun _ _ _ => false)) I).
  - left. reflexivity.
  - reflexivity.
Defined.

End SavedOrders.

Section Managers.
Import JSON JsonFacts PersistentOrderManager.

(** The manager of a symbol.  Automatic saving is on unless the
    constructor or [setAutosave] turns it off; when it is off,
    [autoSaveOrders] leaves the store as it is and says nothing, when it
    is on, it saves as [saveOrders] does.  What the manager saves, it
    loads again.  A manager of the empty symbol works on the key without
    a suffix, the one of [OrderPersistence] without a symbol. *)
Theorem autoSaveOrders_spec (name : string) (given : option bool)
    (orders : list TradingOrder) (localStorage : Storage.t) :
  let this := new name given in
  isAutosaveEnabled this = default true given /\
  (forall enabled,
      autoSaveOrders orders (setAutosave enabled this) localStorage =
      if enabled then OrderPersistence.saveOrders orders (Some name) localStorage
      else (localStorage, [])) /\
  (Forall json_representable orders ->
   snd (autoSaveOrders orders (new name None) localStorage) = [] ->
   loadOrders this (fst (autoSaveOrders orders (new name None) localStorage)) =
   (JArray (map (fun o => normalize (objectOf o)) orders), [])) /\
  (name = "" ->
   saveOrders orders this localStorage = OrderPersistence.saveOrders orders None localStorage /\
   loadOrders this localStorage = OrderPersistence.loadOrders None localStorage /\
   clearOrders this localStorage = OrderPersistence.clearOrders None localStorage).
Proof.
  cbn zeta. split; [reflexivity | split; [| split]].
  - intros []; reflexivity.
  - intros Hall Hquiet.
    exact (loadOrders_saved orders (Some name) localStorage Hall Hquiet).
  - intros ->. repeat split.
Qed.

End Managers.
